(** * validate-rm: a shallow embedding of the PreToolUse deletion guard

    The development follows [src/hooks/validate-rm.py].  Python strings are
    embedded as [string]; a character is a code point below 256 (Latin-1),
    which covers every character class the hook and the standard-library
    lexer distinguish.  The file system and the environment the hook probes
    ([os.path.exists], [os.path.realpath], [os.path.isdir], [HOME]) are
    explicit arguments. *)

From Stdlib Require Import Bool Arith Lia List Ascii String.
Import ListNotations.
Local Open Scope list_scope.
Local Open Scope string_scope.

(** ** Python string primitives *)

Module Py.

Definition nl : ascii := ascii_of_nat 10.
Definition tab : ascii := ascii_of_nat 9.
Definition cr : ascii := ascii_of_nat 13.
Definition dquote : ascii := ascii_of_nat 34.
Definition squote : ascii := ascii_of_nat 39.
Definition backslash : ascii := ascii_of_nat 92.
Definition backtick : ascii := ascii_of_nat 96.

(** One-character string. *)
Definition chr (c : ascii) : string := String c EmptyString.

Definition code (c : ascii) : nat := nat_of_ascii c.

Definition in_range (lo hi : nat) (c : ascii) : bool :=
  Nat.leb lo (code c) && Nat.leb (code c) hi.

(** [s.startswith(p)]. *)
Fixpoint startswith (s p : string) {struct p} : bool :=
  match p with
  | EmptyString => true
  | String c p' =>
      match s with
      | String d s' => Ascii.eqb c d && startswith s' p'
      | EmptyString => false
      end
  end.

(** [c in s] for a single character [c]. *)
Fixpoint contains_char (c : ascii) (s : string) : bool :=
  match s with
  | EmptyString => false
  | String d rest => Ascii.eqb c d || contains_char c rest
  end.

(** [s.endswith(c)] for a single character [c]. *)
Fixpoint endswith_char (s : string) (c : ascii) : bool :=
  match s with
  | EmptyString => false
  | String d EmptyString => Ascii.eqb c d
  | String _ rest => endswith_char rest c
  end.

(** [not s] on a string: the empty string is falsy. *)
Definition is_empty (s : string) : bool :=
  match s with EmptyString => true | _ => false end.

(** [x in (a, b, ...)] and [x in SET] on strings. *)
Definition mem (x : string) (l : list string) : bool :=
  existsb (String.eqb x) l.

(** [s.split('/')]. *)
Fixpoint split_slash (s : string) : list string :=
  match s with
  | EmptyString => [EmptyString]
  | String c rest =>
      if Ascii.eqb c "/" then EmptyString :: split_slash rest
      else match split_slash rest with
           | h :: t => String c h :: t
           | [] => [chr c]
           end
  end.

(** [sep.join(parts)]. *)
Definition join (sep : string) (parts : list string) : string :=
  String.concat sep parts.

(** Sum of the lengths of a list of strings. *)
Fixpoint total_length (l : list string) : nat :=
  match l with
  | [] => 0
  | s :: rest => String.length s + total_length rest
  end.

End Py.

(** ** [posixpath]: the pure path functions of [os.path] on POSIX,
    after CPython's [Lib/posixpath.py] *)

Module PosixPath.
Import Py.

Definition sep : string := "/".

(** [os.path.isabs]. *)
Definition isabs (p : string) : bool := startswith p sep.

(** [os.path.basename]: everything after the last slash. *)
Fixpoint basename (p : string) : string :=
  match p with
  | EmptyString => EmptyString
  | String c rest =>
      if contains_char "/" rest then basename rest
      else if Ascii.eqb c "/" then rest
      else p
  end.

(** [os.path.join(a, b)] with one trailing component. *)
Definition join (a b : string) : string :=
  if startswith b sep then b
  else if is_empty a || endswith_char a "/" then a ++ b
  else a ++ sep ++ b.

(** The value of [initial_slashes] in [normpath]: 0, 1 or 2. *)
Definition initial_slashes (path : string) : nat :=
  if startswith path sep then
    if startswith path "//" && negb (startswith path "///") then 2 else 1
  else 0.

Definition is_nil {A} (l : list A) : bool :=
  match l with [] => true | _ => false end.

(** One round of the loop over [comps] in [normpath]. *)
Definition normpath_step (slashes : nat) (new_comps : list string)
           (comp : string) : list string :=
  if (comp =? "") || (comp =? ".") then new_comps
  else if negb (comp =? "..")
          || ((slashes =? 0)%nat && is_nil new_comps)
          || (negb (is_nil new_comps) && (last new_comps "" =? ".."))
       then (new_comps ++ [comp])%list
  else if negb (is_nil new_comps) then removelast new_comps
  else new_comps.

Fixpoint repeat_sep (n : nat) : string :=
  match n with
  | O => EmptyString
  | S k => sep ++ repeat_sep k
  end.

(** [os.path.normpath]. *)
Definition normpath (path : string) : string :=
  if is_empty path then "."
  else
    let slashes := initial_slashes path in
    let comps := fold_left (normpath_step slashes) (split_slash path) [] in
    let joined := Py.join sep comps in
    let result := if (slashes =? 0)%nat then joined
                  else repeat_sep slashes ++ joined in
    if is_empty result then "." else result.

End PosixPath.

(** ** [re]: the regular expressions the hook searches for *)

Module Re.
Import Py.

(** [re.search]: try the anchored matcher at every position of [s],
    the end of the string included. *)
Fixpoint search (match_here : string -> bool) (s : string) : bool :=
  match_here s ||
  match s with
  | EmptyString => false
  | String _ rest => search match_here rest
  end.

(** A literal pattern. *)
Definition lit (p : string) : string -> bool := fun s => startswith s p.

(** Character class [[A-Za-z_]]. *)
Definition name_start (c : ascii) : bool :=
  in_range 65 90 c || in_range 97 122 c || Ascii.eqb c "_".

(** [\$[A-Za-z_]] anchored. *)
Definition dollar_name (s : string) : bool :=
  match s with
  | String "$" (String c _) => name_start c
  | _ => false
  end.

(** [[^`]+`] anchored, after at least [seen] characters of the class
    were consumed. *)
Fixpoint not_backticks_then_backtick (seen : bool) (s : string) : bool :=
  match s with
  | EmptyString => false
  | String c rest =>
      if Ascii.eqb c backtick then seen
      else not_backticks_then_backtick true rest
  end.

(** [`[^`]+`] anchored. *)
Definition backtick_span (s : string) : bool :=
  match s with
  | String c rest =>
      Ascii.eqb c backtick && not_backticks_then_backtick false rest
  | EmptyString => false
  end.

(** [.*\]] anchored: the dot does not match a newline. *)
Fixpoint dots_then_close (s : string) : bool :=
  match s with
  | EmptyString => false
  | String c rest =>
      if Ascii.eqb c "]" then true
      else if Ascii.eqb c nl then false
      else dots_then_close rest
  end.

(** [\[.*\]] anchored. *)
Definition bracket_pair (s : string) : bool :=
  match s with
  | String "[" rest => dots_then_close rest
  | _ => false
  end.

(** [\w] on code points below 256, as the Unicode-aware [re] module
    classifies them. *)
Definition is_word (c : ascii) : bool :=
  in_range 48 57 c || in_range 65 90 c || in_range 97 122 c
  || Ascii.eqb c "_"
  || (code c =? 170)%nat || (code c =? 178)%nat || (code c =? 179)%nat
  || (code c =? 181)%nat || (code c =? 185)%nat || (code c =? 186)%nat
  || in_range 188 190 c
  || in_range 192 214 c || in_range 216 246 c || in_range 248 255 c.

Definition is_word_opt (c : option ascii) : bool :=
  match c with Some c => is_word c | None => false end.

(** [\b] between the character before and the character after. *)
Definition boundary (prev next : option ascii) : bool :=
  xorb (is_word_opt prev) (is_word_opt next).

Definition head (s : string) : option ascii :=
  match s with String c _ => Some c | EmptyString => None end.

(** The literal [p], then [\b]; [prev] is the character before. *)
Fixpoint literal_then_boundary (prev : option ascii) (p s : string) : bool :=
  match p with
  | EmptyString => boundary prev (head s)
  | String c p' =>
      match s with
      | String d s' => Ascii.eqb c d && literal_then_boundary (Some c) p' s'
      | EmptyString => false
      end
  end.

(** [\bP\b] anchored, [prev] being the character before the position. *)
Definition word_here (p : string) (prev : option ascii) (s : string) : bool :=
  boundary prev (head s) && literal_then_boundary prev p s.

Fixpoint search_word_from (p : string) (prev : option ascii) (s : string)
  : bool :=
  word_here p prev s ||
  match s with
  | EmptyString => false
  | String c rest => search_word_from p (Some c) rest
  end.

(** [re.search(rf'\b{re.escape(p)}\b', s)]. *)
Definition search_word (p s : string) : bool := search_word_from p None s.

End Re.

(** ** [shlex]: the standard-library lexer as the hook configures it

    [shlex.shlex(command, posix=True, punctuation_chars=True)] with
    [whitespace_split = False], after [read_token] in CPython's
    [Lib/shlex.py].  [read_token] is a state machine over the characters
    of the input; its state between two characters is a [state] below.
    A character that ends a token without belonging to it is pushed back
    and read again from the blank state: [from_space].  An unquoted empty
    token would end the iteration; the machine never produces one before
    the end of the input. *)

Module Shlex.
Import Py.

(** The two [ValueError]s [read_token] raises. *)
Inductive error : Type :=
| NoClosingQuotation
| NoEscapedCharacter.

(** [self.whitespace = ' \t\r\n']. *)
Definition is_whitespace (c : ascii) : bool :=
  Ascii.eqb c " " || Ascii.eqb c tab || Ascii.eqb c cr || Ascii.eqb c nl.

(** [self.commenters = '#']. *)
Definition is_commenter (c : ascii) : bool := Ascii.eqb c "#".

(** [punctuation_chars = '();<>|&']. *)
Definition is_punctuation (c : ascii) : bool :=
  contains_char c "();<>|&".

(** [self.quotes]: the single and the double quote. *)
Definition is_quote (c : ascii) : bool :=
  Ascii.eqb c squote || Ascii.eqb c dquote.

(** [self.escape = '\\']. *)
Definition is_escape (c : ascii) : bool := Ascii.eqb c backslash.

(** [self.escapedquotes]: the double quote only. *)
Definition is_escapedquote (c : ascii) : bool := Ascii.eqb c dquote.

(** [self.wordchars] in POSIX mode with punctuation characters: letters,
    digits, underscore, the Latin-1 letters, and [~-./*?=]. *)
Definition is_wordchar (c : ascii) : bool :=
  in_range 97 122 c || in_range 65 90 c || in_range 48 57 c
  || Ascii.eqb c "_"
  || in_range 192 214 c || in_range 216 246 c || in_range 248 255 c
  || contains_char c "~-./*?=".

(** [escapedstate]: the state an escape returns to. *)
Inductive escaped_from : Type :=
| FromWord
| FromQuote (q : ascii).

(** [self.state] together with [self.token] and the local [quoted]. *)
Inductive state : Type :=
| Space
| Word (token : string) (quoted : bool)
| Punct (token : string)
| Quote (q : ascii) (token : string)
| Escape (from : escaped_from) (token : string) (quoted : bool)
| Comment.

(** [if self.token or (self.posix and quoted): break] else [continue]. *)
Definition emit (token : string) (quoted : bool) : list string :=
  if negb (is_empty token) || quoted then [token] else [].

(** A character read in state [' ']. *)
Definition from_space (c : ascii) : list string * state :=
  if is_whitespace c then ([], Space)
  else if is_commenter c then ([], Comment)
  else if is_escape c then ([], Escape FromWord EmptyString false)
  else if is_wordchar c then ([], Word (chr c) false)
  else if is_punctuation c then ([], Punct (chr c))
  else if is_quote c then ([], Quote c EmptyString)
  else ([chr c], Space).

(** One character of input: the tokens completed by it and the next
    state. *)
Definition step (st : state) (c : ascii) : list string * state :=
  match st with
  | Space => from_space c
  | Comment => if Ascii.eqb c nl then ([], Space) else ([], Comment)
  | Quote q token =>
      if Ascii.eqb c q then ([], Word token true)
      else if is_escape c && is_escapedquote q
           then ([], Escape (FromQuote q) token true)
      else ([], Quote q (token ++ chr c))
  | Escape from token quoted =>
      match from with
      | FromQuote q =>
          let token' :=
            if negb (Ascii.eqb c backslash) && negb (Ascii.eqb c q)
            then token ++ chr backslash else token in
          ([], Quote q (token' ++ chr c))
      | FromWord => ([], Word (token ++ chr c) quoted)
      end
  | Word token quoted =>
      if is_whitespace c then (emit token quoted, Space)
      else if is_commenter c then (emit token quoted, Comment)
      else if is_quote c then ([], Quote c token)
      else if is_escape c then ([], Escape FromWord token quoted)
      else if is_wordchar c then ([], Word (token ++ chr c) quoted)
      else let '(out, st') := from_space c in
           ((emit token quoted ++ out)%list, st')
  | Punct token =>
      if is_whitespace c then (emit token false, Space)
      else if is_commenter c then (emit token false, Comment)
      else if is_punctuation c then ([], Punct (token ++ chr c))
      else let '(out, st') := from_space c in
           ((token :: out)%list, st')
  end.

(** End of input. *)
Definition finish (st : state) : error + list string :=
  match st with
  | Space | Comment => inr []
  | Word token quoted => inr (emit token quoted)
  | Punct token => inr (emit token false)
  | Quote _ _ => inl NoClosingQuotation
  | Escape _ _ _ => inl NoEscapedCharacter
  end.

Fixpoint run (st : state) (input : string) : error + list string :=
  match input with
  | EmptyString => finish st
  | String c rest =>
      let '(out, st') := step st c in
      match run st' rest with
      | inl e => inl e
      | inr toks => inr (out ++ toks)%list
      end
  end.

(** The tokens completed by a stretch of input, and the state after it. *)
Fixpoint feed (st : state) (input : string) : list string * state :=
  match input with
  | EmptyString => ([], st)
  | String c rest =>
      let '(out, st') := step st c in
      let '(out', st'') := feed st' rest in
      ((out ++ out')%list, st'')
  end.

(** [list(lexer)]. *)
Definition tokens (command : string) : error + list string :=
  run Space command.

(** Characters read so far that may still reach a token: the measure
    of the invariant that the lexer never invents characters. *)
Definition weight (st : state) : nat :=
  match st with
  | Space | Comment => 0
  | Word token _ | Punct token | Quote _ token => String.length token
  | Escape _ token _ => S (String.length token)
  end.

End Shlex.

Import Py.

(** ** The world the hook probes *)

(** The result of a system call that may raise [OSError]. *)
Inductive os_result : Type :=
| OsOk (path : string)
| OSError (text : string).

(** The file-system probes of one check. *)
Record FileSystem : Type := {
  fs_exists : string -> bool;        (* os.path.exists *)
  fs_isdir : string -> bool;         (* os.path.isdir *)
  fs_realpath : string -> os_result  (* os.path.realpath *)
}.

(** The decoded JSON request; a missing field reads as the empty string. *)
Record Request : Type := {
  tool_name : string;
  command : string;
  cwd : string
}.

(** How the process ends: the exit code and what went to stderr. *)
Inductive Exit : Type :=
| Exited (status : nat) (stderr : string).

(** [block]: print the message to stderr and exit with code 2. *)
Definition block (message : string) : Exit := Exited 2 (message ++ chr nl).

(** [allow]: exit with code 0. *)
Definition allow : Exit := Exited 0 EmptyString.

(** ** The tables of the hook *)

Definition DANGEROUS_COMMANDS : list string :=
  ["rm"; "unlink"; "rmdir"; "shred";
   "/bin/rm"; "/usr/bin/rm"; "/bin/unlink"; "/usr/bin/unlink"].

Definition COMMAND_EXECUTORS : list string :=
  ["xargs"; "parallel"; "find"; "sudo"; "doas"; "env"; "nice"; "nohup";
   "time"; "timeout"; "watch"; "sh"; "bash"; "zsh"; "dash"; "fish"].

Definition UNRESOLVABLE_PATTERNS : list (string -> bool) :=
  [Re.lit "${"; Re.lit "$("; Re.backtick_span; Re.dollar_name;
   Re.lit "*"; Re.lit "?"; Re.bracket_pair].

(** The head names of the wrapper branch of [extract_rm_targets]. *)
Definition WRAPPERS : list string :=
  ["sudo"; "doas"; "env"; "nice"; "nohup"; "time"; "timeout"].

(** The head names of the shell branch of [extract_rm_targets]. *)
Definition SHELLS : list string := ["sh"; "bash"; "zsh"; "dash"; "fish"].

(** [cmd in DANGEROUS_COMMANDS or cmd == 'rm']. *)
Definition is_deletion (cmd : string) : bool :=
  mem cmd DANGEROUS_COMMANDS || (cmd =? "rm").

(** ** Tokenizer *)

Definition is_separator (token : string) : bool :=
  mem token [";"; "|"; "||"; "&&"; "&"; chr nl].

Definition is_redirection (token : string) : bool :=
  mem token [">"; ">>"; "<"; "2>"; "2>>"; "&>"; "&>>"].

(** [commands.append(current_command)] when [current_command] is not
    empty. *)
Definition flush (commands : list (list string)) (current : list string)
  : list (list string) :=
  match current with
  | [] => commands
  | _ => (commands ++ [current])%list
  end.

(** The [while] loop of [parse_command_tokens] and the final flush. *)
Fixpoint split_commands (tokens : list string) (current : list string)
         (commands : list (list string)) : list (list string) :=
  match tokens with
  | [] => flush commands current
  | token :: rest =>
      if is_separator token then
        split_commands rest [] (flush commands current)
      else if is_redirection token then
        match rest with
        | target :: rest' =>
            split_commands rest' (current ++ [token; target])%list commands
        | [] => split_commands rest (current ++ [token])%list commands
        end
      else split_commands rest (current ++ [token])%list commands
  end.

(** [parse_command_tokens]: [None] is the malformed signal. *)
Definition parse_command_tokens (command : string)
  : option (list (list string)) :=
  match Shlex.tokens command with
  | inl _ => None
  | inr tokens => Some (split_commands tokens [] [])
  end.

(** ** Recursive expander: the loops over the tokens after the head *)

(** The [while] loop of the wrapper branch; [rest] is
    [tokens[sub_start:]] and the result is what is left when it stops. *)
Fixpoint skip_wrapper_flags (cmd : string) (sub_start : nat)
         (rest : list string) : list string :=
  match rest with
  | [] => []
  | token :: rest' =>
      if startswith token "-" then
        if (cmd =? "sudo") && mem token ["-u"; "-g"; "-C"] then
          match rest' with
          | [] => []
          | _ :: rest'' => skip_wrapper_flags cmd (sub_start + 2) rest''
          end
        else if (cmd =? "timeout") && (sub_start =? 1)%nat then
          skip_wrapper_flags cmd (sub_start + 1) rest'
        else skip_wrapper_flags cmd (sub_start + 1) rest'
      else if contains_char "=" token && (cmd =? "env") then
        skip_wrapper_flags cmd (sub_start + 1) rest'
      else rest
  end.

(** The [for] loop of the shell branch: the token after the first [-c]
    that has a successor. *)
Fixpoint find_dash_c (rest : list string) : option string :=
  match rest with
  | [] => None
  | token :: rest' =>
      if token =? "-c" then
        match rest' with
        | arg :: _ => Some arg
        | [] => find_dash_c rest'
        end
      else find_dash_c rest'
  end.

(** The [while] loop of the xargs branch. *)
Fixpoint skip_dashed (rest : list string) : list string :=
  match rest with
  | [] => []
  | token :: rest' =>
      if startswith token "-" then skip_dashed rest' else rest
  end.

Definition xargs_reasons (rest : list string) : list string :=
  match skip_dashed rest with
  | sub :: _ =>
      if is_deletion (PosixPath.basename sub)
      then ["xargs with rm - paths come from stdin"]
      else []
  | [] => []
  end.

(** The [for] loop of the find branch, over all the tokens. *)
Fixpoint find_reasons (tokens : list string) : list string :=
  match tokens with
  | [] => []
  | token :: rest =>
      ((if mem token ["-exec"; "-execdir"; "-ok"; "-okdir"] then
         match rest with
         | next :: _ =>
             if is_deletion (PosixPath.basename next)
             then [("find " ++ token ++ " with rm - paths are dynamic")%string]
             else []
         | [] => []
         end
       else []) ++ find_reasons rest)%list
  end.

(** [token[1] != '-'] for a token of length above one. *)
Definition second_is_not_dash (token : string) : bool :=
  match String.get 1 token with
  | Some c => negb (Ascii.eqb c "-")
  | None => false
  end.

(** The option loop of the deletion branch: what is left at index [i]. *)
Fixpoint skip_rm_options (rest : list string) : list string :=
  match rest with
  | [] => []
  | token :: rest' =>
      if token =? "--" then rest'
      else if startswith token "--" && contains_char "=" token
           then skip_rm_options rest'
      else if startswith token "--" then skip_rm_options rest'
      else if startswith token "-" && (1 <? String.length token)%nat
              && second_is_not_dash token
           then skip_rm_options rest'
      else rest
  end.

(** Results of several analyses, appended in order; [None] when one of
    them did not finish. *)
Fixpoint collect {A : Type}
         (f : A -> option (list string * list string)) (l : list A)
  : option (list string * list string) :=
  match l with
  | [] => Some ([], [])
  | x :: rest =>
      match f x, collect f rest with
      | Some (paths, reasons), Some (paths', reasons') =>
          Some ((paths ++ paths')%list, (reasons ++ reasons')%list)
      | _, _ => None
      end
  end.

Section Engine.

Variable fs : FileSystem.

(** The symlink step of [resolve_path]: the real path of an existing
    path, the path itself when it does not exist or the probe fails. *)
Definition real_if_exists (path : string) : string :=
  if fs_exists fs path then
    match fs_realpath fs path with
    | OsOk real => real
    | OSError _ => path
    end
  else path.

(** [resolve_path]. *)
Definition resolve_path (path cwd home : string) : option string :=
  if existsb (fun pattern => Re.search pattern path) UNRESOLVABLE_PATTERNS
  then None
  else
    let expanded :=
      if startswith path "~" then
        if (path =? "~") || startswith path "~/"
        then Some (home ++ String.substring 1 (String.length path - 1) path)
        else None
      else Some path in
    match expanded with
    | None => None
    | Some path =>
        let path :=
          if negb (PosixPath.isabs path) then PosixPath.join cwd path
          else path in
        let path := PosixPath.normpath path in
        Some (real_if_exists path)
    end.

(** [is_path_within_directory]. *)
Definition is_path_within_directory (path directory : string) : bool :=
  let path := PosixPath.normpath path in
  let directory := PosixPath.normpath directory in
  if path =? directory then true
  else startswith path (directory ++ PosixPath.sep).

(** The last loop of [extract_rm_targets]: every remaining token is a
    path argument. *)
Fixpoint resolve_all (args : list string) (cwd home : string)
  : list string * list string :=
  match args with
  | [] => ([], [])
  | path_arg :: rest =>
      let '(paths, reasons) := resolve_all rest cwd home in
      match resolve_path path_arg cwd home with
      | None => (paths, ("Unresolvable path: " ++ path_arg) :: reasons)
      | Some resolved => (resolved :: paths, reasons)
      end
  end.

(** The body of [extract_rm_targets]; [self] stands for the recursive
    calls, which return [None] when they do not finish. *)
Definition extract_body
           (self : list string -> option (list string * list string))
           (tokens : list string) (cwd home : string)
  : option (list string * list string) :=
  match tokens with
  | [] => Some ([], [])
  | head :: rest =>
      let cmd := PosixPath.basename head in
      if mem cmd WRAPPERS then
        match skip_wrapper_flags cmd 1 rest with
        | [] => Some ([], [])
        | sub => self sub
        end
      else if mem cmd SHELLS then
        match find_dash_c rest with
        | Some arg =>
            match parse_command_tokens arg with
            | None =>
                Some ([], ["Malformed nested command in " ++ cmd ++ " -c"])
            | Some nested_commands => collect self nested_commands
            end
        | None => Some ([], [])
        end
      else if cmd =? "xargs" then Some ([], xargs_reasons rest)
      else if cmd =? "find" then Some ([], find_reasons tokens)
      else if negb (mem cmd DANGEROUS_COMMANDS) && negb (cmd =? "rm")
           then Some ([], [])
      else Some (resolve_all (skip_rm_options rest) cwd home)
  end.

(** [extract_rm_targets] with a bound on the depth of the recursion;
    [None] when the bound is reached. *)
Fixpoint extract_fuel (fuel : nat) (cwd home : string)
         (tokens : list string) : option (list string * list string) :=
  match fuel with
  | O => None
  | S fuel' => extract_body (extract_fuel fuel' cwd home) tokens cwd home
  end.

(** [extract_rm_targets]: the bound is one more than the number of
    characters of the tokens, which every recursive call lowers. *)
Definition extract_rm_targets (tokens : list string) (cwd home : string)
  : list string * list string :=
  match extract_fuel (S (total_length tokens)) cwd home tokens with
  | Some result => result
  | None => ([], [])
  end.

(** ** Decision engine *)

(** The test [base_cmd in DANGEROUS_COMMANDS or base_cmd in
    COMMAND_EXECUTORS] of [check_command]; an empty command is skipped. *)
Definition is_tracked (cmd_tokens : list string) : bool :=
  match cmd_tokens with
  | [] => false
  | head :: _ =>
      let base_cmd := PosixPath.basename head in
      mem base_cmd DANGEROUS_COMMANDS || mem base_cmd COMMAND_EXECUTORS
  end.

(** The loop of [check_command] over the simple commands: the pair
    [(all_resolved_paths, all_unresolvable)]. *)
Fixpoint accumulate (commands : list (list string)) (cwd home : string)
  : list string * list string :=
  match commands with
  | [] => ([], [])
  | cmd_tokens :: rest =>
      let '(paths, unresolvable) :=
        if is_tracked cmd_tokens
        then extract_rm_targets cmd_tokens cwd home
        else ([], []) in
      let '(paths', unresolvable') := accumulate rest cwd home in
      ((paths ++ paths')%list, (unresolvable ++ unresolvable')%list)
  end.

Definition malformed_message (command : string) : string :=
  "BLOCKED: Malformed command (unclosed quotes or syntax error)"
    ++ chr nl ++ "  Command: " ++ command.

Definition unresolvable_message (all_unresolvable : list string)
           (command abs_cwd : string) : string :=
  let reasons := Py.join (chr nl ++ "  - ") all_unresolvable in
  "BLOCKED: Command contains rm with unresolvable paths (safety block)"
    ++ chr nl ++ "  Reasons:" ++ chr nl ++ "  - " ++ reasons ++ chr nl
    ++ "  Command: " ++ command ++ chr nl
    ++ "  Working directory: " ++ abs_cwd.

Definition outside_message (path abs_cwd command : string) : string :=
  "BLOCKED: rm targets path outside working directory" ++ chr nl
    ++ "  Target: " ++ path ++ chr nl
    ++ "  Working directory: " ++ abs_cwd ++ chr nl
    ++ "  Command: " ++ command.

(** [check_command]: the diagnostic when blocked, [None] when allowed.
    The loop over [dangerous_direct_patterns] has an empty body and is
    left out. *)
Definition check_command (command cwd home abs_cwd : string)
  : option string :=
  match parse_command_tokens command with
  | None => Some (malformed_message command)
  | Some commands =>
      let '(all_resolved_paths, all_unresolvable) :=
        accumulate commands cwd home in
      match all_unresolvable with
      | _ :: _ =>
          Some (unresolvable_message all_unresolvable command abs_cwd)
      | [] =>
          match find (fun path =>
                        negb (is_path_within_directory path abs_cwd))
                     all_resolved_paths with
          | Some path => Some (outside_message path abs_cwd command)
          | None => None
          end
      end
  end.

(** The quick check of [main]: some tracked name occurs in the raw
    command between word boundaries. *)
Definition has_dangerous (command : string) : bool :=
  existsb (fun cmd => Re.search_word cmd command) DANGEROUS_COMMANDS
  || existsb (fun cmd => Re.search_word cmd command) COMMAND_EXECUTORS.

(** [main] on a decoded request; [home] is the [HOME] lookup. *)
Definition main (home : string) (input_data : Request) : Exit :=
  let tool_name := tool_name input_data in
  let command := command input_data in
  let cwd := cwd input_data in
  if negb (tool_name =? "Bash") then allow
  else if is_empty command then allow
  else if is_empty cwd || negb (fs_isdir fs cwd) then
    block ("ERROR: Invalid or missing working directory: " ++ cwd)
  else
    match fs_realpath fs cwd with
    | OSError e => block ("ERROR: Cannot resolve working directory: " ++ e)
    | OsOk abs_cwd =>
        if negb (has_dangerous command) then allow
        else
          match check_command command cwd home abs_cwd with
          | Some error => if is_empty error then allow else block error
          | None => allow
          end
    end.

End Engine.

(** ** A concrete world for the examples *)

(** A file system without symbolic links in which the listed directories
    exist and nothing else does. *)
Definition plain_dirs : list string :=
  ["/"; "/etc"; "/tmp"; "/home"; "/home/u"; "/home/u/project"].

Definition plain_fs : FileSystem := {|
  fs_exists := fun p => mem p plain_dirs;
  fs_isdir := fun p => mem p plain_dirs;
  fs_realpath := fun p => OsOk (PosixPath.normpath p)
|}.

(** A Bash request issued from [/home/u/project]. *)
Definition bash_request (command : string) : Request := {|
  tool_name := "Bash";
  command := command;
  cwd := "/home/u/project"
|}.

(** ** Vocabulary of the specification *)

(** Containment as the decision engine words it: the normalized path is
    the normalized working directory, or starts with it followed by a
    path separator. *)
Definition inside_or_equal (path working_dir : string) : Prop :=
  PosixPath.normpath path = PosixPath.normpath working_dir \/
  exists rest,
    PosixPath.normpath path
    = PosixPath.normpath working_dir ++ PosixPath.sep ++ rest.

(** A diagnostic cites a text when the text occurs in it. *)
Definition cites (message text : string) : Prop :=
  exists before after, message = before ++ text ++ after.

(** Where a reading of the command under the quoting rules of the shell
    stands: outside quotes, after a backslash outside quotes, inside
    single quotes, inside double quotes, or after a backslash inside
    double quotes. *)
Inductive quoting : Type :=
| Unquoted
| Escaped
| InSingle
| InDouble
| EscapedInDouble.

(** One character read under these rules: a quote opens or closes its
    own kind of quotation, a backslash outside quotes or inside double
    quotes takes the next character with it, and nothing is special
    inside single quotes but the single quote. *)
Definition quoting_step (q : quoting) (c : ascii) : quoting :=
  match q with
  | Unquoted =>
      if Ascii.eqb c squote then InSingle
      else if Ascii.eqb c dquote then InDouble
      else if Ascii.eqb c backslash then Escaped
      else Unquoted
  | Escaped => Unquoted
  | InSingle => if Ascii.eqb c squote then Unquoted else InSingle
  | InDouble =>
      if Ascii.eqb c dquote then Unquoted
      else if Ascii.eqb c backslash then EscapedInDouble
      else InDouble
  | EscapedInDouble => InDouble
  end.

Fixpoint quoting_after (q : quoting) (text : string) : quoting :=
  match text with
  | EmptyString => q
  | String c rest => quoting_after (quoting_step q c) rest
  end.

(** Some [#] of the text stands outside quotes and is not escaped. *)
Fixpoint unquoted_hash (q : quoting) (text : string) : bool :=
  match text with
  | EmptyString => false
  | String c rest =>
      match q with
      | Unquoted => Ascii.eqb c "#"
      | _ => false
      end
      || unquoted_hash (quoting_step q c) rest
  end.

(** Unterminated quoting, as a property of the command string: read
    from its start, the string ends inside single or double quotes. *)
Definition unterminated_quoting (command : string) : Prop :=
  match quoting_after Unquoted command with
  | InSingle | InDouble | EscapedInDouble => True
  | Unquoted | Escaped => False
  end.

(** The quoting state a state of the lexer stands for. *)
Definition quoting_of (st : Shlex.state) : quoting :=
  match st with
  | Shlex.Space | Shlex.Word _ _ | Shlex.Punct _ | Shlex.Comment => Unquoted
  | Shlex.Quote q _ => if Ascii.eqb q squote then InSingle else InDouble
  | Shlex.Escape Shlex.FromWord _ _ => Escaped
  | Shlex.Escape (Shlex.FromQuote _) _ _ => EscapedInDouble
  end.

(** The states the lexer reaches without reading a comment: a quotation
    is opened by one of the two quotes, and only a double quotation is
    left for an escape. *)
Definition outside_comment (st : Shlex.state) : Prop :=
  match st with
  | Shlex.Comment => False
  | Shlex.Quote q _ => Shlex.is_quote q = true
  | Shlex.Escape (Shlex.FromQuote q) _ _ => q = dquote
  | _ => True
  end.

(** No regular expression of [UNRESOLVABLE_PATTERNS] matches. *)
Definition free_of_patterns (path : string) : Prop :=
  Forall (fun pattern => Re.search pattern path = false)
         UNRESOLVABLE_PATTERNS.

(** A [~user] reference: a leading tilde that is neither alone nor
    followed by a slash. *)
Definition other_user_home (path : string) : bool :=
  startswith path "~" && negb ((path =? "~") || startswith path "~/").

(** A leading [~] or [~/] replaced by the home directory. *)
Definition expand_home (home path : string) : string :=
  if (path =? "~") || startswith path "~/"
  then home ++ String.substring 1 (String.length path - 1) path
  else path.

(** A relative path joined onto the working directory. *)
Definition absolute_from (cwd path : string) : string :=
  if PosixPath.isabs path then path else PosixPath.join cwd path.

(** The request carries a working directory the hook accepts. *)
Definition valid_cwd (fs : FileSystem) (request : Request)
           (abs_cwd : string) : Prop :=
  cwd request <> "" /\
  fs_isdir fs (cwd request) = true /\
  fs_realpath fs (cwd request) = OsOk abs_cwd.

(** The characters of a shell variable name: letters, digits and the
    underscore. *)
Definition is_name_char (c : ascii) : bool :=
  Re.name_start c || in_range 48 57 c.

Definition is_name (name : string) : Prop :=
  name <> EmptyString /\
  forall c, contains_char c name = true -> is_name_char c = true.

(** The quoted command line [bash -c "rm -rf /etc"]. *)
Definition bash_c_rm_etc : string :=
  "bash -c " ++ chr dquote ++ "rm -rf /etc" ++ chr dquote.

(** ** Proof automation *)

(** Splits a disjunction of booleans known to be false into its parts. *)
Ltac split_orb_false :=
  repeat match goal with
         | H : (_ || _) = false |- _ =>
             apply orb_false_iff in H; destruct H
         end.

(** ** Vocabulary of the further properties *)

(** A token that the grouping loop treats specially. *)
Definition is_operator (token : string) : bool :=
  is_separator token || is_redirection token.

(** Simple commands joined by separators: the first command, then each
    separator with the command that follows it. *)
Fixpoint chain (first : list string)
         (more : list (string * list string)) : list string :=
  match more with
  | [] => first
  | (separator, next) :: more' =>
      (first ++ separator :: chain next more')%list
  end.

(** No token of the command is a separator or a redirection. *)
Definition operator_free (cmd_tokens : list string) : Prop :=
  Forall (fun token => is_operator token = false) cmd_tokens.

(** A command the grouping loop can produce: not empty, and its head is
    not a separator. *)
Definition well_headed (cmd_tokens : list string) : Prop :=
  match cmd_tokens with
  | [] => False
  | head :: _ => is_separator head = false
  end.

(** An option of a deletion command as the option loop reads it: a long
    option other than the bare double dash, or a dash followed by a
    character that is not a dash. *)
Definition is_rm_option (token : string) : bool :=
  negb (token =? "--")
  && (startswith token "--"
      || (startswith token "-" && (1 <? String.length token)%nat
          && second_is_not_dash token)).

(** The flags of [find] that run a command. *)
Definition FIND_EXEC_FLAGS : list string :=
  ["-exec"; "-execdir"; "-ok"; "-okdir"].

(** The reason the find branch gives for one of these flags. *)
Definition find_reason (flag : string) : string :=
  "find " ++ flag ++ " with rm - paths are dynamic".

(** The reason the deletion branch gives for a path argument. *)
Definition unresolvable_reason (path_arg : string) : string :=
  "Unresolvable path: " ++ path_arg.

(** A wrapper written without flags in front of what it runs: its
    basename is a wrapper name, and the token neither begins with a dash
    nor holds an equals sign. *)
Definition plain_wrapper (token : string) : bool :=
  mem (PosixPath.basename token) WRAPPERS
  && negb (startswith token "-") && negb (contains_char "=" token).

(** A component of a normalized path: not empty, neither [.] nor [..],
    and without a slash. *)
Definition plain_component (comp : string) : Prop :=
  comp <> EmptyString /\ comp <> "." /\ comp <> ".." /\
  contains_char "/" comp = false.

(** The absolute path made of the given components; the root for none. *)
Definition path_of (comps : list string) : string :=
  PosixPath.sep ++ Py.join PosixPath.sep comps.

(** Lexical normalization as the specification words it, on the
    components of a path below a directory: an empty component and [.]
    are dropped, [..] removes the last component, if any, and any other
    component is appended. *)
Definition lexical_step (comps : list string) (comp : string)
  : list string :=
  if (comp =? "") || (comp =? ".") then comps
  else if comp =? ".." then removelast comps
  else (comps ++ [comp])%list.

Definition lexical_walk (dir comps : list string) : list string :=
  fold_left lexical_step comps dir.

(** [dir] is [path] or one of its ancestors, component by component. *)
Definition components_prefix (dir path : list string) : Prop :=
  exists rest, path = (dir ++ rest)%list.

(** Containment on components, the root included: [dir] is a prefix of
    [path], and the root contains nothing but itself. *)
Definition directory_contains (dir path : list string) : Prop :=
  components_prefix dir path /\ (dir = [] -> path = []).

(** The characters one of the unresolvable patterns has to start on. *)
Definition starts_a_pattern (c : ascii) : bool :=
  Ascii.eqb c "$" || Ascii.eqb c backtick || Ascii.eqb c "*"
  || Ascii.eqb c "?" || Ascii.eqb c "[".

(** A file system in which [/home/u/project/link] is a symbolic link to
    [/etc]. *)
Definition symlink_fs : FileSystem := {|
  fs_exists := fun p => mem p ("/home/u/project/link" :: plain_dirs);
  fs_isdir := fun p => mem p ("/home/u/project/link" :: plain_dirs);
  fs_realpath := fun p =>
    if p =? "/home/u/project/link" then OsOk "/etc"
    else OsOk (PosixPath.normpath p)
|}.


(** A file system in which [/link] is a symbolic link to [/etc]. *)
Definition root_link_fs : FileSystem := {|
  fs_exists := fun p => mem p ("/link" :: plain_dirs);
  fs_isdir := fun p => mem p ("/link" :: plain_dirs);
  fs_realpath := fun p =>
    if p =? "/link" then OsOk "/etc"
    else OsOk (PosixPath.normpath p)
|}.

(** Proves [is_name] of a literal. *)
Ltac literal_is_name :=
  split;
  [ discriminate
  | let c := fresh "c" in
    let Hc := fresh "Hc" in
    intros c Hc; cbn [contains_char] in Hc;
    repeat (apply orb_prop in Hc;
            destruct Hc as [Hc|Hc];
            [apply Ascii.eqb_eq in Hc; subst c; reflexivity|]);
    discriminate Hc ].

(** Proves that the components of a literal path are plain. *)
Ltac literal_is_plain :=
  repeat constructor; discriminate.

(** A word of the lexer: not empty, made of word characters only. *)
Definition is_word (word : string) : Prop :=
  word <> EmptyString /\
  forall c, contains_char c word = true -> Shlex.is_wordchar c = true.

(** Proves [is_word] of a literal. *)
Ltac literal_is_word :=
  split;
  [ discriminate
  | let c := fresh "c" in
    let Hc := fresh "Hc" in
    intros c Hc; cbn [contains_char] in Hc;
    repeat (apply orb_prop in Hc;
            destruct Hc as [Hc|Hc];
            [apply Ascii.eqb_eq in Hc; subst c; reflexivity|]);
    discriminate Hc ].

(** Proves [Forall is_word] of a literal list. *)
Ltac literal_are_words :=
  repeat (apply Forall_cons; [literal_is_word|]); apply Forall_nil.

(** * Properties of the embedding *)

(** ** Strings *)

Lemma length_append (a b : string) :
  String.length (a ++ b) = String.length a + String.length b.
Proof. induction a as [|c a IH]; simpl; [reflexivity | now rewrite IH]. Qed.

Lemma append_assoc (a b c : string) : (a ++ b) ++ c = a ++ (b ++ c).
Proof. induction a as [|x a IH]; simpl; [reflexivity | now rewrite IH]. Qed.

Lemma append_empty_r (a : string) : a ++ "" = a.
Proof. induction a as [|x a IH]; simpl; [reflexivity | now rewrite IH]. Qed.

Lemma startswith_iff (s p : string) :
  startswith s p = true <-> exists suffix, s = p ++ suffix.
Proof.
  revert s; induction p as [|c p IH]; intros s.
  - split; [intros _; exists s; reflexivity | reflexivity].
  - destruct s as [|d s]; simpl.
    + split; [discriminate | intros [x Hx]; discriminate].
    + destruct (Ascii.eqb_spec c d) as [->|Hcd]; simpl.
      * rewrite IH. split; intros [x Hx]; exists x;
          [now rewrite Hx | now inversion Hx].
      * split; [discriminate | intros [x Hx]; inversion Hx; congruence].
Qed.

Lemma total_length_app (l1 l2 : list string) :
  total_length (l1 ++ l2)%list = total_length l1 + total_length l2.
Proof. induction l1 as [|s l1 IH]; simpl; [reflexivity | rewrite IH; lia]. Qed.

Lemma mem_In (x : string) (l : list string) : mem x l = true <-> In x l.
Proof.
  unfold mem. rewrite existsb_exists. split.
  - intros [y [Hy Heq]]. apply String.eqb_eq in Heq. now subst.
  - intros H. exists x. split; [assumption | apply String.eqb_refl].
Qed.

Lemma is_empty_true (s : string) : is_empty s = true <-> s = "".
Proof. destruct s; simpl; split; congruence. Qed.

(** ** The lexer never invents characters *)

Module ShlexFacts.
Import Shlex.

Lemma emit_length token quoted :
  total_length (emit token quoted) <= String.length token.
Proof. unfold emit. destruct (_ || _); simpl; lia. Qed.

Lemma from_space_weight c out st :
  from_space c = (out, st) -> total_length out + weight st <= 1.
Proof.
  unfold from_space.
  repeat match goal with
         | |- context [if ?b then _ else _] => destruct b
         end; intros H; inversion H; subst; simpl; lia.
Qed.

Lemma step_weight st c out st' :
  step st c = (out, st') -> total_length out + weight st' <= S (weight st).
Proof.
  destruct st as [|token quoted|token|q token|from token quoted|]; simpl.
  - intros H. apply from_space_weight in H. lia.
  - pose proof (emit_length token quoted) as He.
    destruct (is_whitespace c); [intros H; inversion H; subst; simpl; lia|].
    destruct (is_commenter c); [intros H; inversion H; subst; simpl; lia|].
    destruct (is_quote c); [intros H; inversion H; subst; simpl; lia|].
    destruct (is_escape c); [intros H; inversion H; subst; simpl; lia|].
    destruct (is_wordchar c).
    + intros H; inversion H; subst; simpl. rewrite length_append. simpl. lia.
    + destruct (from_space c) as [out0 st0] eqn:Hfs.
      apply from_space_weight in Hfs.
      intros H; inversion H; subst. rewrite total_length_app. lia.
  - pose proof (emit_length token false) as He.
    destruct (is_whitespace c); [intros H; inversion H; subst; simpl; lia|].
    destruct (is_commenter c); [intros H; inversion H; subst; simpl; lia|].
    destruct (is_punctuation c).
    + intros H; inversion H; subst; simpl. rewrite length_append. simpl. lia.
    + destruct (from_space c) as [out0 st0] eqn:Hfs.
      apply from_space_weight in Hfs.
      intros H; inversion H; subst. simpl. lia.
  - destruct (Ascii.eqb c q); [intros H; inversion H; subst; simpl; lia|].
    destruct (is_escape c && is_escapedquote q);
      intros H; inversion H; subst; simpl; [lia|].
    rewrite length_append. simpl. lia.
  - destruct from as [|q]; intros H; inversion H; subst; simpl.
    + rewrite length_append. simpl. lia.
    + destruct (negb _ && negb _); rewrite !length_append; simpl; lia.
  - destruct (Ascii.eqb c nl); intros H; inversion H; subst; simpl; lia.
Qed.

Lemma finish_weight st toks :
  finish st = inr toks -> total_length toks <= weight st.
Proof.
  destruct st as [|token quoted|token|q token|from token quoted|]; simpl;
    intros H; inversion H; subst; simpl; try lia; apply emit_length.
Qed.

Lemma run_weight input : forall st toks,
  run st input = inr toks ->
  total_length toks <= weight st + String.length input.
Proof.
  induction input as [|c rest IH]; intros st toks; simpl.
  - intros H. apply finish_weight in H. lia.
  - destruct (step st c) as [out st'] eqn:Hstep.
    destruct (run st' rest) as [e|toks'] eqn:Hrun; [discriminate|].
    intros H; inversion H; subst.
    apply step_weight in Hstep. apply IH in Hrun.
    rewrite total_length_app. lia.
Qed.

(** The tokens of a command have no more characters than the command. *)
Lemma tokens_length command toks :
  tokens command = inr toks -> total_length toks <= String.length command.
Proof. intros H. apply run_weight in H. simpl in H. exact H. Qed.

End ShlexFacts.

(** ** The recursive expander terminates *)

Lemma flush_In commands current c :
  In c (flush commands current) -> In c commands \/ c = current.
Proof.
  destruct current; simpl; [now left|].
  intros H. apply in_app_or in H. destruct H as [H|[H|[]]]; auto.
Qed.

(** A redirection consumes two tokens, hence the induction on a bound of
    the number of tokens. *)
Lemma split_commands_length_bounded n : forall tokens current commands c,
  List.length tokens <= n ->
  In c (split_commands tokens current commands) ->
  In c commands \/
  total_length c <= total_length current + total_length tokens.
Proof.
  induction n as [|n IH]; intros tokens current commands c Hn.
  - destruct tokens; [|simpl in Hn; lia]. simpl.
    intros H. apply flush_In in H. destruct H as [H| ->]; [now left|right; lia].
  - destruct tokens as [|token rest]; simpl.
    + intros H. apply flush_In in H.
      destruct H as [H| ->]; [now left|right; lia].
    + simpl in Hn.
      destruct (is_separator token).
      * intros H. apply IH in H; [|lia].
        destruct H as [H|H]; [|right; simpl in H; lia].
        apply flush_In in H. destruct H as [H| ->]; [now left|right; lia].
      * destruct (is_redirection token).
        -- destruct rest as [|target rest'].
           ++ intros H. simpl in H. apply flush_In in H.
              destruct H as [H| ->]; [now left|right].
              rewrite total_length_app. simpl. lia.
           ++ intros H. apply IH in H; [|simpl in Hn; lia].
              destruct H as [H|H]; [now left|right].
              rewrite total_length_app in H. simpl in *. lia.
        -- intros H. apply IH in H; [|lia].
           destruct H as [H|H]; [now left|right].
           rewrite total_length_app in H. simpl in H. lia.
Qed.

Lemma parse_command_tokens_length command commands c :
  parse_command_tokens command = Some commands ->
  In c commands ->
  total_length c <= String.length command.
Proof.
  unfold parse_command_tokens.
  destruct (Shlex.tokens command) as [e|toks] eqn:Htok; [discriminate|].
  intros H Hc. inversion H; subst.
  apply ShlexFacts.tokens_length in Htok.
  apply (split_commands_length_bounded (List.length toks)) in Hc; [|lia].
  destruct Hc as [[]|Hc]. simpl in Hc. lia.
Qed.

Lemma skip_wrapper_flags_length cmd rest : forall sub_start,
  total_length (skip_wrapper_flags cmd sub_start rest) <= total_length rest.
Proof.
  assert (H : forall n rest sub_start, List.length rest <= n ->
            total_length (skip_wrapper_flags cmd sub_start rest)
            <= total_length rest).
  { clear rest. induction n as [|n IH]; intros rest sub_start Hn.
    - destruct rest; [simpl; lia | simpl in Hn; lia].
    - destruct rest as [|token rest']; [simpl; lia|].
      cbn [skip_wrapper_flags total_length List.length] in *.
      destruct (startswith token "-").
      + destruct (_ && mem token _).
        * destruct rest' as [|t rest''];
            cbn [total_length List.length] in *; [lia|].
          specialize (IH rest'' (sub_start + 2)). lia.
        * destruct (_ && _);
            specialize (IH rest' (sub_start + 1)); lia.
      + destruct (_ && _).
        * specialize (IH rest' (sub_start + 1)); lia.
        * cbn [total_length]. lia. }
  intros sub_start. apply (H (List.length rest)). lia.
Qed.

Lemma find_dash_c_length rest arg :
  find_dash_c rest = Some arg -> String.length arg + 2 <= total_length rest.
Proof.
  induction rest as [|token rest' IH]; simpl; [discriminate|].
  destruct (String.eqb_spec token "-c") as [->|Hne].
  - destruct rest' as [|a rest'']; [simpl; discriminate|].
    intros H; inversion H; subst. simpl. lia.
  - intros H. apply IH in H. lia.
Qed.

Lemma collect_total {A} (f : A -> option (list string * list string)) l :
  (forall x, In x l -> exists r, f x = Some r) ->
  exists r, collect f l = Some r.
Proof.
  induction l as [|x l IH]; intros H; simpl; [eauto|].
  destruct (H x (or_introl eq_refl)) as [[p r] ->].
  destruct IH as [[p' r'] ->]; [intros y Hy; apply H; now right|]. eauto.
Qed.

Lemma collect_mono {A} (f g : A -> option (list string * list string)) l r :
  (forall x y, f x = Some y -> g x = Some y) ->
  collect f l = Some r -> collect g l = Some r.
Proof.
  intros Hfg. revert r. induction l as [|x l IH]; intros r; simpl; [auto|].
  destruct (f x) as [[p q]|] eqn:Hf; [|discriminate].
  destruct (collect f l) as [[p' q']|] eqn:Hc; [|discriminate].
  rewrite (Hfg _ _ Hf), (IH _ eq_refl). auto.
Qed.

Section ExpanderFacts.

Variable fs : FileSystem.
Variables cwd home : string.

Lemma extract_body_mono self1 self2 tokens r :
  (forall t y, self1 t = Some y -> self2 t = Some y) ->
  extract_body fs self1 tokens cwd home = Some r ->
  extract_body fs self2 tokens cwd home = Some r.
Proof.
  intros Hs. unfold extract_body.
  destruct tokens as [|head rest]; [auto|].
  destruct (mem _ WRAPPERS).
  - destruct (skip_wrapper_flags _ 1 rest); [auto|apply Hs].
  - destruct (mem _ SHELLS); [|auto].
    destruct (find_dash_c rest); [|auto].
    destruct (parse_command_tokens s); [|auto].
    apply collect_mono, Hs.
Qed.

Lemma extract_fuel_mono n : forall m tokens r,
  n <= m ->
  extract_fuel fs n cwd home tokens = Some r ->
  extract_fuel fs m cwd home tokens = Some r.
Proof.
  induction n as [|n IH]; intros m tokens r Hle; simpl; [discriminate|].
  destruct m as [|m]; [lia|]. simpl.
  apply extract_body_mono. intros t y. apply IH. lia.
Qed.

Lemma head_of_named_not_empty head names :
  mem (PosixPath.basename head) names = true ->
  ~ In "" names -> 1 <= String.length head.
Proof.
  intros Hm Hn. destruct head; [|simpl; lia].
  apply mem_In in Hm. simpl in Hm. contradiction.
Qed.

Lemma extract_fuel_enough fuel : forall tokens,
  total_length tokens < fuel ->
  exists r, extract_fuel fs fuel cwd home tokens = Some r.
Proof.
  induction fuel as [|fuel IH]; intros tokens Hlt; [lia|].
  simpl. unfold extract_body.
  destruct tokens as [|head rest]; [eauto|].
  simpl in Hlt.
  destruct (mem _ WRAPPERS) eqn:Hw.
  - pose proof (skip_wrapper_flags_length (PosixPath.basename head) rest 1).
    apply head_of_named_not_empty in Hw;
      [|simpl; intuition discriminate].
    destruct (skip_wrapper_flags _ 1 rest) eqn:Hs; [eauto|].
    apply IH. lia.
  - destruct (mem _ SHELLS); [|].
    + destruct (find_dash_c rest) as [arg|] eqn:Hc; [|eauto].
      apply find_dash_c_length in Hc.
      destruct (parse_command_tokens arg) as [nested|] eqn:Hp; [|eauto].
      apply collect_total. intros c Hin. apply IH.
      pose proof (parse_command_tokens_length _ _ _ Hp Hin). lia.
    + destruct (_ =? "xargs"); [eauto|].
      destruct (_ =? "find"); [eauto|].
      destruct (negb _ && negb _); eauto.
Qed.

(** The bounded recursion agrees with [extract_rm_targets] as soon as
    it finishes. *)
Lemma extract_fuel_result fuel tokens r :
  extract_fuel fs fuel cwd home tokens = Some r ->
  extract_rm_targets fs tokens cwd home = r.
Proof.
  intros H. unfold extract_rm_targets.
  destruct (extract_fuel_enough (S (total_length tokens)) tokens)
    as [r' Hr']; [lia|].
  rewrite Hr'.
  assert (H1 : fuel <= fuel + S (total_length tokens)) by lia.
  assert (H2 : S (total_length tokens) <= fuel + S (total_length tokens))
    by lia.
  apply (extract_fuel_mono _ _ _ _ H1) in H.
  apply (extract_fuel_mono _ _ _ _ H2) in Hr'.
  congruence.
Qed.

(** [extract_rm_targets] satisfies the recursive equation of the source
    function. *)
Lemma extract_rm_targets_unfold tokens :
  extract_body fs (fun t => Some (extract_rm_targets fs t cwd home))
               tokens cwd home
  = Some (extract_rm_targets fs tokens cwd home).
Proof.
  destruct (extract_fuel_enough (S (total_length tokens)) tokens)
    as [r Hr]; [lia|].
  rewrite (extract_fuel_result _ _ _ Hr).
  simpl in Hr. revert Hr. apply extract_body_mono.
  intros t y Hy. f_equal. eapply extract_fuel_result, Hy.
Qed.

End ExpanderFacts.

(** ** Containment *)

Lemma is_path_within_directory_iff path directory :
  is_path_within_directory path directory = true <->
  inside_or_equal path directory.
Proof.
  unfold is_path_within_directory, inside_or_equal.
  destruct (String.eqb_spec (PosixPath.normpath path)
                            (PosixPath.normpath directory)) as [Heq|Hne].
  - split; auto.
  - rewrite startswith_iff. split.
    + intros [rest Hr]. right. exists rest. now rewrite append_assoc in Hr.
    + intros [H|[rest Hr]]; [contradiction|].
      exists rest. now rewrite append_assoc.
Qed.

Lemma is_path_within_directory_false path directory :
  is_path_within_directory path directory = false <->
  ~ inside_or_equal path directory.
Proof.
  rewrite <- is_path_within_directory_iff.
  destruct (is_path_within_directory path directory); split; congruence.
Qed.

(** [find] returns the first element that fails the containment test. *)
Lemma find_outside_None paths abs_cwd :
  find (fun path => negb (is_path_within_directory path abs_cwd)) paths = None
  <-> forall path, In path paths -> inside_or_equal path abs_cwd.
Proof.
  induction paths as [|p paths IH]; simpl.
  - split; [intros _ ? []|reflexivity].
  - destruct (is_path_within_directory p abs_cwd) eqn:Hp; simpl.
    + rewrite IH. apply is_path_within_directory_iff in Hp.
      split; [intros H q [<-|Hq]; auto | intros H q Hq; apply H; now right].
    + apply is_path_within_directory_false in Hp.
      split; [discriminate | intros H; exfalso; apply Hp, H; now left].
Qed.

Lemma find_outside_first before path after abs_cwd :
  (forall p, In p before -> inside_or_equal p abs_cwd) ->
  ~ inside_or_equal path abs_cwd ->
  find (fun path => negb (is_path_within_directory path abs_cwd))
       (before ++ path :: after)%list = Some path.
Proof.
  intros Hb Hp. induction before as [|b before IH]; simpl.
  - apply is_path_within_directory_false in Hp. now rewrite Hp.
  - assert (Hin : is_path_within_directory b abs_cwd = true)
      by (apply is_path_within_directory_iff, Hb; now left).
    rewrite Hin. simpl. apply IH. intros p Hp'. apply Hb. now right.
Qed.

Lemma find_outside_Some paths abs_cwd path :
  find (fun path => negb (is_path_within_directory path abs_cwd)) paths
  = Some path ->
  In path paths /\ ~ inside_or_equal path abs_cwd.
Proof.
  intros H. apply find_some in H. destruct H as [Hin Hn]. split; [assumption|].
  apply is_path_within_directory_false.
  now destruct (is_path_within_directory path abs_cwd).
Qed.

(** ** The decision engine, case by case *)

Lemma find_outside_split paths abs_cwd path :
  find (fun path => negb (is_path_within_directory path abs_cwd)) paths
  = Some path ->
  exists before after,
    paths = (before ++ path :: after)%list /\
    (forall p, In p before -> inside_or_equal p abs_cwd) /\
    ~ inside_or_equal path abs_cwd.
Proof.
  induction paths as [|p paths IH]; [discriminate|].
  cbn [find]. destruct (is_path_within_directory p abs_cwd) eqn:Hp.
  - cbn [negb]. intros H. destruct (IH H) as (before & after & -> & Hb & Hn).
    exists (p :: before), after. split; [reflexivity|]. split; [|exact Hn].
    intros q [<-|Hq]; [now apply is_path_within_directory_iff|now apply Hb].
  - cbn [negb]. intros H. inversion H; subst.
    exists [], paths. split; [reflexivity|]. split; [intros q []|].
    now apply is_path_within_directory_false.
Qed.

(** A text occurs in a message exactly when the literal search finds
    it. *)
Lemma cites_search message text :
  cites message text <-> Re.search (Re.lit text) message = true.
Proof.
  unfold cites, Re.lit. split.
  - intros (before & after & ->). induction before as [|c before IH].
    + cbn [append]. destruct (text ++ after) eqn:He; cbn [Re.search];
        apply orb_true_iff; left; apply startswith_iff;
        exists after; now rewrite He.
    + cbn [append Re.search]. rewrite IH. apply orb_true_r.
  - induction message as [|c message IH]; cbn [Re.search]; intros H;
      apply orb_true_iff in H; destruct H as [H|H].
    + apply startswith_iff in H. destruct H as [suffix H].
      exists "", suffix. exact H.
    + discriminate H.
    + apply startswith_iff in H. destruct H as [suffix H].
      exists "", suffix. exact H.
    + destruct (IH H) as (before & after & ->).
      exists (String c before), after. reflexivity.
Qed.

Lemma check_command_cases fs command cwd home abs_cwd commands paths reasons :
  parse_command_tokens command = Some commands ->
  accumulate fs commands cwd home = (paths, reasons) ->
  check_command fs command cwd home abs_cwd =
    match reasons with
    | _ :: _ => Some (unresolvable_message reasons command abs_cwd)
    | [] =>
        match find (fun path => negb (is_path_within_directory path abs_cwd))
                   paths with
        | Some path => Some (outside_message path abs_cwd command)
        | None => None
        end
    end.
Proof. intros Hp Ha. unfold check_command. now rewrite Hp, Ha. Qed.

(** C1 as amended: with no unresolvable reason, the verdict is allow
    exactly when every accumulated resolved path is the normalized working
    directory or lies under it; otherwise the verdict is the block
    diagnostic, and the one path it names is the first accumulated path
    that fails the test, whatever the later paths are. *)
Theorem C1_containment_decides fs command cwd home abs_cwd commands paths :
  parse_command_tokens command = Some commands ->
  accumulate fs commands cwd home = (paths, []) ->
  (check_command fs command cwd home abs_cwd = None <->
   forall path, In path paths -> inside_or_equal path abs_cwd) /\
  (forall before path after,
      paths = (before ++ path :: after)%list ->
      (forall p, In p before -> inside_or_equal p abs_cwd) ->
      ~ inside_or_equal path abs_cwd ->
      check_command fs command cwd home abs_cwd
      = Some (outside_message path abs_cwd command)) /\
  ((exists path, In path paths /\ ~ inside_or_equal path abs_cwd) ->
   exists before path after,
     paths = (before ++ path :: after)%list /\
     (forall p, In p before -> inside_or_equal p abs_cwd) /\
     ~ inside_or_equal path abs_cwd /\
     check_command fs command cwd home abs_cwd
     = Some (outside_message path abs_cwd command) /\
     cites (outside_message path abs_cwd command) path).
Proof.
  intros Hp Ha.
  rewrite (check_command_cases _ _ _ _ abs_cwd _ _ _ Hp Ha).
  split; [|split].
  - rewrite <- find_outside_None.
    destruct (find _ paths); split; congruence.
  - intros before path after -> Hb Hn.
    now rewrite (find_outside_first _ _ _ _ Hb Hn).
  - intros [bad [Hin Hbad]].
    destruct (find (fun path => negb (is_path_within_directory path abs_cwd))
                   paths) as [path|] eqn:Hf.
    + apply find_outside_split in Hf.
      destruct Hf as (before & after & Hsplit & Hb & Hn).
      exists before, path, after. repeat split; auto.
      unfold cites, outside_message.
      exists ("BLOCKED: rm targets path outside working directory"
                ++ chr nl ++ "  Target: ").
      exists (chr nl ++ "  Working directory: " ++ abs_cwd ++ chr nl
                ++ "  Command: " ++ command).
      now rewrite !append_assoc.
    + exfalso. apply Hbad. now apply (proj1 (find_outside_None paths abs_cwd)).
Qed.

(** The worked example of the specification: [rm ./notes.txt] issued from
    [/home/u/project] resolves to [/home/u/project/notes.txt] and is
    allowed. *)
Lemma C1_containment_decides_witness :
  parse_command_tokens "rm ./notes.txt" = Some [["rm"; "./notes.txt"]] /\
  accumulate plain_fs [["rm"; "./notes.txt"]] "/home/u/project" "/home/u"
  = (["/home/u/project/notes.txt"], []) /\
  check_command plain_fs "rm ./notes.txt" "/home/u/project" "/home/u"
                "/home/u/project" = None.
Proof.
  assert (Hp : parse_command_tokens "rm ./notes.txt"
               = Some [["rm"; "./notes.txt"]]) by reflexivity.
  assert (Ha : accumulate plain_fs [["rm"; "./notes.txt"]]
                          "/home/u/project" "/home/u"
               = (["/home/u/project/notes.txt"], [])) by reflexivity.
  split; [exact Hp|]. split; [exact Ha|].
  apply (proj1 (C1_containment_decides plain_fs _ _ _ "/home/u/project"
                  _ _ Hp Ha)).
  intros path [<-|[]]. right. exists "notes.txt". reflexivity.
Defined.

(** C1 as stated fails: [rm ../a ../b] issued from [/home/u/project]
    has two targets outside the working directory, and the diagnostic
    names the first of them only. *)
Lemma C1_counterexample :
  let command := "rm ../a ../b" in
  let message := outside_message "/home/u/a" "/home/u/project" command in
  parse_command_tokens command = Some [["rm"; "../a"; "../b"]] /\
  accumulate plain_fs [["rm"; "../a"; "../b"]] "/home/u/project" "/home/u"
  = (["/home/u/a"; "/home/u/b"], []) /\
  ~ inside_or_equal "/home/u/a" "/home/u/project" /\
  ~ inside_or_equal "/home/u/b" "/home/u/project" /\
  check_command plain_fs command "/home/u/project" "/home/u"
                "/home/u/project" = Some message /\
  cites message "/home/u/a" /\
  ~ cites message "/home/u/b".
Proof.
  cbv zeta.
  split; [reflexivity|]. split; [reflexivity|].
  split; [now apply is_path_within_directory_false|].
  split; [now apply is_path_within_directory_false|].
  split; [reflexivity|]. split.
  - apply cites_search. reflexivity.
  - intros H. apply cites_search in H. discriminate H.
Qed.

(** ** Commands outside both tracked sets are inert *)

Lemma not_executor cmd :
  mem cmd COMMAND_EXECUTORS = false ->
  mem cmd WRAPPERS = false /\ mem cmd SHELLS = false /\
  (cmd =? "xargs") = false /\ (cmd =? "find") = false.
Proof.
  unfold mem, COMMAND_EXECUTORS, WRAPPERS, SHELLS. cbn [existsb].
  intros H. split_orb_false.
  repeat match goal with H : (cmd =? _) = false |- _ => rewrite H; clear H end.
  auto.
Qed.

Lemma not_dangerous cmd :
  mem cmd DANGEROUS_COMMANDS = false -> (cmd =? "rm") = false.
Proof.
  unfold mem, DANGEROUS_COMMANDS. cbn [existsb].
  intros H. split_orb_false. assumption.
Qed.

Section BranchFacts.

Variable fs : FileSystem.
Variables cwd home : string.

Lemma extract_nil : extract_rm_targets fs [] cwd home = ([], []).
Proof.
  pose proof (extract_rm_targets_unfold fs cwd home []) as E.
  simpl in E. congruence.
Qed.

Lemma extract_untracked tokens :
  is_tracked tokens = false ->
  extract_rm_targets fs tokens cwd home = ([], []).
Proof.
  destruct tokens as [|head rest]; [intros _; apply extract_nil|].
  cbn [is_tracked]. intros H. split_orb_false.
  pose proof (extract_rm_targets_unfold fs cwd home (head :: rest)) as E.
  unfold extract_body in E.
  destruct (not_executor _ H0) as (Hw & Hs & Hx & Hf).
  rewrite Hw, Hs, Hx, Hf, H, (not_dangerous _ H) in E.
  simpl in E. congruence.
Qed.

(** The classifier of [check_command] filters nothing the expander
    would report. *)
Lemma accumulate_cons cmd_tokens rest :
  accumulate fs (cmd_tokens :: rest) cwd home =
    ((fst (extract_rm_targets fs cmd_tokens cwd home)
        ++ fst (accumulate fs rest cwd home))%list,
     (snd (extract_rm_targets fs cmd_tokens cwd home)
        ++ snd (accumulate fs rest cwd home))%list).
Proof.
  cbn [accumulate].
  destruct (is_tracked cmd_tokens) eqn:Ht.
  - destruct (extract_rm_targets fs cmd_tokens cwd home).
    now destruct (accumulate fs rest cwd home).
  - rewrite (extract_untracked _ Ht).
    now destruct (accumulate fs rest cwd home).
Qed.

Lemma accumulate_reasons commands cmd_tokens reason :
  In cmd_tokens commands ->
  In reason (snd (extract_rm_targets fs cmd_tokens cwd home)) ->
  In reason (snd (accumulate fs commands cwd home)).
Proof.
  induction commands as [|c commands IH]; [intros []|].
  intros [<-|Hin] Hr; rewrite accumulate_cons; cbn [snd];
    apply in_or_app; auto.
Qed.

End BranchFacts.

(** ** Diagnostics *)

Lemma cites_refl text : cites text text.
Proof. exists "", "". simpl. now rewrite append_empty_r. Qed.

Lemma cites_join sep parts text :
  In text parts -> cites (Py.join sep parts) text.
Proof.
  unfold Py.join.
  induction parts as [|p parts IH]; [intros []|].
  intros [->|Hin].
  - destruct parts as [|q parts]; simpl; [apply cites_refl|].
    exists "", (sep ++ concat sep (q :: parts)). reflexivity.
  - destruct parts as [|q parts]; [destruct Hin|].
    change (concat sep (p :: q :: parts))
      with (p ++ sep ++ concat sep (q :: parts)).
    destruct (IH Hin) as [x [y Hxy]]. rewrite Hxy.
    exists (p ++ sep ++ x), y. now rewrite !append_assoc.
Qed.

Lemma unresolvable_message_cites reasons command abs_cwd reason :
  In reason reasons ->
  cites (unresolvable_message reasons command abs_cwd) reason.
Proof.
  intros Hin. unfold unresolvable_message.
  apply (cites_join (chr nl ++ "  - ") reasons reason) in Hin.
  destruct Hin as [x [y Hxy]]. rewrite Hxy.
  exists ("BLOCKED: Command contains rm with unresolvable paths (safety block)"
            ++ chr nl ++ "  Reasons:" ++ chr nl ++ "  - " ++ x).
  exists (y ++ chr nl ++ "  Command: " ++ command ++ chr nl
            ++ "  Working directory: " ++ abs_cwd).
  now rewrite !append_assoc.
Qed.

(** C2: as soon as the analysis of one simple command yields an
    unresolvable reason, the verdict is the block diagnostic built from
    all the accumulated reasons, whatever the resolved paths are; every
    reason of every simple command is among them and occurs in the
    diagnostic. *)
Theorem C2_unresolvable_blocks fs command cwd home abs_cwd commands :
  parse_command_tokens command = Some commands ->
  (exists cmd_tokens,
      In cmd_tokens commands /\
      snd (extract_rm_targets fs cmd_tokens cwd home) <> []) ->
  let reasons := snd (accumulate fs commands cwd home) in
  let message := unresolvable_message reasons command abs_cwd in
  check_command fs command cwd home abs_cwd = Some message /\
  forall cmd_tokens reason,
    In cmd_tokens commands ->
    In reason (snd (extract_rm_targets fs cmd_tokens cwd home)) ->
    In reason reasons /\ cites message reason.
Proof.
  intros Hp [bad [Hin Hbad]] reasons message.
  assert (Hall : forall cmd_tokens reason,
             In cmd_tokens commands ->
             In reason (snd (extract_rm_targets fs cmd_tokens cwd home)) ->
             In reason reasons)
    by (intros; eapply accumulate_reasons; eauto).
  split.
  - destruct (accumulate fs commands cwd home) as [paths rs] eqn:Ha.
    rewrite (check_command_cases _ _ _ _ abs_cwd _ _ _ Hp Ha).
    subst message reasons. cbn [snd] in *.
    destruct rs as [|r rs]; [|reflexivity].
    destruct (snd (extract_rm_targets fs bad cwd home)) as [|r0 l] eqn:Hs;
      [congruence|].
    destruct (Hall bad r0 Hin); rewrite Hs; now left.
  - intros cmd_tokens reason Hc Hr. split; [eauto|].
    apply unresolvable_message_cites. eauto.
Qed.

(** [echo hi | xargs rm]: the reason about stream-sourced paths is the
    one cited, and the verdict is block. *)
Lemma C2_unresolvable_blocks_witness :
  parse_command_tokens "echo hi | xargs rm"
  = Some [["echo"; "hi"]; ["xargs"; "rm"]] /\
  snd (extract_rm_targets plain_fs ["xargs"; "rm"] "/home/u/project" "/home/u")
  = ["xargs with rm - paths come from stdin"] /\
  check_command plain_fs "echo hi | xargs rm" "/home/u/project" "/home/u"
                "/home/u/project"
  = Some (unresolvable_message ["xargs with rm - paths come from stdin"]
            "echo hi | xargs rm" "/home/u/project").
Proof.
  assert (Hp : parse_command_tokens "echo hi | xargs rm"
               = Some [["echo"; "hi"]; ["xargs"; "rm"]]) by reflexivity.
  split; [exact Hp|]. split; [reflexivity|].
  refine (proj1 (C2_unresolvable_blocks plain_fs _ "/home/u/project"
                   "/home/u" "/home/u/project" _ Hp _)).
  exists ["xargs"; "rm"]. split; [right; left; reflexivity|].
  intros H. discriminate H.
Defined.

(** ** Path resolver *)

Lemma free_of_patterns_existsb path :
  free_of_patterns path ->
  existsb (fun pattern => Re.search pattern path) UNRESOLVABLE_PATTERNS
  = false.
Proof.
  unfold free_of_patterns. induction 1 as [|p l Hp _ IH]; simpl;
    [reflexivity | now rewrite Hp, IH].
Qed.

(** ** Executors without a branch of their own *)

(** C10: a simple command headed by [parallel] or [watch] yields no
    resolved path and no reason, so a line made of that command alone is
    allowed, whatever its arguments name. *)
Theorem C10_parallel_watch_inert fs head rest cwd home :
  In (PosixPath.basename head) ["parallel"; "watch"] ->
  extract_rm_targets fs (head :: rest) cwd home = ([], []) /\
  forall command abs_cwd,
    parse_command_tokens command = Some [head :: rest] ->
    check_command fs command cwd home abs_cwd = None.
Proof.
  intros Hin.
  assert (He : extract_rm_targets fs (head :: rest) cwd home = ([], [])).
  { pose proof (extract_rm_targets_unfold fs cwd home (head :: rest)) as E.
    unfold extract_body in E.
    destruct Hin as [Hb|[Hb|[]]]; rewrite <- Hb in E; simpl in E; congruence. }
  split; [exact He|].
  intros command abs_cwd Hp.
  assert (Ha : accumulate fs [head :: rest] cwd home = ([], []))
    by (rewrite accumulate_cons, He; reflexivity).
  rewrite (check_command_cases _ _ _ _ abs_cwd _ _ _ Hp Ha). reflexivity.
Qed.

(** [watch rm -rf /etc] is allowed from [/home/u/project]. *)
Lemma C10_parallel_watch_inert_witness :
  In (PosixPath.basename "watch") ["parallel"; "watch"] /\
  parse_command_tokens "watch rm -rf /etc"
  = Some [["watch"; "rm"; "-rf"; "/etc"]] /\
  check_command plain_fs "watch rm -rf /etc" "/home/u/project" "/home/u"
                "/home/u/project" = None.
Proof.
  assert (Hin : In (PosixPath.basename "watch") ["parallel"; "watch"])
    by (right; left; reflexivity).
  split; [exact Hin|]. split; [reflexivity|].
  apply (proj2 (C10_parallel_watch_inert plain_fs "watch"
                  ["rm"; "-rf"; "/etc"] "/home/u/project" "/home/u" Hin)).
  reflexivity.
Defined.

(** ** The quick check of [main] *)

Lemma has_dangerous_false command :
  (forall name,
      In name (DANGEROUS_COMMANDS ++ COMMAND_EXECUTORS)%list ->
      Re.search_word name command = false) ->
  has_dangerous command = false.
Proof.
  intros H. unfold has_dangerous. apply orb_false_iff.
  split; apply not_true_is_false; intros He; apply existsb_exists in He;
    destruct He as [name [Hin Hs]];
    rewrite H in Hs; try discriminate; apply in_or_app; auto.
Qed.

(** C9 as amended: a Bash request with a valid working directory whose
    raw command holds no tracked name between word boundaries exits with
    status 0, whatever tokenization and analysis would have found. *)
Theorem C9_quick_check_allows fs home request abs_cwd :
  tool_name request = "Bash" ->
  valid_cwd fs request abs_cwd ->
  (forall name,
      In name (DANGEROUS_COMMANDS ++ COMMAND_EXECUTORS)%list ->
      Re.search_word name (command request) = false) ->
  main fs home request = allow.
Proof.
  intros Ht (Hc & Hd & Hr) Hq. unfold main.
  rewrite Ht, Hd, Hr, (has_dangerous_false _ Hq). simpl.
  destruct (is_empty (command request)); [reflexivity|].
  destruct (is_empty (cwd request)) eqn:He; [|reflexivity].
  apply is_empty_true in He. contradiction.
Qed.

(** The escaped spelling [r\m -rf /etc] holds no tracked name, is allowed,
    and yet tokenizes to [rm -rf /etc], which the analysis would block. *)
Lemma C9_quick_check_allows_witness :
  tool_name (bash_request "r\m -rf /etc") = "Bash" /\
  valid_cwd plain_fs (bash_request "r\m -rf /etc") "/home/u/project" /\
  (forall name,
      In name (DANGEROUS_COMMANDS ++ COMMAND_EXECUTORS)%list ->
      Re.search_word name "r\m -rf /etc" = false) /\
  main plain_fs "/home/u" (bash_request "r\m -rf /etc") = allow /\
  parse_command_tokens "r\m -rf /etc" = Some [["rm"; "-rf"; "/etc"]] /\
  check_command plain_fs "r\m -rf /etc" "/home/u/project" "/home/u"
                "/home/u/project"
  = Some (outside_message "/etc" "/home/u/project" "r\m -rf /etc").
Proof.
  assert (Hv : valid_cwd plain_fs (bash_request "r\m -rf /etc")
                         "/home/u/project")
    by (repeat split; discriminate).
  assert (Hq : forall name,
             In name (DANGEROUS_COMMANDS ++ COMMAND_EXECUTORS)%list ->
             Re.search_word name "r\m -rf /etc" = false).
  { intros name Hin. simpl in Hin.
    repeat (destruct Hin as [<-|Hin]; [reflexivity|]). destruct Hin. }
  split; [reflexivity|]. split; [exact Hv|]. split; [exact Hq|].
  split; [|split; reflexivity].
  exact (C9_quick_check_allows plain_fs "/home/u"
           (bash_request "r\m -rf /etc") "/home/u/project" eq_refl Hv Hq).
Defined.

(** C9 as stated fails: the working directory is validated before the
    quick check, so a Bash request without a working directory is blocked
    although its command holds no tracked name. *)
Lemma C9_counterexample :
  let request := {| tool_name := "Bash"; command := "ls"; cwd := "" |} in
  tool_name request = "Bash" /\
  (forall name,
      In name (DANGEROUS_COMMANDS ++ COMMAND_EXECUTORS)%list ->
      Re.search_word name (command request) = false) /\
  main plain_fs "/home/u" request
  = block "ERROR: Invalid or missing working directory: ".
Proof.
  split; [reflexivity|]. split; [|reflexivity].
  intros name Hin. simpl in Hin.
  repeat (destruct Hin as [<-|Hin]; [reflexivity|]). destruct Hin.
Qed.

(** ** Branches of the recursive expander *)

Lemma shell_name cmd :
  In cmd SHELLS -> mem cmd WRAPPERS = false /\ mem cmd SHELLS = true.
Proof.
  intros H. simpl in H.
  repeat (destruct H as [<-|H]; [split; reflexivity|]). destruct H.
Qed.

Lemma wrapper_name cmd : In cmd WRAPPERS -> mem cmd WRAPPERS = true.
Proof. apply mem_In. Qed.

Lemma deletion_name cmd :
  is_deletion cmd = true ->
  mem cmd WRAPPERS = false /\ mem cmd SHELLS = false /\
  (cmd =? "xargs") = false /\ (cmd =? "find") = false /\
  negb (mem cmd DANGEROUS_COMMANDS) && negb (cmd =? "rm") = false.
Proof.
  unfold is_deletion. intros H. apply orb_true_iff in H.
  assert (Hin : In cmd ("rm" :: DANGEROUS_COMMANDS)).
  { destruct H as [H|H]; [right; now apply mem_In|left].
    symmetry. now apply String.eqb_eq. }
  simpl in Hin.
  repeat (destruct Hin as [<-|Hin]; [repeat split; reflexivity|]).
  destruct Hin.
Qed.

Lemma find_dash_c_found before arg after :
  ~ In "-c" before ->
  find_dash_c (before ++ "-c" :: arg :: after)%list = Some arg.
Proof.
  induction before as [|token before IH]; intros Hn; [reflexivity|].
  cbn [app find_dash_c].
  destruct (String.eqb_spec token "-c") as [->|_];
    [exfalso; apply Hn; now left|].
  apply IH. intros H. apply Hn. now right.
Qed.

Lemma find_dash_c_none rest :
  ~ In "-c" (removelast rest) -> find_dash_c rest = None.
Proof.
  induction rest as [|token rest IH]; [reflexivity|].
  destruct rest as [|next rest']; intros Hn.
  - cbn [find_dash_c]. now destruct (token =? "-c").
  - change (removelast (token :: next :: rest'))
      with (token :: removelast (next :: rest')) in Hn.
    cbn [find_dash_c].
    destruct (String.eqb_spec token "-c") as [->|_];
      [exfalso; apply Hn; now left|].
    apply IH. intros H. apply Hn. now right.
Qed.

Section BranchEquations.

Variable fs : FileSystem.
Variables cwd home : string.

Lemma collect_accumulate commands :
  collect (fun t => Some (extract_rm_targets fs t cwd home)) commands
  = Some (accumulate fs commands cwd home).
Proof.
  induction commands as [|c commands IH]; [reflexivity|].
  cbn [collect]. rewrite IH, accumulate_cons.
  destruct (extract_rm_targets fs c cwd home).
  now destruct (accumulate fs commands cwd home).
Qed.

(** The wrapper branch: the recursion restarts on what the flag loop
    leaves. *)
Lemma extract_wrapper head rest :
  In (PosixPath.basename head) WRAPPERS ->
  extract_rm_targets fs (head :: rest) cwd home =
    match skip_wrapper_flags (PosixPath.basename head) 1 rest with
    | [] => ([], [])
    | sub => extract_rm_targets fs sub cwd home
    end.
Proof.
  intros Hw. apply wrapper_name in Hw.
  pose proof (extract_rm_targets_unfold fs cwd home (head :: rest)) as E.
  unfold extract_body in E. rewrite Hw in E.
  destruct (skip_wrapper_flags _ 1 rest); congruence.
Qed.

(** The shell branch. *)
Lemma extract_shell head rest :
  In (PosixPath.basename head) SHELLS ->
  extract_rm_targets fs (head :: rest) cwd home =
    match find_dash_c rest with
    | Some arg =>
        match parse_command_tokens arg with
        | None =>
            ([], ["Malformed nested command in "
                    ++ PosixPath.basename head ++ " -c"])
        | Some nested_commands => accumulate fs nested_commands cwd home
        end
    | None => ([], [])
    end.
Proof.
  intros Hs. destruct (shell_name _ Hs) as [Hw Hsh].
  pose proof (extract_rm_targets_unfold fs cwd home (head :: rest)) as E.
  unfold extract_body in E. rewrite Hw, Hsh in E.
  destruct (find_dash_c rest) as [arg|]; [|congruence].
  destruct (parse_command_tokens arg) as [nested|]; [|congruence].
  rewrite collect_accumulate in E. congruence.
Qed.

(** The xargs branch. *)
Lemma extract_xargs head rest :
  PosixPath.basename head = "xargs" ->
  extract_rm_targets fs (head :: rest) cwd home = ([], xargs_reasons rest).
Proof.
  intros Hx.
  pose proof (extract_rm_targets_unfold fs cwd home (head :: rest)) as E.
  unfold extract_body in E. rewrite Hx in E. simpl in E. congruence.
Qed.

(** The deletion branch: every token after the option prefix is
    resolved. *)
Lemma extract_deletion head rest :
  is_deletion (PosixPath.basename head) = true ->
  extract_rm_targets fs (head :: rest) cwd home
  = resolve_all fs (skip_rm_options rest) cwd home.
Proof.
  intros Hd. destruct (deletion_name _ Hd) as (Hw & Hs & Hx & Hf & Hn).
  pose proof (extract_rm_targets_unfold fs cwd home (head :: rest)) as E.
  unfold extract_body in E. rewrite Hw, Hs, Hx, Hf, Hn in E. congruence.
Qed.

(** Each path argument either resolves or leaves its reason. *)
Lemma resolve_all_reason args arg :
  In arg args ->
  resolve_path fs arg cwd home = None ->
  In ("Unresolvable path: " ++ arg) (snd (resolve_all fs args cwd home)).
Proof.
  induction args as [|a args IH]; [intros []|].
  intros [->|Hin] Hnone; cbn [resolve_all];
    destruct (resolve_all fs args cwd home) as [paths reasons].
  - rewrite Hnone. now left.
  - specialize (IH Hin Hnone).
    destruct (resolve_path fs a cwd home); [exact IH | now right].
Qed.

End BranchEquations.

(** ** Nested shells *)

Lemma normpath_not_empty path : PosixPath.normpath path <> "".
Proof.
  unfold PosixPath.normpath.
  destruct (is_empty path); [discriminate|].
  match goal with
  | |- (if is_empty ?r then _ else _) <> _ =>
      destruct (is_empty r) eqn:He; [discriminate|]
  end.
  intros H. rewrite H in He. discriminate He.
Qed.

Lemma contains_char_append c a b :
  contains_char c (a ++ b) = contains_char c a || contains_char c b.
Proof.
  induction a as [|d a IH]; simpl; [reflexivity|].
  now rewrite IH, orb_assoc.
Qed.

(** [/etc] lies under no normalized directory and equals only itself. *)
Lemma etc_outside abs_cwd :
  PosixPath.normpath abs_cwd <> "/etc" ->
  is_path_within_directory "/etc" abs_cwd = false.
Proof.
  intros Hne. apply is_path_within_directory_false.
  unfold inside_or_equal.
  change (PosixPath.normpath "/etc") with "/etc".
  intros [H|[rest H]]; [congruence|].
  pose proof (normpath_not_empty abs_cwd) as Hn.
  destruct (PosixPath.normpath abs_cwd) as [|c d]; [congruence|].
  simpl in H. inversion H as [[Hc Hd]].
  assert (Hs : contains_char "/" "etc" = true).
  { rewrite Hd, contains_char_append. simpl. apply orb_true_r. }
  discriminate Hs.
Qed.

(** C7 as amended: for a shell interpreter whose first [-c] has a
    following token, that token is tokenized as a command line of its own
    and the whole analysis runs over it (a malformed string leaves a
    reason); an interpreter with no [-c] followed by a token yields no
    path and no reason; and [bash -c "rm -rf /etc"] is blocked with
    target [/etc] for every working directory other than [/etc] itself,
    provided [/etc] is its own real path. *)
Theorem C7_shell_dash_c fs cwd home :
  (forall head before arg after,
      In (PosixPath.basename head) SHELLS ->
      ~ In "-c" before ->
      extract_rm_targets fs (head :: before ++ "-c" :: arg :: after) cwd home
      = match parse_command_tokens arg with
        | None =>
            ([], ["Malformed nested command in "
                    ++ PosixPath.basename head ++ " -c"])
        | Some nested_commands => accumulate fs nested_commands cwd home
        end) /\
  (forall head rest,
      In (PosixPath.basename head) SHELLS ->
      ~ In "-c" (removelast rest) ->
      extract_rm_targets fs (head :: rest) cwd home = ([], [])) /\
  (forall abs_cwd,
      real_if_exists fs "/etc" = "/etc" ->
      PosixPath.normpath abs_cwd <> "/etc" ->
      check_command fs bash_c_rm_etc cwd home abs_cwd
      = Some (outside_message "/etc" abs_cwd bash_c_rm_etc)).
Proof.
  split; [|split].
  - intros head before arg after Hs Hn.
    rewrite (extract_shell fs cwd home _ _ Hs).
    now rewrite (find_dash_c_found _ _ _ Hn).
  - intros head rest Hs Hn.
    now rewrite (extract_shell fs cwd home _ _ Hs), (find_dash_c_none _ Hn).
  - intros abs_cwd Hreal Hne.
    assert (Hp : parse_command_tokens bash_c_rm_etc
                 = Some [["bash"; "-c"; "rm -rf /etc"]]) by reflexivity.
    assert (Ha : accumulate fs [["bash"; "-c"; "rm -rf /etc"]] cwd home
                 = (["/etc"], [])).
    { rewrite accumulate_cons.
      rewrite (extract_shell fs cwd home "bash" ["-c"; "rm -rf /etc"])
        by (simpl; auto).
      cbn [find_dash_c String.eqb Ascii.eqb Bool.eqb].
      change (parse_command_tokens "rm -rf /etc")
        with (Some [["rm"; "-rf"; "/etc"]]).
      cbv beta iota. rewrite accumulate_cons.
      rewrite (extract_deletion fs cwd home "rm" ["-rf"; "/etc"])
        by reflexivity.
      change (skip_rm_options ["-rf"; "/etc"]) with ["/etc"].
      cbn [resolve_all accumulate].
      change (resolve_path fs "/etc" cwd home)
        with (Some (real_if_exists fs "/etc")).
      rewrite Hreal. reflexivity. }
    rewrite (check_command_cases _ _ _ _ abs_cwd _ _ _ Hp Ha).
    cbn [find]. now rewrite (etc_outside _ Hne).
Qed.

(** From [/home/u/project], with [/etc] a plain directory. *)
Lemma C7_shell_dash_c_witness :
  In (PosixPath.basename "/bin/sh") SHELLS /\
  ~ In "-c" ["-e"] /\
  ~ In "-c" (removelast ["script.sh"; "rm"]) /\
  real_if_exists plain_fs "/etc" = "/etc" /\
  PosixPath.normpath "/home/u/project" <> "/etc" /\
  extract_rm_targets plain_fs ["/bin/sh"; "-e"; "-c"; "rm -rf /tmp/x; ls"; "x"]
                     "/home/u/project" "/home/u"
  = accumulate plain_fs [["rm"; "-rf"; "/tmp/x"]; ["ls"]]
               "/home/u/project" "/home/u" /\
  extract_rm_targets plain_fs ["/bin/sh"; "script.sh"; "rm"]
                     "/home/u/project" "/home/u" = ([], []) /\
  check_command plain_fs bash_c_rm_etc "/home/u/project" "/home/u"
                "/home/u/project"
  = Some (outside_message "/etc" "/home/u/project" bash_c_rm_etc).
Proof.
  assert (Hs : In (PosixPath.basename "/bin/sh") SHELLS) by (left; reflexivity).
  assert (H1 : ~ In "-c" ["-e"]) by (intros [H|[]]; discriminate H).
  assert (H2 : ~ In "-c" (removelast ["script.sh"; "rm"]))
    by (intros [H|[]]; discriminate H).
  assert (H3 : real_if_exists plain_fs "/etc" = "/etc") by reflexivity.
  assert (H4 : PosixPath.normpath "/home/u/project" <> "/etc")
    by discriminate.
  pose proof (C7_shell_dash_c plain_fs "/home/u/project" "/home/u")
    as (Ta & Tb & Tc).
  split; [exact Hs|]. split; [exact H1|]. split; [exact H2|].
  split; [exact H3|]. split; [exact H4|].
  split; [|split].
  - exact (Ta "/bin/sh" ["-e"] "rm -rf /tmp/x; ls" ["x"] Hs H1).
  - exact (Tb "/bin/sh" ["script.sh"; "rm"] Hs H2).
  - exact (Tc "/home/u/project" H3 H4).
Defined.

(** C7 as stated fails: issued from [/etc], the nested [rm -rf /etc]
    targets the working directory itself and is allowed. *)
Lemma C7_counterexample :
  check_command plain_fs bash_c_rm_etc "/etc" "/home/u" "/etc" = None.
Proof. reflexivity. Qed.

(** ** Dynamic path arguments *)

(** What the deletion branch does hold: a token after the option prefix
    that one of the patterns matches leaves its reason, whatever the other
    tokens are. *)
Lemma pattern_match_reported fs head rest cwd home arg :
  is_deletion (PosixPath.basename head) = true ->
  In arg (skip_rm_options rest) ->
  existsb (fun pattern => Re.search pattern arg) UNRESOLVABLE_PATTERNS = true ->
  In ("Unresolvable path: " ++ arg)
     (snd (extract_rm_targets fs (head :: rest) cwd home)).
Proof.
  intros Hd Hin Hm. rewrite (extract_deletion fs cwd home _ _ Hd).
  apply resolve_all_reason; [assumption|].
  unfold resolve_path. now rewrite Hm.
Qed.

(** Quoted, the variable reaches the resolver in one token and is
    reported. *)
Lemma quoted_variable_blocked :
  let line := "rm -rf " ++ chr dquote ++ "$HOME" ++ chr dquote in
  parse_command_tokens line = Some [["rm"; "-rf"; "$HOME"]] /\
  main plain_fs "/home/u" (bash_request line)
  = block (unresolvable_message ["Unresolvable path: $HOME"] line
             "/home/u/project").
Proof. split; reflexivity. Qed.

(** Outside quotes and escapes the dollar sign is never part of a word:
    it ends the token being read and is a token of its own. *)
Lemma dollar_is_its_own_token :
  Shlex.from_space "$" = (["$"], Shlex.Space) /\
  forall token quoted,
    Shlex.step (Shlex.Word token quoted) "$"
    = ((Shlex.emit token quoted ++ ["$"])%list, Shlex.Space).
Proof. split; reflexivity. Qed.

Lemma name_char_is_wordchar c :
  is_name_char c = true ->
  Shlex.is_whitespace c = false /\ Shlex.is_commenter c = false /\
  Shlex.is_quote c = false /\ Shlex.is_escape c = false /\
  Shlex.is_wordchar c = true.
Proof.
  destruct c as [[] [] [] [] [] [] [] []]; intros H;
    try discriminate H; repeat split; reflexivity.
Qed.

Lemma run_name name : forall token quoted,
  (forall c, contains_char c name = true -> is_name_char c = true) ->
  Shlex.run (Shlex.Word token quoted) name
  = inr (Shlex.emit (token ++ name) quoted).
Proof.
  induction name as [|c name IH]; intros token quoted Hn.
  - simpl. now rewrite append_empty_r.
  - assert (Hc : is_name_char c = true)
      by (apply Hn; simpl; now rewrite Ascii.eqb_refl).
    destruct (name_char_is_wordchar _ Hc) as (Hw & Hm & Hq & He & Hwc).
    cbn [Shlex.run Shlex.step]. rewrite Hw, Hm, Hq, He, Hwc.
    rewrite IH.
    + unfold chr. rewrite append_assoc. reflexivity.
    + intros d Hd. apply Hn. simpl. rewrite Hd. apply orb_true_r.
Qed.

Lemma run_feed prefix : forall st rest,
  Shlex.run st (prefix ++ rest)
  = match Shlex.run (snd (Shlex.feed st prefix)) rest with
    | inl e => inl e
    | inr toks => inr (fst (Shlex.feed st prefix) ++ toks)%list
    end.
Proof.
  induction prefix as [|c prefix IH]; intros st rest.
  - simpl. now destruct (Shlex.run st rest).
  - cbn [append Shlex.run Shlex.feed].
    destruct (Shlex.step st c) as [out st']. rewrite IH.
    destruct (Shlex.feed st' prefix) as [out' st'']. cbn [fst snd].
    destruct (Shlex.run st'' rest); [reflexivity|].
    now rewrite app_assoc.
Qed.

Lemma name_is_no_operator name :
  is_name name -> is_separator name = false /\ is_redirection name = false.
Proof.
  intros [_ Hn].
  assert (H : forall op bad,
             In op [";"; "|"; "||"; "&&"; "&"; chr nl;
                    ">"; ">>"; "<"; "2>"; "2>>"; "&>"; "&>>"] ->
             contains_char bad op = true -> is_name_char bad = false ->
             name <> op).
  { intros op bad _ Hbad Hnot ->. rewrite (Hn _ Hbad) in Hnot. discriminate. }
  split; apply not_true_is_false; intros Hm; apply mem_In in Hm; simpl in Hm;
    repeat (destruct Hm as [Hm|Hm];
            [ symmetry in Hm; revert Hm;
              first [ apply (H _ ";"%char); [simpl; tauto|reflexivity..]
                    | apply (H _ "|"%char); [simpl; tauto|reflexivity..]
                    | apply (H _ "&"%char); [simpl; tauto|reflexivity..]
                    | apply (H _ nl); [simpl; tauto|reflexivity..]
                    | apply (H _ ">"%char); [simpl; tauto|reflexivity..]
                    | apply (H _ "<"%char); [simpl; tauto|reflexivity..] ]
            | ]);
    destruct Hm.
Qed.

(** Whatever the variable is called, the unquoted reference reaches the
    expander as the token [$] followed by the bare name, and no pattern
    matches the token [$]. *)
Lemma unquoted_variable_is_split name :
  is_name name ->
  parse_command_tokens ("rm -rf $" ++ name) = Some [["rm"; "-rf"; "$"; name]]
  /\ existsb (fun pattern => Re.search pattern "$") UNRESOLVABLE_PATTERNS
     = false.
Proof.
  intros [Hne Hn]. split; [|reflexivity].
  unfold parse_command_tokens, Shlex.tokens. rewrite run_feed.
  change (Shlex.feed Shlex.Space "rm -rf $")
    with (["rm"; "-rf"; "$"], Shlex.Space).
  cbn [fst snd].
  destruct name as [|c name]; [congruence|].
  assert (Hc : is_name_char c = true)
    by (apply Hn; simpl; now rewrite Ascii.eqb_refl).
  destruct (name_char_is_wordchar _ Hc) as (Hw & Hm & Hq & He & Hwc).
  cbn [Shlex.run Shlex.step]. unfold Shlex.from_space.
  rewrite Hw, Hm, He, Hwc.
  rewrite run_name
    by (intros d Hd; apply Hn; simpl; rewrite Hd; apply orb_true_r).
  destruct (name_is_no_operator (String c name) (conj Hne Hn)) as [Hs Hr].
  cbn [Shlex.emit append chr is_empty negb orb app].
  change (split_commands ["rm"; "-rf"; "$"; String c name] [] [])
    with (split_commands [String c name] ["rm"; "-rf"; "$"] []).
  cbn [split_commands]. rewrite Hs, Hr. reflexivity.
Qed.

(** C3 fails on the code: unquoted, [$HOME] is cut by the lexer into the
    tokens [$] and [HOME]; no pattern matches either, both resolve under
    the working directory, and [rm -rf $HOME] is allowed.  Quoted, a
    positional parameter such as [$1] reaches the resolver whole and no
    pattern matches it either. *)
Theorem C3_unquoted_variable_allowed :
  parse_command_tokens "rm -rf $HOME" = Some [["rm"; "-rf"; "$"; "HOME"]] /\
  extract_rm_targets plain_fs ["rm"; "-rf"; "$"; "HOME"]
                     "/home/u/project" "/home/u"
  = (["/home/u/project/$"; "/home/u/project/HOME"], []) /\
  main plain_fs "/home/u" (bash_request "rm -rf $HOME") = allow /\
  parse_command_tokens ("rm -rf " ++ chr dquote ++ "$1" ++ chr dquote)
  = Some [["rm"; "-rf"; "$1"]] /\
  main plain_fs "/home/u"
       (bash_request ("rm -rf " ++ chr dquote ++ "$1" ++ chr dquote))
  = allow.
Proof. repeat split. Qed.

(** ** xargs *)

Lemma skip_dashed_flags flags sub rest :
  Forall (fun flag => startswith flag "-" = true) flags ->
  startswith sub "-" = false ->
  skip_dashed (flags ++ sub :: rest)%list = sub :: rest.
Proof.
  intros Hf Hs.
  induction Hf as [|flag flags Hflag _ IH]; cbn [app skip_dashed].
  - now rewrite Hs.
  - now rewrite Hflag.
Qed.

(** What the xargs branch does hold: when the first token that does not
    begin with a dash names a deletion command, the reason is emitted. *)
Lemma xargs_first_plain_token fs head flags sub rest cwd home :
  PosixPath.basename head = "xargs" ->
  Forall (fun flag => startswith flag "-" = true) flags ->
  startswith sub "-" = false ->
  is_deletion (PosixPath.basename sub) = true ->
  extract_rm_targets fs (head :: flags ++ sub :: rest) cwd home
  = ([], ["xargs with rm - paths come from stdin"]).
Proof.
  intros Hx Hf Hs Hd. rewrite (extract_xargs fs cwd home _ _ Hx).
  unfold xargs_reasons. now rewrite (skip_dashed_flags _ _ _ Hf Hs), Hd.
Qed.

(** A flag followed by its argument hides whatever xargs runs: the
    argument is taken for the sub-command. *)
Lemma xargs_flag_argument_hides fs flag arg rest cwd home :
  startswith flag "-" = true ->
  startswith arg "-" = false ->
  is_deletion (PosixPath.basename arg) = false ->
  extract_rm_targets fs ("xargs" :: flag :: arg :: rest) cwd home = ([], []).
Proof.
  intros Hf Ha Hd. rewrite (extract_xargs fs cwd home) by reflexivity.
  unfold xargs_reasons. cbn [skip_dashed]. now rewrite Hf, Ha, Hd.
Qed.

(** C5 fails on the code: the argument of an xargs flag is taken for the
    sub-command, so [xargs -n 1 rm] yields no reason and the line is
    allowed in every working directory. *)
Theorem C5_xargs_flag_argument_allowed fs cwd home abs_cwd :
  skip_dashed ["-n"; "1"; "rm"] = ["1"; "rm"] /\
  extract_rm_targets fs ["xargs"; "-n"; "1"; "rm"] cwd home = ([], []) /\
  check_command fs "echo /etc/passwd | xargs -n 1 rm" cwd home abs_cwd = None /\
  main plain_fs "/home/u" (bash_request "echo /etc/passwd | xargs -n 1 rm")
  = allow.
Proof. repeat split. Qed.

(** ** Wrappers *)

(** What the wrapper branch does hold: [sudo rm -rf /tmp/x] issued from
    [/home/u/project] is blocked with target [/tmp/x], provided [/tmp/x]
    is its own real path. *)
Lemma sudo_rm_tmp_blocked fs cwd home :
  real_if_exists fs "/tmp/x" = "/tmp/x" ->
  check_command fs "sudo rm -rf /tmp/x" cwd home "/home/u/project"
  = Some (outside_message "/tmp/x" "/home/u/project" "sudo rm -rf /tmp/x").
Proof.
  intros Hreal.
  assert (Hp : parse_command_tokens "sudo rm -rf /tmp/x"
               = Some [["sudo"; "rm"; "-rf"; "/tmp/x"]]) by reflexivity.
  assert (Ha : accumulate fs [["sudo"; "rm"; "-rf"; "/tmp/x"]] cwd home
               = (["/tmp/x"], [])).
  { rewrite accumulate_cons.
    rewrite (extract_wrapper fs cwd home "sudo" ["rm"; "-rf"; "/tmp/x"])
      by (simpl; auto).
    change (skip_wrapper_flags (PosixPath.basename "sudo") 1
                               ["rm"; "-rf"; "/tmp/x"])
      with ["rm"; "-rf"; "/tmp/x"].
    cbv beta iota.
    rewrite (extract_deletion fs cwd home "rm" ["-rf"; "/tmp/x"])
      by reflexivity.
    change (skip_rm_options ["-rf"; "/tmp/x"]) with ["/tmp/x"].
    cbn [resolve_all accumulate].
    change (resolve_path fs "/tmp/x" cwd home)
      with (Some (real_if_exists fs "/tmp/x")).
    rewrite Hreal. reflexivity. }
  rewrite (check_command_cases _ _ _ _ "/home/u/project" _ _ _ Hp Ha).
  reflexivity.
Qed.

(** The flags of [sudo] that take an argument, and the assignments of
    [env], are skipped. *)
Lemma wrapper_flags_skipped :
  skip_wrapper_flags "sudo" 1 ["-u"; "root"; "-E"; "rm"; "x"] = ["rm"; "x"] /\
  skip_wrapper_flags "env" 1 ["-i"; "A=1"; "B=2"; "rm"; "x"] = ["rm"; "x"] /\
  skip_wrapper_flags "timeout" 1 ["-s"; "rm"; "x"] = ["rm"; "x"].
Proof. repeat split. Qed.

(** A duration never begins with a dash, so the flag loop stops on it and
    the recursion restarts on the duration itself. *)
Lemma timeout_duration_stops_the_loop fs duration rest cwd home :
  startswith duration "-" = false ->
  skip_wrapper_flags "timeout" 1 (duration :: rest) = duration :: rest /\
  extract_rm_targets fs ("timeout" :: duration :: rest) cwd home
  = extract_rm_targets fs (duration :: rest) cwd home.
Proof.
  intros Hd.
  assert (Hs : skip_wrapper_flags "timeout" 1 (duration :: rest)
               = duration :: rest).
  { cbn [skip_wrapper_flags]. rewrite Hd.
    change ("timeout" =? "env") with false. now rewrite andb_false_r. }
  split; [exact Hs|].
  rewrite (extract_wrapper fs cwd home "timeout")
    by (simpl; repeat (try (left; reflexivity); right)).
  change (PosixPath.basename "timeout") with "timeout". now rewrite Hs.
Qed.

(** C6 fails on the code: the duration of [timeout] does not begin with a
    dash, so the flag loop stops on it and the recursion restarts on
    [10 rm -rf /tmp/x], whose head is not tracked; the line is allowed in
    every working directory. *)
Theorem C6_timeout_duration_not_skipped fs cwd home abs_cwd :
  skip_wrapper_flags "timeout" 1 ["10"; "rm"; "-rf"; "/tmp/x"]
  = ["10"; "rm"; "-rf"; "/tmp/x"] /\
  extract_rm_targets fs ["timeout"; "10"; "rm"; "-rf"; "/tmp/x"] cwd home
  = ([], []) /\
  check_command fs "timeout 10 rm -rf /tmp/x" cwd home abs_cwd = None /\
  main plain_fs "/home/u" (bash_request "timeout 10 rm -rf /tmp/x") = allow.
Proof. repeat split. Qed.

(** ** The remaining worked examples of the specification *)

(** [find . -name '*.bak' -exec rm {} \;] is blocked: paths are dynamic. *)
Example find_exec_rm_blocked :
  let line := "find . -name '*.bak' -exec rm {} \;" in
  main plain_fs "/home/u" (bash_request line)
  = block (unresolvable_message ["find -exec with rm - paths are dynamic"]
             line "/home/u/project").
Proof. reflexivity. Qed.

(** [ls -la] is allowed. *)
Example ls_allowed :
  main plain_fs "/home/u" (bash_request "ls -la") = allow.
Proof. reflexivity. Qed.

(** A request of another tool, or without a command, is allowed. *)
Example other_requests_allowed :
  main plain_fs "/home/u"
       {| tool_name := "Write"; command := "rm -rf /"; cwd := "/tmp" |}
  = allow /\
  main plain_fs "/home/u" (bash_request EmptyString) = allow.
Proof. split; reflexivity. Qed.

(** * Further properties of the hook *)

(** ** The decision engine over whole lines *)

Lemma accumulate_paths fs cwd home commands path :
  In path (fst (accumulate fs commands cwd home)) <->
  exists cmd_tokens,
    In cmd_tokens commands /\
    In path (fst (extract_rm_targets fs cmd_tokens cwd home)).
Proof.
  induction commands as [|c commands IH].
  - simpl. split; [intros [] | intros [t [[] _]]].
  - rewrite accumulate_cons. cbn [fst]. rewrite in_app_iff, IH. split.
    + intros [H|[t [Ht Hp]]].
      * exists c. split; [now left | assumption].
      * exists t. split; [now right | assumption].
    + intros [t [[<-|Ht] Hp]]; [now left|right; eauto].
Qed.

Lemma accumulate_no_reason fs cwd home commands :
  snd (accumulate fs commands cwd home) = [] <->
  forall cmd_tokens,
    In cmd_tokens commands ->
    snd (extract_rm_targets fs cmd_tokens cwd home) = [].
Proof.
  induction commands as [|c commands IH].
  - simpl. split; [intros _ ? [] | reflexivity].
  - rewrite accumulate_cons. cbn [snd]. split.
    + intros H. apply app_eq_nil in H. destruct H as [Hc Hr].
      intros t [<-|Ht]; [assumption | now apply IH].
    + intros H. rewrite (H c) by now left.
      apply IH. intros t Ht. apply H. now right.
Qed.

(** X1: a line is allowed whenever the head of each of its simple
    commands is outside both tracked sets, whatever follows the head. *)
Theorem untracked_heads_are_allowed fs command cwd home abs_cwd commands :
  parse_command_tokens command = Some commands ->
  (forall cmd_tokens, In cmd_tokens commands -> is_tracked cmd_tokens = false)
  -> check_command fs command cwd home abs_cwd = None.
Proof.
  intros Hp Hu.
  assert (Ha : accumulate fs commands cwd home = ([], [])).
  { clear Hp. induction commands as [|c commands IH]; [reflexivity|].
    rewrite accumulate_cons, (extract_untracked fs cwd home c)
      by (apply Hu; now left).
    rewrite IH by (intros t Ht; apply Hu; now right). reflexivity. }
  now rewrite (check_command_cases _ _ _ _ abs_cwd _ _ _ Hp Ha).
Qed.

(** A deletion inside a subshell: the head of the only simple command is
    the opening parenthesis. *)
Lemma untracked_heads_are_allowed_witness :
  parse_command_tokens "(rm -rf /etc)"
  = Some [["("; "rm"; "-rf"; "/etc"; ")"]] /\
  (forall cmd_tokens,
      In cmd_tokens [["("; "rm"; "-rf"; "/etc"; ")"]] ->
      is_tracked cmd_tokens = false) /\
  check_command plain_fs "(rm -rf /etc)" "/home/u/project" "/home/u"
                "/home/u/project" = None.
Proof.
  assert (Hp : parse_command_tokens "(rm -rf /etc)"
               = Some [["("; "rm"; "-rf"; "/etc"; ")"]]) by reflexivity.
  assert (Hu : forall cmd_tokens,
             In cmd_tokens [["("; "rm"; "-rf"; "/etc"; ")"]] ->
             is_tracked cmd_tokens = false)
    by (intros t [<-|[]]; reflexivity).
  split; [exact Hp|]. split; [exact Hu|].
  exact (untracked_heads_are_allowed plain_fs _ _ _ _ _ Hp Hu).
Defined.

(** X2: a line is allowed exactly when every one of its simple commands,
    analysed on its own, yields no reason and only paths inside the
    working directory: a blocked command cannot be masked by the commands
    chained around it. *)
Theorem allowed_iff_every_command_clean fs command cwd home abs_cwd commands :
  parse_command_tokens command = Some commands ->
  (check_command fs command cwd home abs_cwd = None <->
   forall cmd_tokens,
     In cmd_tokens commands ->
     snd (extract_rm_targets fs cmd_tokens cwd home) = [] /\
     forall path,
       In path (fst (extract_rm_targets fs cmd_tokens cwd home)) ->
       inside_or_equal path abs_cwd).
Proof.
  intros Hp.
  destruct (accumulate fs commands cwd home) as [paths reasons] eqn:Ha.
  rewrite (check_command_cases _ _ _ _ abs_cwd _ _ _ Hp Ha).
  pose proof (accumulate_no_reason fs cwd home commands) as Hr.
  pose proof (accumulate_paths fs cwd home commands) as Hpaths.
  rewrite Ha in Hr, Hpaths. cbn [fst snd] in Hr, Hpaths.
  destruct reasons as [|r reasons].
  - pose proof (proj1 Hr eq_refl) as Hnone.
    destruct (find _ paths) as [bad|] eqn:Hf.
    + apply find_outside_Some in Hf. destruct Hf as [Hin Hout].
      split; [discriminate|]. intros H. exfalso.
      apply Hpaths in Hin. destruct Hin as [t [Ht Hp']].
      apply Hout. now apply (H t Ht).
    + split; [|reflexivity]. intros _ t Ht. split; [now apply Hnone|].
      intros path Hpath.
      apply (proj1 (find_outside_None paths abs_cwd) Hf).
      apply Hpaths. eauto.
  - split; [discriminate|]. intros H. exfalso.
    assert (Hnil : r :: reasons = []); [|discriminate Hnil].
    apply Hr. intros t Ht. now apply H.
Qed.

(** [ls; rm ./a; echo done] from [/home/u/project]. *)
Lemma allowed_iff_every_command_clean_witness :
  parse_command_tokens "ls; rm ./a; echo done"
  = Some [["ls"]; ["rm"; "./a"]; ["echo"; "done"]] /\
  check_command plain_fs "ls; rm ./a; echo done" "/home/u/project" "/home/u"
                "/home/u/project" = None.
Proof.
  assert (Hp : parse_command_tokens "ls; rm ./a; echo done"
               = Some [["ls"]; ["rm"; "./a"]; ["echo"; "done"]])
    by reflexivity.
  split; [exact Hp|].
  apply (proj2 (allowed_iff_every_command_clean plain_fs _ "/home/u/project"
                  "/home/u" "/home/u/project" _ Hp)).
  intros t [<-|[<-|[<-|[]]]]; (split; [reflexivity|]).
  - intros path [].
  - intros path [<-|[]]. right. exists "a". reflexivity.
  - intros path [].
Defined.

(** X3: every diagnostic of [check_command] quotes the command text,
    and, unless the command is malformed, the working directory. *)
Theorem diagnostic_cites_command fs command cwd home abs_cwd message :
  check_command fs command cwd home abs_cwd = Some message ->
  cites message command /\
  (parse_command_tokens command <> None -> cites message abs_cwd).
Proof.
  unfold check_command.
  destruct (parse_command_tokens command) as [commands|].
  - destruct (accumulate fs commands cwd home) as [paths reasons].
    destruct reasons as [|r reasons].
    + destruct (find _ paths) as [path|]; [|discriminate].
      intros H; inversion H; subst. unfold outside_message. split.
      * exists ("BLOCKED: rm targets path outside working directory"
                  ++ chr nl ++ "  Target: " ++ path ++ chr nl
                  ++ "  Working directory: " ++ abs_cwd ++ chr nl
                  ++ "  Command: "), EmptyString.
        rewrite append_empty_r, !append_assoc. reflexivity.
      * intros _.
        exists ("BLOCKED: rm targets path outside working directory"
                  ++ chr nl ++ "  Target: " ++ path ++ chr nl
                  ++ "  Working directory: "),
          (chr nl ++ "  Command: " ++ command).
        rewrite !append_assoc. reflexivity.
    + intros H; inversion H; subst. unfold unresolvable_message.
      set (listed := Py.join (chr nl ++ "  - ") (r :: reasons)). split.
      * exists ("BLOCKED: Command contains rm with unresolvable paths (safety block)"
                  ++ chr nl ++ "  Reasons:" ++ chr nl ++ "  - " ++ listed
                  ++ chr nl ++ "  Command: "),
          (chr nl ++ "  Working directory: " ++ abs_cwd).
        rewrite !append_assoc. reflexivity.
      * intros _.
        exists ("BLOCKED: Command contains rm with unresolvable paths (safety block)"
                  ++ chr nl ++ "  Reasons:" ++ chr nl ++ "  - " ++ listed
                  ++ chr nl ++ "  Command: " ++ command ++ chr nl
                  ++ "  Working directory: "), EmptyString.
        rewrite append_empty_r, !append_assoc. reflexivity.
  - intros H; inversion H; subst. split; [|congruence].
    unfold malformed_message.
    exists ("BLOCKED: Malformed command (unclosed quotes or syntax error)"
              ++ chr nl ++ "  Command: "), EmptyString.
    rewrite append_empty_r, !append_assoc. reflexivity.
Qed.

Lemma diagnostic_cites_command_witness :
  check_command plain_fs "rm /etc/hosts" "/home/u/project" "/home/u"
                "/home/u/project"
  = Some (outside_message "/etc/hosts" "/home/u/project" "rm /etc/hosts") /\
  cites (outside_message "/etc/hosts" "/home/u/project" "rm /etc/hosts")
        "rm /etc/hosts".
Proof.
  assert (H : check_command plain_fs "rm /etc/hosts" "/home/u/project"
                            "/home/u" "/home/u/project"
              = Some (outside_message "/etc/hosts" "/home/u/project"
                        "rm /etc/hosts")) by reflexivity.
  split; [exact H|].
  exact (proj1 (diagnostic_cites_command _ _ _ _ _ _ H)).
Defined.

(** ** The grouping of tokens into simple commands *)

(** Induction over a list two elements at a time, as the grouping loop
    walks it when it meets a redirection. *)
Lemma list_pair_ind {A : Type} (P : list A -> Prop) :
  P [] ->
  (forall a rest,
      P rest -> (forall b rest', rest = b :: rest' -> P rest') ->
      P (a :: rest)) ->
  forall l, P l.
Proof.
  intros Hnil Hcons l.
  assert (H : P l /\ forall b rest', l = b :: rest' -> P rest').
  { induction l as [|a l [IH1 IH2]].
    - split; [exact Hnil | discriminate].
    - split; [now apply Hcons|].
      intros b rest' Heq. inversion Heq; subst. exact IH1. }
  exact (proj1 H).
Qed.

Lemma flush_well_headed commands current :
  Forall well_headed commands ->
  (current = [] \/ well_headed current) ->
  Forall well_headed (flush commands current).
Proof.
  intros Hc [->|Hw]; [exact Hc|].
  destruct current as [|h current]; [destruct Hw|].
  cbn [flush]. apply Forall_app. split; [exact Hc|].
  constructor; [exact Hw | constructor].
Qed.

Lemma snoc_well_headed current token :
  (current = [] \/ well_headed current) ->
  is_separator token = false ->
  well_headed (current ++ [token])%list.
Proof.
  intros [->|Hw] Ht; [exact Ht|].
  destruct current; [destruct Hw | exact Hw].
Qed.

Lemma snoc2_well_headed current token target :
  (current = [] \/ well_headed current) ->
  is_separator token = false ->
  well_headed (current ++ [token; target])%list.
Proof.
  intros [->|Hw] Ht; [exact Ht|].
  destruct current; [destruct Hw | exact Hw].
Qed.

Lemma split_commands_well_headed tokens :
  forall current commands,
    Forall well_headed commands ->
    (current = [] \/ well_headed current) ->
    Forall well_headed (split_commands tokens current commands).
Proof.
  induction tokens as [|token rest IH IH2] using list_pair_ind;
    intros current commands Hc Hw.
  - cbn [split_commands]. now apply flush_well_headed.
  - cbn [split_commands].
    destruct (is_separator token) eqn:Hs.
    + apply IH; [now apply flush_well_headed | now left].
    + destruct (is_redirection token).
      * destruct rest as [|target rest'].
        -- cbn [split_commands]. apply flush_well_headed; [exact Hc|].
           right. now apply snoc_well_headed.
        -- apply (IH2 target rest' eq_refl); [exact Hc|].
           right. now apply snoc2_well_headed.
      * apply IH; [exact Hc|]. right. now apply snoc_well_headed.
Qed.

(** X5: the tokenizer never yields an empty simple command, and the head
    of a simple command is never a separator. *)
Theorem commands_are_never_empty command commands cmd_tokens :
  parse_command_tokens command = Some commands ->
  In cmd_tokens commands ->
  cmd_tokens <> [] /\
  forall head rest, cmd_tokens = head :: rest -> is_separator head = false.
Proof.
  unfold parse_command_tokens.
  destruct (Shlex.tokens command) as [e|toks]; [discriminate|].
  intros H Hin. inversion H; subst.
  pose proof (split_commands_well_headed toks [] [] (Forall_nil _)
                (or_introl eq_refl)) as Hall.
  rewrite Forall_forall in Hall. specialize (Hall _ Hin).
  destruct cmd_tokens as [|h t]; [destruct Hall|].
  split; [discriminate|]. intros head rest Heq. inversion Heq; subst.
  exact Hall.
Qed.

(** Separators in a row and at both ends leave no empty command. *)
Lemma commands_are_never_empty_witness :
  parse_command_tokens "; ls ;; | rm x &"
  = Some [["ls"; ";;"]; ["rm"; "x"]] /\
  In ["rm"; "x"] [["ls"; ";;"]; ["rm"; "x"]] /\
  ["rm"; "x"] <> [].
Proof.
  assert (Hp : parse_command_tokens "; ls ;; | rm x &"
               = Some [["ls"; ";;"]; ["rm"; "x"]]) by reflexivity.
  assert (Hin : In ["rm"; "x"] [["ls"; ";;"]; ["rm"; "x"]])
    by (right; left; reflexivity).
  split; [exact Hp|]. split; [exact Hin|].
  exact (proj1 (commands_are_never_empty _ _ _ Hp Hin)).
Defined.

Lemma split_operator_free_prefix prefix : forall rest current commands,
  operator_free prefix ->
  split_commands (prefix ++ rest) current commands
  = split_commands rest (current ++ prefix)%list commands.
Proof.
  induction prefix as [|token prefix IH]; intros rest current commands Hf.
  - now rewrite app_nil_r.
  - inversion Hf as [|? ? Ht Hf']; subst.
    unfold is_operator in Ht. apply orb_false_iff in Ht.
    destruct Ht as [Hs Hr].
    cbn [app split_commands]. rewrite Hs, Hr.
    rewrite IH by assumption. now rewrite <- app_assoc.
Qed.

Lemma flush_not_empty commands current :
  current <> [] -> flush commands current = (commands ++ [current])%list.
Proof. destruct current; [congruence | reflexivity]. Qed.

Lemma split_chain_from more : forall first current commands,
  operator_free first ->
  (current ++ first)%list <> [] ->
  Forall (fun item =>
            is_separator (fst item) = true /\
            snd item <> [] /\ operator_free (snd item)) more ->
  split_commands (chain first more) current commands
  = (commands ++ (current ++ first) :: map snd more)%list.
Proof.
  induction more as [|[separator next] more IH];
    intros first current commands Hf Hne Hall.
  - cbn [chain map]. rewrite <- (app_nil_r first) at 1.
    rewrite split_operator_free_prefix by assumption.
    cbn [split_commands]. now apply flush_not_empty.
  - inversion Hall as [|? ? (Hs & Hn & Hnf) Hall']; subst.
    cbn [fst snd] in *. cbn [chain map snd].
    rewrite split_operator_free_prefix by assumption.
    cbn [split_commands]. rewrite Hs.
    rewrite flush_not_empty by assumption.
    rewrite IH; [|assumption|assumption|assumption].
    cbn [app]. now rewrite <- app_assoc.
Qed.

(** X6: simple commands that hold no operator token, joined by any
    separators, are given back one by one, in order. *)
Theorem chained_commands_are_split_back first more :
  first <> [] ->
  operator_free first ->
  Forall (fun item =>
            is_separator (fst item) = true /\
            snd item <> [] /\ operator_free (snd item)) more ->
  split_commands (chain first more) [] [] = first :: map snd more.
Proof.
  intros Hne Hf Hall. now rewrite split_chain_from.
Qed.

Lemma chained_commands_are_split_back_witness :
  ["cd"; "x"] <> [] /\
  operator_free ["cd"; "x"] /\
  split_commands
    (chain ["cd"; "x"] [("&&", ["make"]); ("|", ["tee"; "log"])]) [] []
  = [["cd"; "x"]; ["make"]; ["tee"; "log"]].
Proof.
  assert (Hne : ["cd"; "x"] <> []) by discriminate.
  assert (Hf : operator_free ["cd"; "x"]) by (repeat constructor).
  split; [exact Hne|]. split; [exact Hf|].
  apply (chained_commands_are_split_back ["cd"; "x"]
           [("&&", ["make"]); ("|", ["tee"; "log"])] Hne Hf).
  repeat constructor; discriminate.
Defined.

(** X7: a redirection operator and the token that follows it, whatever
    that token is, stay inside the current simple command. *)
Theorem redirection_stays_in_command before operator target after :
  operator_free before ->
  is_separator operator = false ->
  is_redirection operator = true ->
  operator_free after ->
  split_commands (before ++ operator :: target :: after) [] []
  = [(before ++ operator :: target :: after)%list] /\
  split_commands (before ++ [operator]) [] [] = [(before ++ [operator])%list].
Proof.
  intros Hb Hs Hr Ha. split.
  - rewrite split_operator_free_prefix by assumption.
    cbn [split_commands app]. rewrite Hs, Hr.
    rewrite <- (app_nil_r after) at 1.
    rewrite split_operator_free_prefix by assumption.
    cbn [split_commands]. rewrite flush_not_empty.
    + cbn [app]. now rewrite <- !app_assoc.
    + intros H. apply app_eq_nil in H. destruct H as [H _].
      apply app_eq_nil in H. destruct H as [_ H]. discriminate.
  - rewrite split_operator_free_prefix by assumption.
    cbn [split_commands app]. rewrite Hs, Hr. cbn [split_commands].
    rewrite flush_not_empty; [reflexivity|].
    intros H. apply app_eq_nil in H. destruct H as [_ H]. discriminate.
Qed.

(** Even a separator is swallowed as the target of a redirection. *)
Lemma redirection_stays_in_command_witness :
  operator_free ["echo"; "a"] /\
  is_separator ">" = false /\
  is_redirection ">" = true /\
  operator_free ["rm"; "x"] /\
  split_commands (["echo"; "a"] ++ ">" :: ";" :: ["rm"; "x"]) [] []
  = [["echo"; "a"; ">"; ";"; "rm"; "x"]].
Proof.
  assert (Hb : operator_free ["echo"; "a"]) by (repeat constructor).
  assert (Ha : operator_free ["rm"; "x"]) by (repeat constructor).
  split; [exact Hb|]. split; [reflexivity|]. split; [reflexivity|].
  split; [exact Ha|].
  exact (proj1 (redirection_stays_in_command ["echo"; "a"] ">" ";"
                  ["rm"; "x"] Hb eq_refl eq_refl Ha)).
Defined.

(** ** The deletion branch *)

Lemma resolve_all_accounts fs cwd home args :
  let result := resolve_all fs args cwd home in
  List.length (fst result) + List.length (snd result) = List.length args /\
  (forall arg,
      In arg args ->
      match resolve_path fs arg cwd home with
      | Some resolved => In resolved (fst result)
      | None => In (unresolvable_reason arg) (snd result)
      end) /\
  (forall resolved,
      In resolved (fst result) ->
      exists arg,
        In arg args /\ resolve_path fs arg cwd home = Some resolved) /\
  (forall reason,
      In reason (snd result) ->
      exists arg,
        In arg args /\ resolve_path fs arg cwd home = None /\
        reason = unresolvable_reason arg).
Proof.
  induction args as [|a args IH]; cbn zeta.
  - simpl. repeat split; try (intros ? []).
  - cbn zeta in IH. destruct IH as (Hlen & Hall & Hp & Hr).
    cbn [resolve_all].
    destruct (resolve_all fs args cwd home) as [paths reasons].
    cbn [fst snd] in *.
    destruct (resolve_path fs a cwd home) as [resolved|] eqn:Ha;
      cbn [fst snd List.length].
    + repeat split.
      * lia.
      * intros arg [<-|Hin].
        -- rewrite Ha. now left.
        -- specialize (Hall arg Hin).
           destruct (resolve_path fs arg cwd home); [now right|assumption].
      * intros p [<-|Hin]; [exists a; split; [now left|assumption]|].
        destruct (Hp p Hin) as [arg [Hi He]]. exists arg.
        split; [now right|assumption].
      * intros r Hin. destruct (Hr r Hin) as [arg (Hi & He & Hm)].
        exists arg. repeat split; [now right|assumption..].
    + repeat split.
      * lia.
      * intros arg [<-|Hin].
        -- rewrite Ha. now left.
        -- specialize (Hall arg Hin).
           destruct (resolve_path fs arg cwd home); [assumption|now right].
      * intros p Hin. destruct (Hp p Hin) as [arg [Hi He]]. exists arg.
        split; [now right|assumption].
      * intros r [<-|Hin];
          [exists a; repeat split; [now left|assumption]|].
        destruct (Hr r Hin) as [arg (Hi & He & Hm)].
        exists arg. repeat split; [now right|assumption..].
Qed.

(** X8: a deletion command drops no argument: every token after the
    option prefix, redirection operators and their targets included, is
    either among the resolved paths or reported as unresolvable, and
    nothing else is. *)
Theorem deletion_arguments_all_accounted fs head rest cwd home :
  is_deletion (PosixPath.basename head) = true ->
  let args := skip_rm_options rest in
  let result := extract_rm_targets fs (head :: rest) cwd home in
  List.length (fst result) + List.length (snd result) = List.length args /\
  (forall arg,
      In arg args ->
      match resolve_path fs arg cwd home with
      | Some resolved => In resolved (fst result)
      | None => In (unresolvable_reason arg) (snd result)
      end) /\
  (forall resolved,
      In resolved (fst result) ->
      exists arg,
        In arg args /\ resolve_path fs arg cwd home = Some resolved) /\
  (forall reason,
      In reason (snd result) ->
      exists arg,
        In arg args /\ resolve_path fs arg cwd home = None /\
        reason = unresolvable_reason arg).
Proof.
  intros Hd args result. subst result args.
  rewrite (extract_deletion fs cwd home _ _ Hd).
  apply resolve_all_accounts.
Qed.

(** [rm -f x 2>/dev/null]: the file descriptor, the operator and the
    target of the redirection are resolved as paths, and the target blocks
    the command. *)
Lemma deletion_arguments_all_accounted_witness :
  is_deletion (PosixPath.basename "rm") = true /\
  parse_command_tokens "rm -f x 2>/dev/null"
  = Some [["rm"; "-f"; "x"; "2"; ">"; "/dev/null"]] /\
  List.length
    (fst (extract_rm_targets plain_fs ["rm"; "-f"; "x"; "2"; ">"; "/dev/null"]
            "/home/u/project" "/home/u"))
  + List.length
      (snd (extract_rm_targets plain_fs
              ["rm"; "-f"; "x"; "2"; ">"; "/dev/null"]
              "/home/u/project" "/home/u"))
  = 4 /\
  check_command plain_fs "rm -f x 2>/dev/null" "/home/u/project" "/home/u"
                "/home/u/project"
  = Some (outside_message "/dev/null" "/home/u/project"
            "rm -f x 2>/dev/null").
Proof.
  split; [reflexivity|]. split; [reflexivity|]. split; [|reflexivity].
  exact (proj1 (deletion_arguments_all_accounted plain_fs "rm"
                  ["-f"; "x"; "2"; ">"; "/dev/null"]
                  "/home/u/project" "/home/u" eq_refl)).
Defined.

Lemma skip_rm_options_option token rest :
  is_rm_option token = true ->
  skip_rm_options (token :: rest) = skip_rm_options rest.
Proof.
  unfold is_rm_option. intros H.
  apply andb_true_iff in H. destruct H as [Hdd H].
  apply negb_true_iff in Hdd.
  cbn [skip_rm_options]. rewrite Hdd.
  destruct (startswith token "--"); cbn [andb orb] in *.
  - now destruct (contains_char "=" token).
  - now rewrite H.
Qed.

Lemma skip_rm_options_operand token rest :
  is_rm_option token = false -> token <> "--" ->
  skip_rm_options (token :: rest) = token :: rest.
Proof.
  unfold is_rm_option. intros H Hne.
  apply String.eqb_neq in Hne. rewrite Hne in H. cbn [negb andb] in H.
  apply orb_false_iff in H. destruct H as [Hl Hs].
  cbn [skip_rm_options]. now rewrite Hne, Hl, Hs.
Qed.

(** X9: the option loop of a deletion command stops at the first token
    that is not an option, and every token after it is a path argument,
    dash-initial ones included; a bare double dash ends the options and
    is dropped; options alone leave no path argument. *)
Theorem option_prefix_then_paths options :
  Forall (fun token => is_rm_option token = true) options ->
  (forall args, skip_rm_options (options ++ "--" :: args) = args) /\
  (forall operand args,
      is_rm_option operand = false -> operand <> "--" ->
      skip_rm_options (options ++ operand :: args) = operand :: args) /\
  skip_rm_options options = [].
Proof.
  induction 1 as [|token options Ht _ (IH1 & IH2 & IH3)].
  - repeat split.
    intros operand args Ho Hne. now apply skip_rm_options_operand.
  - cbn [app]. repeat split; intros;
      rewrite skip_rm_options_option by assumption; auto.
Qed.

(** [rm -rf --force -- -x y], [rm -v a -rf] and [rm - x]. *)
Lemma option_prefix_then_paths_witness :
  Forall (fun token => is_rm_option token = true) ["-rf"; "--force"] /\
  skip_rm_options (["-rf"; "--force"] ++ "--" :: ["-x"; "y"]) = ["-x"; "y"] /\
  skip_rm_options (["-rf"; "--force"] ++ "a" :: ["-rf"]) = ["a"; "-rf"] /\
  skip_rm_options (["-rf"; "--force"] ++ "-" :: ["x"]) = ["-"; "x"].
Proof.
  assert (Ho : Forall (fun token => is_rm_option token = true)
                      ["-rf"; "--force"]) by (repeat constructor).
  pose proof (option_prefix_then_paths _ Ho) as (T1 & T2 & _).
  split; [exact Ho|]. split; [apply T1|].
  split; apply T2; try reflexivity; discriminate.
Defined.

(** ** The find branch *)

Lemma find_reasons_found before flag next after :
  In flag FIND_EXEC_FLAGS ->
  is_deletion (PosixPath.basename next) = true ->
  In (find_reason flag)
     (find_reasons (before ++ flag :: next :: after)).
Proof.
  intros Hf Hd. induction before as [|t before IH].
  - cbn [app find_reasons].
    apply mem_In in Hf. unfold FIND_EXEC_FLAGS in Hf. rewrite Hf, Hd.
    left. reflexivity.
  - cbn [app find_reasons]. apply in_or_app. now right.
Qed.

Lemma find_reasons_none tokens :
  (forall before flag next after,
      tokens = (before ++ flag :: next :: after)%list ->
      In flag FIND_EXEC_FLAGS ->
      is_deletion (PosixPath.basename next) = false) ->
  find_reasons tokens = [].
Proof.
  induction tokens as [|t tokens IH]; intros H; [reflexivity|].
  cbn [find_reasons]. rewrite IH.
  - rewrite app_nil_r.
    destruct (mem t ["-exec"; "-execdir"; "-ok"; "-okdir"]) eqn:Hm;
      [|reflexivity].
    destruct tokens as [|next after]; [reflexivity|].
    rewrite (H [] t next after eq_refl); [reflexivity|].
    now apply mem_In.
  - intros before flag next after -> Hf.
    now apply (H (t :: before) flag next after).
Qed.

Lemma extract_find fs cwd home head rest :
  PosixPath.basename head = "find" ->
  extract_rm_targets fs (head :: rest) cwd home = ([], find_reasons rest).
Proof.
  intros Hb.
  pose proof (extract_rm_targets_unfold fs cwd home (head :: rest)) as E.
  unfold extract_body in E. rewrite Hb in E.
  change (mem "find" WRAPPERS) with false in E.
  change (mem "find" SHELLS) with false in E.
  change ("find" =? "xargs") with false in E.
  change ("find" =? "find") with true in E.
  cbv beta iota in E. cbn [find_reasons] in E.
  assert (Hm : mem head ["-exec"; "-execdir"; "-ok"; "-okdir"] = false).
  { apply not_true_is_false. intros Hm. apply mem_In in Hm. simpl in Hm.
    repeat (destruct Hm as [Hm|Hm]; [subst head; discriminate Hb|]).
    destruct Hm. }
  rewrite Hm in E. cbn [app] in E. congruence.
Qed.

(** X10: a find command never yields a path; it yields a reason for each
    of [-exec], [-execdir], [-ok], [-okdir] directly followed by a
    deletion command, and nothing at all when there is no such pair, so
    [find] with [-delete] is not reported. *)
Theorem find_reports_only_exec_deletions fs head rest cwd home :
  PosixPath.basename head = "find" ->
  fst (extract_rm_targets fs (head :: rest) cwd home) = [] /\
  (forall before flag next after,
      rest = (before ++ flag :: next :: after)%list ->
      In flag FIND_EXEC_FLAGS ->
      is_deletion (PosixPath.basename next) = true ->
      In (find_reason flag)
         (snd (extract_rm_targets fs (head :: rest) cwd home))) /\
  ((forall before flag next after,
       rest = (before ++ flag :: next :: after)%list ->
       In flag FIND_EXEC_FLAGS ->
       is_deletion (PosixPath.basename next) = false) ->
   extract_rm_targets fs (head :: rest) cwd home = ([], [])).
Proof.
  intros Hb. rewrite (extract_find fs cwd home _ _ Hb). cbn [fst snd].
  split; [reflexivity|]. split.
  - intros before flag next after -> Hf Hd. now apply find_reasons_found.
  - intros H. now rewrite (find_reasons_none _ H).
Qed.

(** [find / -name core -delete] deletes without being reported. *)
Lemma find_reports_only_exec_deletions_witness :
  PosixPath.basename "find" = "find" /\
  (forall before flag next after,
      ["/"; "-name"; "core"; "-delete"]
      = (before ++ flag :: next :: after)%list ->
      In flag FIND_EXEC_FLAGS ->
      is_deletion (PosixPath.basename next) = false) /\
  extract_rm_targets plain_fs ["find"; "/"; "-name"; "core"; "-delete"]
                     "/home/u/project" "/home/u" = ([], []) /\
  check_command plain_fs "find / -name core -delete" "/home/u/project"
                "/home/u" "/home/u/project" = None.
Proof.
  assert (Hn : forall before flag next after,
             ["/"; "-name"; "core"; "-delete"]
             = (before ++ flag :: next :: after)%list ->
             In flag FIND_EXEC_FLAGS ->
             is_deletion (PosixPath.basename next) = false).
  { intros before flag next after Heq Hf.
    destruct before as [|b0 [|b1 [|b2 [|b3 before]]]];
      inversion Heq; subst; try reflexivity;
      destruct before; discriminate. }
  split; [reflexivity|]. split; [exact Hn|]. split; [|reflexivity].
  exact (proj2 (proj2 (find_reports_only_exec_deletions plain_fs "find"
                         ["/"; "-name"; "core"; "-delete"]
                         "/home/u/project" "/home/u" eq_refl)) Hn).
Defined.

(** ** The head of a command is read through its basename *)

Lemma basename_no_slash name :
  contains_char "/" name = false -> PosixPath.basename name = name.
Proof.
  destruct name as [|c name]; [reflexivity|].
  cbn [contains_char PosixPath.basename]. intros H.
  apply orb_false_iff in H. destruct H as [Hc Hn].
  rewrite Hn. rewrite Ascii.eqb_sym in Hc. now rewrite Hc.
Qed.

Lemma basename_after_slash dir name :
  contains_char "/" name = false ->
  PosixPath.basename (dir ++ "/" ++ name) = name.
Proof.
  intros Hn. induction dir as [|c dir IH].
  - cbn [append PosixPath.basename]. rewrite Hn.
    now rewrite Ascii.eqb_refl.
  - cbn [append PosixPath.basename].
    rewrite contains_char_append. cbn [append contains_char].
    rewrite Ascii.eqb_refl, orb_true_r. exact IH.
Qed.

Lemma find_reasons_head head rest :
  PosixPath.basename head = "find" ->
  find_reasons (head :: rest) = find_reasons rest.
Proof.
  intros Hb. cbn [find_reasons].
  assert (Hm : mem head ["-exec"; "-execdir"; "-ok"; "-okdir"] = false).
  { apply not_true_is_false. intros Hm. apply mem_In in Hm. simpl in Hm.
    repeat (destruct Hm as [Hm|Hm]; [subst head; discriminate Hb|]).
    destruct Hm. }
  now rewrite Hm.
Qed.

Lemma extract_body_same_basename fs self head head' rest cwd home :
  PosixPath.basename head = PosixPath.basename head' ->
  extract_body fs self (head :: rest) cwd home
  = extract_body fs self (head' :: rest) cwd home.
Proof.
  intros Hb. unfold extract_body. rewrite <- Hb.
  destruct (mem _ WRAPPERS); [reflexivity|].
  destruct (mem _ SHELLS); [reflexivity|].
  destruct (_ =? "xargs"); [reflexivity|].
  destruct (String.eqb_spec (PosixPath.basename head) "find") as [Hf|_];
    [|reflexivity].
  rewrite (find_reasons_head head rest Hf).
  rewrite (find_reasons_head head' rest) by congruence.
  reflexivity.
Qed.

(** X11: a command is classified and analysed through the basename of
    its head alone: written with any directory in front, a command is
    tracked, and yields the paths and reasons, exactly as its bare name. *)
Theorem directory_prefix_is_ignored fs dir name rest cwd home :
  contains_char "/" name = false ->
  is_tracked ((dir ++ "/" ++ name) :: rest) = is_tracked (name :: rest) /\
  extract_rm_targets fs ((dir ++ "/" ++ name) :: rest) cwd home
  = extract_rm_targets fs (name :: rest) cwd home.
Proof.
  intros Hn.
  assert (Hb : PosixPath.basename (dir ++ "/" ++ name)
               = PosixPath.basename name)
    by now rewrite basename_after_slash, basename_no_slash.
  split.
  - cbn [is_tracked]. now rewrite Hb.
  - pose proof (extract_rm_targets_unfold fs cwd home
                  ((dir ++ "/" ++ name) :: rest)) as E1.
    pose proof (extract_rm_targets_unfold fs cwd home (name :: rest)) as E2.
    rewrite (extract_body_same_basename fs _ _ name rest cwd home Hb) in E1.
    congruence.
Qed.

(** [/opt/tools/rm -rf /etc] is analysed as [rm -rf /etc]. *)
Lemma directory_prefix_is_ignored_witness :
  contains_char "/" "rm" = false /\
  extract_rm_targets plain_fs ["/opt/tools/rm"; "-rf"; "/etc"]
                     "/home/u/project" "/home/u"
  = extract_rm_targets plain_fs ["rm"; "-rf"; "/etc"]
                       "/home/u/project" "/home/u".
Proof.
  split; [reflexivity|].
  exact (proj2 (directory_prefix_is_ignored plain_fs "/opt/tools" "rm"
                  ["-rf"; "/etc"] "/home/u/project" "/home/u" eq_refl)).
Defined.

(** ** Wrappers in front of wrappers *)

Lemma plain_wrapper_facts token :
  plain_wrapper token = true ->
  In (PosixPath.basename token) WRAPPERS /\
  startswith token "-" = false /\ contains_char "=" token = false.
Proof.
  unfold plain_wrapper. intros H.
  apply andb_true_iff in H. destruct H as [H He].
  apply andb_true_iff in H. destruct H as [Hw Hd].
  apply negb_true_iff in He. apply negb_true_iff in Hd.
  apply mem_In in Hw. auto.
Qed.

Lemma skip_wrapper_flags_stops cmd sub_start token rest :
  startswith token "-" = false ->
  contains_char "=" token = false ->
  skip_wrapper_flags cmd sub_start (token :: rest) = token :: rest.
Proof.
  intros Hd He. cbn [skip_wrapper_flags]. now rewrite Hd, He.
Qed.

Lemma extract_fuel_plain_wrapper fs cwd home depth wrapper token rest :
  In (PosixPath.basename wrapper) WRAPPERS ->
  startswith token "-" = false ->
  contains_char "=" token = false ->
  extract_fuel fs (S depth) cwd home (wrapper :: token :: rest)
  = extract_fuel fs depth cwd home (token :: rest).
Proof.
  intros Hw Hd He. apply wrapper_name in Hw.
  cbn [extract_fuel]. unfold extract_body at 1. rewrite Hw.
  now rewrite skip_wrapper_flags_stops.
Qed.

(** X12: wrappers compose within any bound on the depth of the
    recursion: a stack of wrappers written without flags costs one level
    of depth each and is otherwise transparent.  With as many levels as
    wrappers plus [depth], the analysis of the stack is the analysis of
    the command it runs with [depth] levels, the case where the bound is
    exceeded included. *)
Theorem wrapper_stack_is_transparent
        fs wrappers token rest cwd home depth :
  Forall (fun wrapper => plain_wrapper wrapper = true) wrappers ->
  startswith token "-" = false ->
  contains_char "=" token = false ->
  extract_fuel fs (List.length wrappers + depth) cwd home
               (wrappers ++ token :: rest)
  = extract_fuel fs depth cwd home (token :: rest).
Proof.
  intros Hw Hd He. induction Hw as [|wrapper wrappers Hp Hw IH];
    [reflexivity|].
  destruct (plain_wrapper_facts _ Hp) as (Hin & _ & _).
  cbn [app List.length Nat.add]. rewrite <- IH.
  destruct Hw as [|next wrappers Hn Hw]; cbn [app].
  - now apply extract_fuel_plain_wrapper.
  - destruct (plain_wrapper_facts _ Hn) as (_ & Hnd & Hne).
    now apply extract_fuel_plain_wrapper.
Qed.

(** [sudo env nice /usr/bin/nohup rm -rf /etc] is analysed as
    [rm -rf /etc] when the depth allows five calls, and not at all when
    it allows four. *)
Lemma wrapper_stack_is_transparent_witness :
  Forall (fun wrapper => plain_wrapper wrapper = true)
         ["sudo"; "env"; "nice"; "/usr/bin/nohup"] /\
  startswith "rm" "-" = false /\
  contains_char "=" "rm" = false /\
  extract_fuel plain_fs 5 "/home/u/project" "/home/u"
    (["sudo"; "env"; "nice"; "/usr/bin/nohup"] ++ "rm" :: ["-rf"; "/etc"])
  = Some (["/etc"], []) /\
  extract_fuel plain_fs 4 "/home/u/project" "/home/u"
    (["sudo"; "env"; "nice"; "/usr/bin/nohup"] ++ "rm" :: ["-rf"; "/etc"])
  = None.
Proof.
  assert (Hw : Forall (fun wrapper => plain_wrapper wrapper = true)
                      ["sudo"; "env"; "nice"; "/usr/bin/nohup"])
    by (repeat constructor).
  split; [exact Hw|]. split; [reflexivity|]. split; [reflexivity|].
  split.
  - exact (wrapper_stack_is_transparent plain_fs _ "rm" ["-rf"; "/etc"]
             "/home/u/project" "/home/u" 1 Hw eq_refl eq_refl).
  - exact (wrapper_stack_is_transparent plain_fs _ "rm" ["-rf"; "/etc"]
             "/home/u/project" "/home/u" 0 Hw eq_refl eq_refl).
Defined.

(** ** The recursion ends *)

(** X13: the recursion of [extract_rm_targets], through wrappers and
    through the strings handed to nested shells, is bounded by the number
    of characters of the tokens: with any larger bound on its depth it
    returns, and always the same result. *)
Theorem expander_recursion_is_bounded fs cwd home tokens fuel :
  total_length tokens < fuel ->
  extract_fuel fs fuel cwd home tokens
  = Some (extract_rm_targets fs tokens cwd home).
Proof.
  intros Hlt.
  destruct (extract_fuel_enough fs cwd home fuel tokens Hlt) as [r Hr].
  rewrite Hr. f_equal. symmetry. exact (extract_fuel_result _ _ _ _ _ _ Hr).
Qed.

(** Three levels of nesting in a command of 36 characters. *)
Lemma expander_recursion_is_bounded_witness :
  total_length ["bash"; "-c"; "sudo sh -c 'env rm -rf /etc'"] < 40 /\
  extract_fuel plain_fs 40 "/home/u/project" "/home/u"
               ["bash"; "-c"; "sudo sh -c 'env rm -rf /etc'"]
  = Some (["/etc"], []).
Proof.
  assert (Hlt : total_length ["bash"; "-c"; "sudo sh -c 'env rm -rf /etc'"]
                < 40) by (simpl; lia).
  split; [exact Hlt|].
  exact (expander_recursion_is_bounded plain_fs "/home/u/project" "/home/u"
           _ 40 Hlt).
Defined.

(** ** Paths as lists of components *)

Lemma split_slash_not_nil s : split_slash s <> [].
Proof.
  destruct s as [|c s]; cbn [split_slash]; [discriminate|].
  destruct (Ascii.eqb c "/"); [discriminate|].
  destruct (split_slash s); discriminate.
Qed.

Lemma split_slash_no_slash s :
  contains_char "/" s = false -> split_slash s = [s].
Proof.
  induction s as [|c s IH]; [reflexivity|].
  cbn [contains_char split_slash]. intros H.
  apply orb_false_iff in H. destruct H as [Hc Hs].
  rewrite Ascii.eqb_sym in Hc. rewrite Hc, (IH Hs). reflexivity.
Qed.

Lemma split_slash_app a b :
  split_slash (a ++ "/" ++ b) = (split_slash a ++ split_slash b)%list.
Proof.
  induction a as [|c a IH]; [reflexivity|].
  cbn [append split_slash]. change ("/" ++ b) with (String "/" b) in IH.
  destruct (Ascii.eqb c "/").
  - cbn [append] in IH. rewrite IH. reflexivity.
  - cbn [append] in IH. rewrite IH.
    pose proof (split_slash_not_nil a) as Hne.
    destruct (split_slash a) as [|h t]; [congruence | reflexivity].
Qed.

Lemma join_cons c comps :
  comps <> [] ->
  Py.join "/" (c :: comps) = c ++ "/" ++ Py.join "/" comps.
Proof. destruct comps; [congruence | reflexivity]. Qed.

Lemma join_app xs ys :
  xs <> [] -> ys <> [] ->
  Py.join "/" (xs ++ ys) = Py.join "/" xs ++ "/" ++ Py.join "/" ys.
Proof.
  intros Hx Hy. induction xs as [|x xs IH]; [congruence|].
  destruct xs as [|x' xs].
  - cbn [app]. now rewrite join_cons.
  - change ((x :: x' :: xs) ++ ys)%list with (x :: ((x' :: xs) ++ ys))%list.
    rewrite join_cons by (cbn [app]; discriminate).
    rewrite IH by discriminate.
    rewrite (join_cons x (x' :: xs)) by discriminate.
    now rewrite !append_assoc.
Qed.

Lemma split_join comps :
  comps <> [] ->
  Forall (fun c => contains_char "/" c = false) comps ->
  split_slash (Py.join "/" comps) = comps.
Proof.
  intros Hne Hall. induction Hall as [|c comps Hc Hall IH]; [congruence|].
  destruct comps as [|c' comps].
  - now apply split_slash_no_slash.
  - rewrite join_cons by discriminate. rewrite split_slash_app.
    rewrite (split_slash_no_slash _ Hc), IH by discriminate. reflexivity.
Qed.

Lemma plain_no_slash comps :
  Forall plain_component comps ->
  Forall (fun c => contains_char "/" c = false) comps.
Proof.
  intros H. eapply Forall_impl; [|exact H].
  intros c (_ & _ & _ & Hs). exact Hs.
Qed.

Lemma split_path_of comps :
  comps <> [] -> Forall plain_component comps ->
  split_slash (path_of comps) = EmptyString :: comps.
Proof.
  intros Hne Hall. unfold path_of, PosixPath.sep.
  change ("/" ++ Py.join "/" comps) with (String "/" (Py.join "/" comps)).
  cbn [split_slash]. change (Ascii.eqb "/" "/") with true. cbv iota.
  now rewrite split_join by (auto using plain_no_slash).
Qed.

Lemma normpath_step_plain slashes acc comp :
  plain_component comp ->
  PosixPath.normpath_step slashes acc comp = (acc ++ [comp])%list.
Proof.
  intros (He & Hd & Hdd & _). unfold PosixPath.normpath_step.
  apply String.eqb_neq in He, Hd, Hdd. now rewrite He, Hd, Hdd.
Qed.

Lemma fold_plain slashes comps : forall acc,
  Forall plain_component comps ->
  fold_left (PosixPath.normpath_step slashes) comps acc
  = (acc ++ comps)%list.
Proof.
  induction comps as [|c comps IH]; intros acc Hall.
  - now rewrite app_nil_r.
  - inversion Hall; subst. cbn [fold_left].
    rewrite normpath_step_plain by assumption.
    rewrite IH by assumption. now rewrite <- app_assoc.
Qed.

Lemma join_plain_head comps :
  Forall plain_component comps ->
  startswith (Py.join "/" comps) "/" = false.
Proof.
  intros Hall. destruct Hall as [|c comps (He & _ & _ & Hs) _];
    [reflexivity|].
  assert (H : startswith c "/" = false).
  { destruct c as [|x c]; [congruence|].
    cbn [contains_char] in Hs. apply orb_false_iff in Hs.
    cbn [startswith]. now rewrite (proj1 Hs). }
  destruct comps as [|c' comps]; [exact H|].
  rewrite join_cons by discriminate.
  destruct c as [|x c]; [congruence|]. exact H.
Qed.

Lemma initial_slashes_after_slash s :
  startswith s "/" = false ->
  PosixPath.initial_slashes ("/" ++ s) = 1.
Proof.
  intros H. unfold PosixPath.initial_slashes, PosixPath.sep.
  change ("/" ++ s) with (String "/" s).
  cbn [startswith]. change (Ascii.eqb "/" "/") with true.
  cbn [andb]. destruct s as [|x s]; [reflexivity|].
  cbn [startswith] in *. rewrite andb_true_r in H. rewrite H.
  reflexivity.
Qed.

(** Normalizing an absolute path whose first component is not empty:
    the components are folded from the root. *)
Lemma normpath_absolute s :
  startswith s "/" = false ->
  PosixPath.normpath ("/" ++ s)
  = path_of (fold_left (PosixPath.normpath_step 1) (split_slash s) []).
Proof.
  intros H. unfold PosixPath.normpath.
  rewrite (initial_slashes_after_slash _ H).
  change ("/" ++ s) with (String "/" s).
  cbn [is_empty split_slash]. change (Ascii.eqb "/" "/") with true.
  cbv iota. cbn [fold_left].
  change (PosixPath.normpath_step 1 [] EmptyString) with (@nil string).
  cbn [Nat.eqb PosixPath.repeat_sep]. unfold path_of, PosixPath.sep.
  rewrite append_empty_r. reflexivity.
Qed.

(** A path made of plain components is its own normal form. *)
Lemma normpath_path_of comps :
  Forall plain_component comps ->
  PosixPath.normpath (path_of comps) = path_of comps.
Proof.
  intros Hall. unfold path_of at 1. unfold PosixPath.sep.
  rewrite normpath_absolute by now apply join_plain_head.
  destruct comps as [|c comps]; [reflexivity|].
  rewrite split_join by (try discriminate; now apply plain_no_slash).
  now rewrite fold_plain.
Qed.

Lemma path_of_app dir rest :
  dir <> [] -> rest <> [] ->
  path_of (dir ++ rest) = path_of dir ++ "/" ++ Py.join "/" rest.
Proof.
  intros Hd Hr. unfold path_of, PosixPath.sep.
  rewrite join_app by assumption. now rewrite !append_assoc.
Qed.

Lemma path_of_injective ps ds :
  Forall plain_component ps -> Forall plain_component ds ->
  path_of ps = path_of ds -> ps = ds.
Proof.
  intros Hp Hd Heq.
  assert (Hs : split_slash (path_of ps) = split_slash (path_of ds))
    by now rewrite Heq.
  destruct ps as [|p ps], ds as [|d ds]; [reflexivity| | |].
  - rewrite (split_path_of (d :: ds)) in Hs by (try discriminate; assumption).
    inversion Hs as [[Hd0 Hnil]]. subst. inversion Hd as [|? ? (He & _) _].
    congruence.
  - rewrite (split_path_of (p :: ps)) in Hs by (try discriminate; assumption).
    inversion Hs as [[Hp0 Hnil]]. subst. inversion Hp as [|? ? (He & _) _].
    congruence.
  - rewrite !split_path_of in Hs by (try discriminate; assumption).
    now inversion Hs.
Qed.

(** ** Containment *)

Lemma within_iff_components_prefix path dir :
  Forall plain_component path ->
  Forall plain_component dir ->
  dir <> [] ->
  (is_path_within_directory (path_of path) (path_of dir) = true <->
   components_prefix dir path).
Proof.
  intros Hp Hd Hne. rewrite is_path_within_directory_iff.
  unfold inside_or_equal, components_prefix, PosixPath.sep.
  rewrite !normpath_path_of by assumption. split.
  - intros [Heq|[rest Heq]].
    + apply path_of_injective in Heq; [|assumption..].
      exists []. now rewrite app_nil_r.
    + assert (Hs : split_slash (path_of path)
                   = (split_slash (path_of dir) ++ split_slash rest)%list)
        by now rewrite Heq, split_slash_app.
      rewrite (split_path_of dir) in Hs by assumption.
      destruct path as [|p path].
      * exfalso. destruct dir as [|d dir]; [congruence|].
        change (split_slash (path_of [])) with [EmptyString; EmptyString]
          in Hs.
        cbn [app] in Hs. injection Hs as Hd0 _.
        inversion Hd as [|? ? (He & _) _]. congruence.
      * rewrite split_path_of in Hs by (try discriminate; assumption).
        inversion Hs as [Hs']. now exists (split_slash rest).
  - intros [rest ->]. destruct rest as [|r rest].
    + left. now rewrite app_nil_r.
    + right. exists (Py.join "/" (r :: rest)).
      now rewrite path_of_app by (try discriminate; assumption).
Qed.

(** [normpath] keeps a leading double slash. *)
Lemma normpath_double_slash comps :
  Forall plain_component comps ->
  PosixPath.normpath ("/" ++ path_of comps) = "/" ++ path_of comps.
Proof.
  intros Hp. pose proof (join_plain_head comps Hp) as Hh.
  unfold path_of, PosixPath.sep. unfold PosixPath.normpath.
  change ("/" ++ "/" ++ Py.join "/" comps)
    with (String "/" (String "/" (Py.join "/" comps))).
  assert (Hs : PosixPath.initial_slashes
                 (String "/" (String "/" (Py.join "/" comps))) = 2).
  { unfold PosixPath.initial_slashes, PosixPath.sep.
    cbn [startswith]. change (Ascii.eqb "/" "/") with true. cbn [andb].
    destruct (Py.join "/" comps) as [|c rest]; [reflexivity|].
    cbn [startswith] in Hh |- *. rewrite andb_true_r in Hh.
    now rewrite Hh. }
  rewrite Hs. cbn [is_empty split_slash].
  change (Ascii.eqb "/" "/") with true. cbv iota. cbn [fold_left].
  change (PosixPath.normpath_step 2 [] EmptyString) with (@nil string).
  cbn [Nat.eqb PosixPath.repeat_sep]. unfold PosixPath.sep.
  destruct comps as [|c comps]; [reflexivity|].
  rewrite split_join by (try discriminate; now apply plain_no_slash).
  rewrite fold_plain by exact Hp. reflexivity.
Qed.

Lemma within_double_slash path dir :
  Forall plain_component path ->
  Forall plain_component dir ->
  dir <> [] ->
  is_path_within_directory ("/" ++ path_of path) (path_of dir) = false.
Proof.
  intros Hp Hd Hne. apply is_path_within_directory_false.
  unfold inside_or_equal.
  rewrite normpath_double_slash, normpath_path_of by assumption.
  pose proof (join_plain_head dir Hd) as Hh.
  assert (Hj : exists c rest, Py.join "/" dir = String c rest).
  { destruct dir as [|d dir]; [congruence|].
    inversion Hd as [|? ? (He & _) _]; subst.
    destruct d as [|c d]; [congruence|].
    destruct dir; unfold Py.join; cbn [String.concat append]; eauto. }
  destruct Hj as (c & rest & Hj). rewrite Hj in Hh.
  cbn [startswith] in Hh. rewrite andb_true_r in Hh.
  apply Ascii.eqb_neq in Hh.
  unfold path_of, PosixPath.sep. rewrite Hj.
  intros [Heq|[more Heq]]; inversion Heq; congruence.
Qed.

Lemma within_root_double_slash path :
  Forall plain_component path ->
  is_path_within_directory ("/" ++ path_of path) "/" = true.
Proof.
  intros Hp. apply is_path_within_directory_iff. unfold inside_or_equal.
  rewrite normpath_double_slash by exact Hp.
  right. exists (Py.join "/" path). reflexivity.
Qed.

(** X14: for paths written as one slash followed by plain components
    joined by single slashes, containment is the prefix relation on
    components, below any working directory other than the root: a
    directory never contains a sibling whose name merely extends its
    own.  The same path written with a leading double slash, which
    [normpath] keeps, is outside every such directory. *)
Theorem containment_is_component_prefix path dir :
  Forall plain_component path ->
  Forall plain_component dir ->
  dir <> [] ->
  (is_path_within_directory (path_of path) (path_of dir) = true <->
   components_prefix dir path) /\
  is_path_within_directory ("/" ++ path_of path) (path_of dir) = false.
Proof.
  intros Hp Hd Hne. split.
  - exact (within_iff_components_prefix path dir Hp Hd Hne).
  - exact (within_double_slash path dir Hp Hd Hne).
Qed.

(** [/home/user] does not contain [/home/username], nor
    [//home/username]. *)
Lemma containment_is_component_prefix_witness :
  Forall plain_component ["home"; "username"] /\
  Forall plain_component ["home"; "user"] /\
  ["home"; "user"] <> [] /\
  ~ components_prefix ["home"; "user"] ["home"; "username"] /\
  is_path_within_directory "/home/username" "/home/user" = false /\
  is_path_within_directory "//home/username" "/home/user" = false.
Proof.
  assert (Hplain : forall c,
             c <> EmptyString -> c <> "." -> c <> ".." ->
             contains_char "/" c = false -> plain_component c)
    by (intros c H1 H2 H3 H4; repeat split; assumption).
  assert (Hp : Forall plain_component ["home"; "username"])
    by (repeat constructor; discriminate).
  assert (Hd : Forall plain_component ["home"; "user"])
    by (repeat constructor; discriminate).
  assert (Hne : ["home"; "user"] <> []) by discriminate.
  assert (Hn : ~ components_prefix ["home"; "user"] ["home"; "username"])
    by (intros [rest Heq]; discriminate Heq).
  split; [exact Hp|]. split; [exact Hd|]. split; [exact Hne|].
  split; [exact Hn|].
  pose proof (containment_is_component_prefix _ _ Hp Hd Hne)
    as [Hiff Hdouble].
  split; [|exact Hdouble].
  apply not_true_is_false. intros Hin. apply Hn.
  exact (proj1 Hiff Hin).
Defined.

Lemma within_root_iff path :
  Forall plain_component path ->
  (is_path_within_directory (path_of path) "/" = true <-> path = []).
Proof.
  intros Hp. rewrite is_path_within_directory_iff.
  unfold inside_or_equal, PosixPath.sep.
  rewrite normpath_path_of by assumption.
  change (PosixPath.normpath "/") with (path_of []). split.
  - intros [Heq|[rest Heq]].
    + now apply path_of_injective in Heq.
    + exfalso. unfold path_of, PosixPath.sep in Heq.
      cbn [Py.join String.concat append] in Heq.
      inversion Heq as [Hj].
      pose proof (join_plain_head _ Hp) as Hh.
      rewrite Hj in Hh. discriminate Hh.
  - intros ->. now left.
Qed.

(** X15: when the directory is the root, the test for descendants looks
    for a path that starts with two slashes: of the paths written with
    one leading slash only the root itself is inside, and every path
    written with a leading double slash is inside. *)
Theorem root_contains_double_slash_paths path :
  Forall plain_component path ->
  (is_path_within_directory (path_of path) "/" = true <-> path = []) /\
  is_path_within_directory ("/" ++ path_of path) "/" = true.
Proof.
  intros Hp. split.
  - exact (within_root_iff path Hp).
  - exact (within_root_double_slash path Hp).
Qed.

(** [/etc] is not inside [/], and [//etc] is. *)
Lemma root_contains_double_slash_paths_witness :
  Forall plain_component ["etc"] /\
  is_path_within_directory "/etc" "/" = false /\
  is_path_within_directory "//etc" "/" = true.
Proof.
  assert (Hp : Forall plain_component ["etc"])
    by (repeat constructor; discriminate).
  pose proof (root_contains_double_slash_paths ["etc"] Hp)
    as [Hiff Hdouble].
  split; [exact Hp|]. split; [|exact Hdouble].
  apply not_true_is_false. intros Hin.
  pose proof (proj1 Hiff Hin) as H.
  discriminate H.
Defined.

(** X16: containment is reflexive and transitive, whatever the spelling
    of the paths. *)
Theorem containment_is_a_preorder :
  (forall path, is_path_within_directory path path = true) /\
  (forall path middle dir,
      is_path_within_directory path middle = true ->
      is_path_within_directory middle dir = true ->
      is_path_within_directory path dir = true).
Proof.
  split.
  - intros path. apply is_path_within_directory_iff. now left.
  - intros path middle dir H1 H2.
    apply is_path_within_directory_iff in H1, H2.
    apply is_path_within_directory_iff.
    unfold inside_or_equal in *.
    destruct H1 as [H1|[r1 H1]]; rewrite H1.
    + exact H2.
    + destruct H2 as [H2|[r2 H2]]; rewrite H2.
      * right. now exists r1.
      * right. exists (r2 ++ PosixPath.sep ++ r1).
        now rewrite !append_assoc.
Qed.

(** [/home/u/project/src] is inside [/home/u], through
    [/home/u/project]. *)
Lemma containment_is_a_preorder_witness :
  is_path_within_directory "/home/u/project/src" "/home/u/project/" = true /\
  is_path_within_directory "/home/u/project/" "/home/u" = true /\
  is_path_within_directory "/home/u/project/src" "/home/u" = true.
Proof.
  split; [reflexivity|]. split; [reflexivity|].
  exact (proj2 containment_is_a_preorder
           "/home/u/project/src" "/home/u/project/" "/home/u"
           eq_refl eq_refl).
Defined.

(** ** The path resolver on absolute anchors *)

Lemma resolve_path_value fs path cwd home :
  free_of_patterns path ->
  other_user_home path = false ->
  resolve_path fs path cwd home
  = Some (real_if_exists fs
            (PosixPath.normpath
               (absolute_from cwd (expand_home home path)))).
Proof.
  intros Hfree Huser.
  unfold resolve_path. rewrite (free_of_patterns_existsb _ Hfree).
  unfold other_user_home in Huser. unfold expand_home, absolute_from.
  destruct (startswith path "~") eqn:Ht.
  - cbn [andb] in Huser. apply negb_false_iff in Huser. rewrite Huser.
    now destruct (PosixPath.isabs _).
  - assert (Hno : (path =? "~") || startswith path "~/" = false).
    { destruct path as [|c rest]; [reflexivity|].
      cbn [startswith] in *. rewrite andb_true_r in Ht.
      rewrite Ht. cbn [String.eqb]. rewrite Ascii.eqb_sym, Ht.
      reflexivity. }
    rewrite Hno. now destruct (PosixPath.isabs path).
Qed.

Lemma isabs_append a b :
  PosixPath.isabs a = true -> PosixPath.isabs (a ++ b) = true.
Proof.
  unfold PosixPath.isabs, PosixPath.sep.
  destruct a as [|c a]; [discriminate|]. cbn [append startswith].
  now rewrite !andb_true_r.
Qed.

Lemma isabs_join a b :
  PosixPath.isabs a = true -> PosixPath.isabs (PosixPath.join a b) = true.
Proof.
  intros Ha. unfold PosixPath.join.
  destruct (startswith b PosixPath.sep) eqn:Hb; [exact Hb|].
  destruct (is_empty a || endswith_char a "/"); now apply isabs_append.
Qed.

Lemma isabs_normpath path :
  PosixPath.isabs path = true ->
  PosixPath.isabs (PosixPath.normpath path) = true.
Proof.
  intros Ha. unfold PosixPath.normpath.
  assert (He : is_empty path = false)
    by (destruct path; [discriminate Ha|reflexivity]).
  rewrite He.
  assert (Hs : exists k, PosixPath.initial_slashes path = S k).
  { unfold PosixPath.initial_slashes. unfold PosixPath.isabs in Ha.
    rewrite Ha. destruct (_ && _); eauto. }
  destruct Hs as [k ->]. cbn [Nat.eqb PosixPath.repeat_sep].
  unfold PosixPath.sep. cbn [append is_empty]. reflexivity.
Qed.

(** X17: resolved paths are absolute: when the working directory and the
    home directory are absolute and the file system gives absolute real
    paths, every path [resolve_path] returns is absolute. *)
Theorem resolved_paths_are_absolute fs path cwd home resolved :
  PosixPath.isabs cwd = true ->
  PosixPath.isabs home = true ->
  (forall probed real,
      PosixPath.isabs probed = true ->
      fs_realpath fs probed = OsOk real ->
      PosixPath.isabs real = true) ->
  resolve_path fs path cwd home = Some resolved ->
  PosixPath.isabs resolved = true.
Proof.
  intros Hc Hh Hfs. unfold resolve_path.
  destruct (existsb _ UNRESOLVABLE_PATTERNS); [discriminate|].
  assert (Hfinal : forall p,
             PosixPath.isabs
               (if negb (PosixPath.isabs p) then PosixPath.join cwd p else p)
             = true).
  { intros p. destruct (PosixPath.isabs p) eqn:Hp; cbn [negb];
      [exact Hp | now apply isabs_join]. }
  assert (Hreal : forall p,
             PosixPath.isabs p = true ->
             PosixPath.isabs (real_if_exists fs p) = true).
  { intros p Hp. unfold real_if_exists.
    destruct (fs_exists fs p); [|exact Hp].
    destruct (fs_realpath fs p) as [real|text] eqn:Hr; [|exact Hp].
    now apply (Hfs p real). }
  destruct (startswith path "~").
  - destruct ((path =? "~") || startswith path "~/"); [|discriminate].
    intros H; inversion H; subst.
    apply Hreal, isabs_normpath.
    assert (Hx : PosixPath.isabs
                   (home ++ substring 1 (String.length path - 1) path)
                 = true) by now apply isabs_append.
    now rewrite Hx.
  - intros H; inversion H; subst.
    apply Hreal, isabs_normpath, Hfinal.
Qed.

Lemma resolved_paths_are_absolute_witness :
  PosixPath.isabs "/home/u/project" = true /\
  PosixPath.isabs "/home/u" = true /\
  (forall probed real,
      PosixPath.isabs probed = true ->
      fs_realpath plain_fs probed = OsOk real ->
      PosixPath.isabs real = true) /\
  resolve_path plain_fs "../../x" "/home/u/project" "/home/u"
  = Some "/home/x" /\
  PosixPath.isabs "/home/x" = true.
Proof.
  assert (Hfs : forall probed real,
             PosixPath.isabs probed = true ->
             fs_realpath plain_fs probed = OsOk real ->
             PosixPath.isabs real = true).
  { intros probed real Hp Hr. cbn [fs_realpath plain_fs] in Hr.
    inversion Hr; subst. now apply isabs_normpath. }
  assert (Hr : resolve_path plain_fs "../../x" "/home/u/project" "/home/u"
               = Some "/home/x") by reflexivity.
  split; [reflexivity|]. split; [reflexivity|]. split; [exact Hfs|].
  split; [exact Hr|].
  exact (resolved_paths_are_absolute plain_fs "../../x" "/home/u/project"
           "/home/u" "/home/x" eq_refl eq_refl Hfs Hr).
Defined.

(** ** Names as path arguments *)

Lemma pattern_starts_on_trigger pattern s :
  In pattern UNRESOLVABLE_PATTERNS ->
  pattern s = true ->
  exists c rest, s = String c rest /\ starts_a_pattern c = true.
Proof.
  intros Hin Hm. destruct s as [|c rest].
  - exfalso. simpl in Hin.
    repeat (destruct Hin as [<-|Hin]; [discriminate Hm|]). destruct Hin.
  - exists c, rest. split; [reflexivity|].
    destruct (starts_a_pattern c) eqn:Hc; [reflexivity|exfalso].
    unfold starts_a_pattern in Hc.
    repeat (apply orb_false_iff in Hc; destruct Hc as [Hc ?]).
    simpl in Hin.
    destruct Hin as [<-|[<-|[<-|[<-|[<-|[<-|[<-|[]]]]]]]].
    + unfold Re.lit in Hm. cbn [startswith] in Hm.
      rewrite Ascii.eqb_sym, Hc in Hm. discriminate Hm.
    + unfold Re.lit in Hm. cbn [startswith] in Hm.
      rewrite Ascii.eqb_sym, Hc in Hm. discriminate Hm.
    + unfold Re.backtick_span in Hm.
      match goal with H : Ascii.eqb c backtick = false |- _ =>
        rewrite H in Hm end. discriminate Hm.
    + assert (Hd : c <> "$"%char) by now apply Ascii.eqb_neq.
      unfold Re.dollar_name in Hm.
      destruct c as [[] [] [] [] [] [] [] []];
        try discriminate Hm; congruence.
    + unfold Re.lit in Hm. cbn [startswith] in Hm.
      match goal with H : Ascii.eqb c "*" = false |- _ =>
        rewrite Ascii.eqb_sym, H in Hm end. discriminate Hm.
    + unfold Re.lit in Hm. cbn [startswith] in Hm.
      match goal with H : Ascii.eqb c "?" = false |- _ =>
        rewrite Ascii.eqb_sym, H in Hm end. discriminate Hm.
    + match goal with H : Ascii.eqb c "[" = false |- _ =>
        apply Ascii.eqb_neq in H; rename H into Hb end.
      unfold Re.bracket_pair in Hm.
      destruct c as [[] [] [] [] [] [] [] []];
        try discriminate Hm; congruence.
Qed.

Lemma search_needs_trigger pattern s :
  In pattern UNRESOLVABLE_PATTERNS ->
  Re.search pattern s = true ->
  exists c, contains_char c s = true /\ starts_a_pattern c = true.
Proof.
  intros Hin. induction s as [|c s IH]; cbn [Re.search]; intros H.
  - rewrite orb_false_r in H.
    destruct (pattern_starts_on_trigger _ _ Hin H) as (x & r & Hx & _).
    discriminate Hx.
  - apply orb_true_iff in H. destruct H as [H|H].
    + destruct (pattern_starts_on_trigger _ _ Hin H) as (x & r & Hx & Ht).
      inversion Hx; subst. exists x. split; [|exact Ht].
      cbn [contains_char]. now rewrite Ascii.eqb_refl.
    + destruct (IH H) as (x & Hx & Ht). exists x. split; [|exact Ht].
      cbn [contains_char]. rewrite Hx. apply orb_true_r.
Qed.

(** A token without [$], backtick, [*], [?] and [[] matches no pattern. *)
Lemma free_of_patterns_safe s :
  (forall c, contains_char c s = true -> starts_a_pattern c = false) ->
  free_of_patterns s.
Proof.
  intros Hsafe. unfold free_of_patterns. apply Forall_forall.
  intros pattern Hin. apply not_true_is_false. intros Hs.
  destruct (search_needs_trigger _ _ Hin Hs) as (c & Hc & Ht).
  rewrite (Hsafe c Hc) in Ht. discriminate Ht.
Qed.

Lemma name_char_facts c :
  is_name_char c = true ->
  starts_a_pattern c = false /\ Ascii.eqb c "/" = false /\
  Ascii.eqb c "~" = false /\ Ascii.eqb c "-" = false /\
  Ascii.eqb c "." = false.
Proof.
  destruct c as [[] [] [] [] [] [] [] []]; intros H;
    try discriminate H; repeat split; reflexivity.
Qed.

Lemma name_first_char name :
  is_name name ->
  exists c rest, name = String c rest /\ is_name_char c = true.
Proof.
  intros [Hne Hn]. destruct name as [|c rest]; [congruence|].
  exists c, rest. split; [reflexivity|].
  apply Hn. cbn [contains_char]. now rewrite Ascii.eqb_refl.
Qed.

Lemma name_no_slash name :
  is_name name -> contains_char "/" name = false.
Proof.
  intros [_ Hn]. apply not_true_is_false. intros H.
  specialize (Hn _ H). discriminate Hn.
Qed.

Lemma name_is_plain name : is_name name -> plain_component name.
Proof.
  intros Hname. pose proof (name_no_slash _ Hname) as Hs.
  destruct (name_first_char _ Hname) as (c & rest & -> & Hc).
  destruct (name_char_facts _ Hc) as (_ & _ & _ & _ & Hdot).
  apply Ascii.eqb_neq in Hdot.
  repeat split; try discriminate; try assumption;
    intros H; inversion H; congruence.
Qed.

Lemma name_is_free name : is_name name -> free_of_patterns name.
Proof.
  intros [_ Hn]. apply free_of_patterns_safe.
  intros c Hc. now apply name_char_facts, Hn.
Qed.

Lemma name_is_operand name :
  is_name name ->
  is_rm_option name = false /\ name <> "--" /\
  other_user_home name = false /\ PosixPath.isabs name = false /\
  (name =? "~") || startswith name "~/" = false.
Proof.
  intros Hname.
  destruct (name_first_char _ Hname) as (c & rest & -> & Hc).
  destruct (name_char_facts _ Hc) as (_ & Hsl & Hti & Hda & _).
  assert (Hda' : Ascii.eqb "-" c = false)
    by (rewrite Ascii.eqb_sym; exact Hda).
  assert (Hti' : Ascii.eqb "~" c = false)
    by (rewrite Ascii.eqb_sym; exact Hti).
  assert (Hsl' : Ascii.eqb "/" c = false)
    by (rewrite Ascii.eqb_sym; exact Hsl).
  unfold is_rm_option, other_user_home, PosixPath.isabs, PosixPath.sep.
  cbn [startswith String.eqb].
  rewrite ?Hda, ?Hda', ?Hti, ?Hti', ?Hsl, ?Hsl'.
  cbn [andb orb negb].
  repeat split; try reflexivity; try apply andb_false_r.
  intros H. inversion H. subst. discriminate Hda.
Qed.

Lemma dotdot_name_is_free name :
  is_name name -> free_of_patterns ("../" ++ name).
Proof.
  intros [_ Hn]. apply free_of_patterns_safe.
  intros c Hc. cbn [append contains_char] in Hc.
  apply orb_true_iff in Hc. destruct Hc as [Hc|Hc];
    [apply Ascii.eqb_eq in Hc; subst; reflexivity|].
  apply orb_true_iff in Hc. destruct Hc as [Hc|Hc];
    [apply Ascii.eqb_eq in Hc; subst; reflexivity|].
  apply orb_true_iff in Hc. destruct Hc as [Hc|Hc];
    [apply Ascii.eqb_eq in Hc; subst; reflexivity|].
  now apply name_char_facts, Hn.
Qed.

(** ** One deletion with one path argument *)

Lemma endswith_contains c s :
  endswith_char s c = true -> contains_char c s = true.
Proof.
  induction s as [|d s IH]; [discriminate|].
  cbn [endswith_char contains_char]. destruct s as [|e s].
  - intros ->. reflexivity.
  - intros H. rewrite (IH H). apply orb_true_r.
Qed.

Lemma endswith_append a b c :
  b <> EmptyString ->
  endswith_char (a ++ b) c = endswith_char b c.
Proof.
  intros Hb. induction a as [|d a IH]; [reflexivity|].
  cbn [append endswith_char]. destruct (a ++ b) eqn:Hab.
  - destruct a; [cbn in Hab; congruence|discriminate Hab].
  - exact IH.
Qed.

Lemma path_of_never_ends_in_slash comps :
  Forall plain_component comps -> comps <> [] ->
  endswith_char (path_of comps) "/" = false /\
  is_empty (path_of comps) = false.
Proof.
  intros Hp Hne. split; [|reflexivity].
  destruct (exists_last Hne) as (front & x & ->).
  apply Forall_app in Hp. destruct Hp as [_ Hx].
  inversion Hx as [|? ? (Hx0 & _ & _ & Hxs) _]; subst.
  assert (He : endswith_char x "/" = false).
  { apply not_true_is_false. intros H.
    apply endswith_contains in H. congruence. }
  destruct front as [|f front].
  - transitivity (endswith_char x "/"); [|exact He].
    exact (endswith_append "/" x "/" Hx0).
  - rewrite path_of_app by discriminate.
    change (Py.join "/" [x]) with x.
    transitivity (endswith_char x "/"); [|exact He].
    rewrite (endswith_append (path_of (f :: front)) ("/" ++ x) "/")
      by discriminate.
    exact (endswith_append "/" x "/" Hx0).
Qed.

(** Text appended to a normalized directory after a slash and
    normalized again: its components are folded onto those of the
    directory. *)
Lemma normpath_under comps rel :
  Forall plain_component comps -> comps <> [] ->
  PosixPath.normpath (path_of comps ++ "/" ++ rel)
  = path_of (fold_left (PosixPath.normpath_step 1) (split_slash rel) comps).
Proof.
  intros Hp Hne.
  unfold path_of, PosixPath.sep.
  rewrite append_assoc.
  rewrite normpath_absolute.
  - rewrite split_slash_app, fold_left_app.
    rewrite split_join; [|exact Hne|].
    + now rewrite (fold_plain 1 comps []) by exact Hp.
    + eapply Forall_impl; [|exact Hp]. now intros c (_ & _ & _ & H).
  - destruct comps as [|c comps]; [congruence|].
    pose proof (join_plain_head (c :: comps) Hp) as Hh.
    destruct (Py.join "/" (c :: comps)) eqn:Hj.
    + exfalso. inversion Hp as [|? ? (Hc & _) _]; subst.
      unfold Py.join in Hj. cbn [String.concat] in Hj.
      destruct comps; [congruence|].
      destruct c; [congruence|discriminate Hj].
    + exact Hh.
Qed.

(** A relative path joined onto a normalized directory and normalized
    again. *)
Lemma normpath_below comps rel :
  Forall plain_component comps -> comps <> [] ->
  startswith rel "/" = false ->
  PosixPath.normpath (PosixPath.join (path_of comps) rel)
  = path_of (fold_left (PosixPath.normpath_step 1) (split_slash rel) comps).
Proof.
  intros Hp Hne Hrel.
  destruct (path_of_never_ends_in_slash comps Hp Hne) as [He Hi].
  unfold PosixPath.join, PosixPath.sep. rewrite Hrel, Hi, He.
  cbn [orb]. now apply normpath_under.
Qed.

Lemma normpath_below_root rel :
  startswith rel "/" = false ->
  PosixPath.normpath (PosixPath.join "/" rel)
  = path_of (fold_left (PosixPath.normpath_step 1) (split_slash rel) []).
Proof.
  intros Hrel. unfold PosixPath.join, PosixPath.sep. rewrite Hrel.
  cbn [is_empty endswith_char Ascii.eqb orb]. cbv beta iota.
  now apply normpath_absolute.
Qed.

Lemma split_slash_name name :
  is_name name -> split_slash name = [name].
Proof. intros H. apply split_slash_no_slash. now apply name_no_slash. Qed.

Lemma last_plain_not_dotdot comps :
  Forall plain_component comps -> comps <> [] ->
  (last comps "" =? "..") = false.
Proof.
  intros Hp Hne. destruct (exists_last Hne) as (front & x & ->).
  rewrite last_last. apply Forall_app in Hp. destruct Hp as [_ Hx].
  inversion Hx as [|? ? (_ & _ & Hdd & _) _]; subst.
  now apply String.eqb_neq.
Qed.

Lemma skip_rm_options_prefix options rest :
  Forall (fun token => is_rm_option token = true) options ->
  skip_rm_options (options ++ rest)%list = skip_rm_options rest.
Proof.
  induction 1 as [|token options Ht _ IH]; [reflexivity|].
  cbn [app]. now rewrite skip_rm_options_option.
Qed.

Section One_deletion.
Variable fs : FileSystem.
Variables cwd home abs_cwd : string.

(** The verdict on a line made of one deletion command, its options and
    one path. *)
Lemma check_one_path command head options arg :
  parse_command_tokens command = Some [head :: options ++ [arg]]%list ->
  is_deletion (PosixPath.basename head) = true ->
  Forall (fun token => is_rm_option token = true) options ->
  is_rm_option arg = false -> arg <> "--" ->
  free_of_patterns arg -> other_user_home arg = false ->
  let target :=
    real_if_exists fs
      (PosixPath.normpath (absolute_from cwd (expand_home home arg))) in
  check_command fs command cwd home abs_cwd
  = if is_path_within_directory target abs_cwd then None
    else Some (outside_message target abs_cwd command).
Proof.
  intros Hparse Hdel Hopts Hopt Hdd Hfree Hother target.
  assert (Hacc : accumulate fs [head :: options ++ [arg]]%list cwd home
                 = ([target], [])).
  { rewrite accumulate_cons. cbn [accumulate fst snd].
    rewrite extract_deletion by exact Hdel.
    rewrite skip_rm_options_prefix by exact Hopts.
    rewrite skip_rm_options_operand by assumption.
    cbn [resolve_all].
    rewrite resolve_path_value by assumption. reflexivity. }
  rewrite (check_command_cases fs command cwd home abs_cwd _ _ _
             Hparse Hacc).
  cbn [find]. now destruct (is_path_within_directory target abs_cwd).
Qed.

End One_deletion.

(** Where the path arguments [NAME], [../NAME], [.] and an absolute path
    lead from a normalized working directory. *)
Lemma target_of_name comps home name :
  Forall plain_component comps -> is_name name ->
  PosixPath.normpath
    (absolute_from (path_of comps) (expand_home home name))
  = path_of (comps ++ [name]).
Proof.
  intros Hp Hname.
  destruct (name_is_operand name Hname) as (_ & _ & _ & Habs & Hti).
  unfold expand_home, absolute_from. rewrite Hti, Habs.
  assert (Hfold : fold_left (PosixPath.normpath_step 1)
                            (split_slash name) comps
                  = (comps ++ [name])%list).
  { rewrite split_slash_name by exact Hname.
    apply fold_plain. constructor; [now apply name_is_plain|constructor]. }
  destruct comps as [|c comps].
  - change (path_of []) with "/". rewrite normpath_below_root by exact Habs.
    now rewrite Hfold.
  - rewrite normpath_below by (exact Hp || discriminate || exact Habs).
    now rewrite Hfold.
Qed.

Lemma target_of_dotdot_name comps home name :
  Forall plain_component comps -> comps <> [] -> is_name name ->
  PosixPath.normpath
    (absolute_from (path_of comps) (expand_home home ("../" ++ name)))
  = path_of (removelast comps ++ [name]).
Proof.
  intros Hp Hne Hname.
  change (expand_home home ("../" ++ name)) with ("../" ++ name).
  change (absolute_from (path_of comps) ("../" ++ name))
    with (PosixPath.join (path_of comps) ("../" ++ name)).
  rewrite normpath_below by (exact Hp || exact Hne || reflexivity).
  change ("../" ++ name) with (".." ++ "/" ++ name).
  rewrite split_slash_app, (split_slash_name name) by exact Hname.
  change (split_slash "..") with [".."]. cbn [app fold_left].
  assert (Hup : PosixPath.normpath_step 1 comps ".." = removelast comps).
  { unfold PosixPath.normpath_step.
    rewrite (last_plain_not_dotdot comps Hp Hne).
    destruct comps; [congruence|reflexivity]. }
  rewrite Hup.
  apply f_equal.
  apply (fold_plain 1 [name] (removelast comps)).
  constructor; [now apply name_is_plain|constructor].
Qed.

Lemma target_of_dot comps home :
  Forall plain_component comps ->
  PosixPath.normpath (absolute_from (path_of comps) (expand_home home "."))
  = path_of comps.
Proof.
  intros Hp.
  change (expand_home home ".") with ".".
  change (absolute_from (path_of comps) ".")
    with (PosixPath.join (path_of comps) ".").
  destruct comps as [|c comps]; [reflexivity|].
  now rewrite normpath_below by (exact Hp || discriminate || reflexivity).
Qed.

Lemma target_of_absolute cwd home comps :
  Forall plain_component comps ->
  PosixPath.normpath (absolute_from cwd (expand_home home (path_of comps)))
  = path_of comps.
Proof.
  intros Hp.
  change (expand_home home (path_of comps)) with (path_of comps).
  change (absolute_from cwd (path_of comps)) with (path_of comps).
  now apply normpath_path_of.
Qed.

Lemma plain_snoc comps name :
  Forall plain_component comps -> is_name name ->
  Forall plain_component (comps ++ [name]).
Proof.
  intros Hp Hname. apply Forall_app. split; [exact Hp|].
  constructor; [now apply name_is_plain|constructor].
Qed.

Lemma plain_removelast comps :
  Forall plain_component comps -> Forall plain_component (removelast comps).
Proof.
  intros Hp. destruct comps as [|c comps]; [constructor|].
  assert (Hne : c :: comps <> []) by discriminate.
  rewrite (app_removelast_last "" Hne) in Hp.
  now apply Forall_app in Hp.
Qed.

Lemma sibling_is_no_descendant comps name :
  comps <> [] -> name <> last comps "" ->
  ~ components_prefix comps (removelast comps ++ [name]).
Proof.
  intros Hne Hname [rest Hrest].
  rewrite (app_removelast_last "" Hne) in Hrest at 2.
  rewrite <- app_assoc in Hrest. apply app_inv_head in Hrest.
  cbn [app] in Hrest. congruence.
Qed.

(** ** Verdicts on one deletion, by the shape of its path argument *)

Lemma within_iff_contains path dir :
  Forall plain_component path ->
  Forall plain_component dir ->
  (is_path_within_directory (path_of path) (path_of dir) = true <->
   directory_contains dir path).
Proof.
  intros Hp Hd. unfold directory_contains. destruct dir as [|d dir].
  - change (path_of []) with "/". rewrite (within_root_iff path Hp).
    split.
    + intros ->. split; [now exists []|reflexivity].
    + intros [_ H]. now apply H.
  - rewrite (within_iff_components_prefix path (d :: dir) Hp Hd)
      by discriminate.
    split; [intros H; split; [exact H|discriminate]|now intros [H _]].
Qed.

(** The verdict on one deletion whose path argument resolves to a
    normalized path, against a normalized real working directory. *)
Lemma one_target_verdict
      fs command cwd home head options arg target dir :
  parse_command_tokens command = Some [head :: options ++ [arg]]%list ->
  is_deletion (PosixPath.basename head) = true ->
  Forall (fun token => is_rm_option token = true) options ->
  is_rm_option arg = false -> arg <> "--" ->
  free_of_patterns arg -> other_user_home arg = false ->
  real_if_exists fs
    (PosixPath.normpath (absolute_from cwd (expand_home home arg)))
  = path_of target ->
  Forall plain_component target ->
  Forall plain_component dir ->
  (check_command fs command cwd home (path_of dir) = None <->
   directory_contains dir target) /\
  (~ directory_contains dir target ->
   check_command fs command cwd home (path_of dir)
   = Some (outside_message (path_of target) (path_of dir) command)).
Proof.
  intros Hparse Hdel Hopts Hopt Hdd Hfree Hother Hreal Hpt Hpd.
  rewrite (check_one_path fs cwd home (path_of dir) command head options
             arg Hparse Hdel Hopts Hopt Hdd Hfree Hother).
  cbv zeta. rewrite Hreal.
  rewrite <- (within_iff_contains target dir Hpt Hpd).
  destruct (is_path_within_directory (path_of target) (path_of dir));
    split; try split; congruence.
Qed.

(** X18: for a line made of one deletion command, its options and one
    absolute path, written as one slash followed by plain components,
    that is its own real path or does not exist, the verdict is the test
    on components against the real working directory: allowed exactly
    when the path is the working directory, or lies below a working
    directory other than the root; blocked otherwise, the diagnostic
    naming the path. *)
Theorem absolute_target_verdict fs command head options target dir cwd home :
  parse_command_tokens command
  = Some [head :: options ++ [path_of target]]%list ->
  is_deletion (PosixPath.basename head) = true ->
  Forall (fun token => is_rm_option token = true) options ->
  free_of_patterns (path_of target) ->
  Forall plain_component target ->
  Forall plain_component dir ->
  real_if_exists fs (path_of target) = path_of target ->
  (check_command fs command cwd home (path_of dir) = None <->
   directory_contains dir target) /\
  (~ directory_contains dir target ->
   check_command fs command cwd home (path_of dir)
   = Some (outside_message (path_of target) (path_of dir) command)).
Proof.
  intros Hparse Hdel Hopts Hfree Hpt Hpd Hreal.
  apply (one_target_verdict fs command cwd home head options
           (path_of target) target dir Hparse Hdel Hopts);
    try assumption; try reflexivity; try discriminate.
  now rewrite target_of_absolute, Hreal by exact Hpt.
Qed.

(** [/home/username/notes] is outside [/home/user], and [/etc] is
    outside the root. *)
Lemma absolute_target_verdict_witness :
  check_command plain_fs "rm -rf /home/username/notes" "/home/user" "/home/u"
                "/home/user"
  = Some (outside_message "/home/username/notes" "/home/user"
                          "rm -rf /home/username/notes") /\
  check_command plain_fs "rm -rf /etc" "/" "/home/u" "/"
  = Some (outside_message "/etc" "/" "rm -rf /etc").
Proof.
  assert (Hpt : Forall plain_component ["home"; "username"; "notes"])
    by literal_is_plain.
  assert (Hpd : Forall plain_component ["home"; "user"])
    by literal_is_plain.
  assert (Hpe : Forall plain_component ["etc"]) by literal_is_plain.
  assert (Hfree : free_of_patterns (path_of ["home"; "username"; "notes"]))
    by (repeat constructor).
  assert (Hfe : free_of_patterns (path_of ["etc"]))
    by (repeat constructor).
  assert (Hopts : Forall (fun token => is_rm_option token = true) ["-rf"])
    by (repeat constructor).
  assert (Hout : ~ directory_contains ["home"; "user"]
                   ["home"; "username"; "notes"])
    by (intros [[rest Hrest] _]; discriminate Hrest).
  assert (Hroot : ~ directory_contains [] ["etc"])
    by (intros [_ Hnil]; discriminate (Hnil eq_refl)).
  split.
  - exact (proj2 (absolute_target_verdict plain_fs
                    "rm -rf /home/username/notes" "rm" ["-rf"]
                    ["home"; "username"; "notes"] ["home"; "user"]
                    "/home/user" "/home/u"
                    eq_refl eq_refl Hopts Hfree Hpt Hpd eq_refl) Hout).
  - exact (proj2 (absolute_target_verdict plain_fs
                    "rm -rf /etc" "rm" ["-rf"] ["etc"] [] "/" "/home/u"
                    eq_refl eq_refl Hopts Hfe Hpe (Forall_nil _) eq_refl)
             Hroot).
Defined.



(** X20: a deletion of [../NAME] from a working directory other than
    the root targets the sibling [NAME] of the working directory as
    given, when that path does not exist or is its own real path: the
    line is allowed exactly when the real working directory contains the
    sibling.  So from a working directory that is its own real path it is
    blocked, the diagnostic naming the sibling, unless [NAME] is the
    directory's own name. *)
Theorem parent_traversal_verdict
        fs command head options name dir real_dir home :
  parse_command_tokens command
  = Some [head :: options ++ [("../" ++ name)%string]]%list ->
  is_deletion (PosixPath.basename head) = true ->
  Forall (fun token => is_rm_option token = true) options ->
  is_name name ->
  Forall plain_component dir -> dir <> [] ->
  Forall plain_component real_dir ->
  real_if_exists fs (path_of (removelast dir ++ [name]))
  = path_of (removelast dir ++ [name]) ->
  (check_command fs command (path_of dir) home (path_of real_dir) = None <->
   directory_contains real_dir (removelast dir ++ [name])) /\
  (~ directory_contains real_dir (removelast dir ++ [name]) ->
   check_command fs command (path_of dir) home (path_of real_dir)
   = Some (outside_message (path_of (removelast dir ++ [name]))
                           (path_of real_dir) command)) /\
  (name <> last dir "" ->
   check_command fs command (path_of dir) home (path_of dir)
   = Some (outside_message (path_of (removelast dir ++ [name]))
                           (path_of dir) command)).
Proof.
  intros Hparse Hdel Hopts Hname Hpd Hne Hpr Hreal.
  assert (Htarget :
    real_if_exists fs
      (PosixPath.normpath
         (absolute_from (path_of dir) (expand_home home ("../" ++ name))))
    = path_of (removelast dir ++ [name]))
    by now rewrite target_of_dotdot_name, Hreal.
  assert (Hpt : Forall plain_component (removelast dir ++ [name]))
    by (apply plain_snoc; [now apply plain_removelast|exact Hname]).
  assert (Hverdict : forall base,
    Forall plain_component base ->
    (check_command fs command (path_of dir) home (path_of base) = None <->
     directory_contains base (removelast dir ++ [name])) /\
    (~ directory_contains base (removelast dir ++ [name]) ->
     check_command fs command (path_of dir) home (path_of base)
     = Some (outside_message (path_of (removelast dir ++ [name]))
                             (path_of base) command))).
  { intros base Hpb.
    apply (one_target_verdict fs command (path_of dir) home head options
             ("../" ++ name) (removelast dir ++ [name]) base
             Hparse Hdel Hopts);
      try assumption; try reflexivity; try discriminate.
    now apply dotdot_name_is_free. }
  split; [exact (proj1 (Hverdict real_dir Hpr))|].
  split; [exact (proj2 (Hverdict real_dir Hpr))|].
  intros Hlast. apply (proj2 (Hverdict dir Hpd)).
  intros [Hprefix _].
  now apply (sibling_is_no_descendant dir name Hne Hlast).
Qed.

(** [rm -rf ../other] is blocked from [/home/u/project]; [rm -rf
    ../project] from [/home/u/link], a link to [/home/u/project], is
    allowed. *)
Lemma parent_traversal_verdict_witness :
  check_command plain_fs "rm -rf ../other" "/home/u/project" "/home/u"
                "/home/u/project"
  = Some (outside_message "/home/u/other" "/home/u/project"
                          "rm -rf ../other") /\
  check_command plain_fs "rm -rf ../project" "/home/u/link" "/home/u"
                "/home/u/project" = None.
Proof.
  assert (Hother : is_name "other") by literal_is_name.
  assert (Hproject : is_name "project") by literal_is_name.
  assert (Hpd : Forall plain_component ["home"; "u"; "project"])
    by literal_is_plain.
  assert (Hpl : Forall plain_component ["home"; "u"; "link"])
    by literal_is_plain.
  assert (Hopts : Forall (fun token => is_rm_option token = true) ["-rf"])
    by (repeat constructor).
  assert (Hne : ["home"; "u"; "project"] <> []) by discriminate.
  assert (Hnl : ["home"; "u"; "link"] <> []) by discriminate.
  assert (Hlast : "other" <> last ["home"; "u"; "project"] "")
    by discriminate.
  assert (Hin : directory_contains ["home"; "u"; "project"]
                  (removelast ["home"; "u"; "link"] ++ ["project"]))
    by (split; [now exists []|discriminate]).
  split.
  - exact (proj2 (proj2 (parent_traversal_verdict plain_fs
                           "rm -rf ../other" "rm" ["-rf"] "other"
                           ["home"; "u"; "project"] ["home"; "u"; "project"]
                           "/home/u" eq_refl eq_refl Hopts Hother Hpd Hne
                           Hpd eq_refl)) Hlast).
  - exact (proj2 (proj1 (parent_traversal_verdict plain_fs
                           "rm -rf ../project" "rm" ["-rf"] "project"
                           ["home"; "u"; "link"] ["home"; "u"; "project"]
                           "/home/u" eq_refl eq_refl Hopts Hproject Hpl Hnl
                           Hpd eq_refl)) Hin).
Defined.

(** X21: the working directory itself, written [.], is an accepted
    target: a deletion of [.] is allowed from every normalized working
    directory that is its own real path, the root included. *)
Theorem working_directory_itself_allowed fs command head options dir home :
  parse_command_tokens command = Some [head :: options ++ ["."]]%list ->
  is_deletion (PosixPath.basename head) = true ->
  Forall (fun token => is_rm_option token = true) options ->
  Forall plain_component dir ->
  real_if_exists fs (path_of dir) = path_of dir ->
  check_command fs command (path_of dir) home (path_of dir) = None.
Proof.
  intros Hparse Hdel Hopts Hpd Hreal.
  rewrite (check_one_path fs (path_of dir) home (path_of dir) command head
             options "." Hparse Hdel Hopts)
    by first [reflexivity | discriminate | repeat constructor].
  cbv zeta. rewrite target_of_dot, Hreal by exact Hpd.
  assert (Hin : is_path_within_directory (path_of dir) (path_of dir) = true)
    by (apply is_path_within_directory_iff; now left).
  now rewrite Hin.
Qed.

Lemma working_directory_itself_allowed_witness :
  check_command plain_fs "rm -rf ." "/home/u/project" "/home/u"
                "/home/u/project" = None.
Proof.
  assert (Hpd : Forall plain_component ["home"; "u"; "project"])
    by literal_is_plain.
  assert (Hopts : Forall (fun token => is_rm_option token = true) ["-rf"])
    by (repeat constructor).
  exact (working_directory_itself_allowed plain_fs "rm -rf ." "rm" ["-rf"]
           ["home"; "u"; "project"] "/home/u"
           eq_refl eq_refl Hopts Hpd eq_refl).
Defined.

(** X22: with the root as working directory, a deletion of a named
    entry is judged by the real path of [/NAME], the path itself when it
    does not exist or is no link: the line is blocked, the diagnostic
    naming that real path, unless the real path is the root itself. *)
Theorem entries_of_the_root_are_blocked
        fs command head options name real home :
  parse_command_tokens command = Some [head :: options ++ [name]]%list ->
  is_deletion (PosixPath.basename head) = true ->
  Forall (fun token => is_rm_option token = true) options ->
  is_name name ->
  real_if_exists fs ("/" ++ name) = path_of real ->
  Forall plain_component real ->
  (check_command fs command "/" home "/" = None <-> real = []) /\
  (real <> [] ->
   check_command fs command "/" home "/"
   = Some (outside_message (path_of real) "/" command)).
Proof.
  intros Hparse Hdel Hopts Hname Hreal Hpr.
  destruct (name_is_operand name Hname) as (Hopt & Hdd & Hother & _ & _).
  assert (Htarget :
    real_if_exists fs
      (PosixPath.normpath (absolute_from "/" (expand_home home name)))
    = path_of real).
  { rewrite <- Hreal. apply f_equal.
    exact (target_of_name [] home name (Forall_nil _) Hname). }
  destruct (one_target_verdict fs command "/" home head options name
              real [] Hparse Hdel Hopts Hopt Hdd
              (name_is_free name Hname) Hother Htarget Hpr (Forall_nil _))
    as [Hiff Hblock].
  assert (Hroot : directory_contains [] real <-> real = []).
  { split; [intros [_ H]; now apply H|].
    intros ->. split; [now exists []|reflexivity]. }
  split.
  - now rewrite <- Hroot.
  - intros Hne. apply Hblock. now rewrite Hroot.
Qed.

(** From the root, [rm -rf tmp] is blocked with target [/tmp]; where
    [/link] is a link to [/etc], [rm -rf link] is blocked with target
    [/etc]. *)
Lemma entries_of_the_root_are_blocked_witness :
  check_command plain_fs "rm -rf tmp" "/" "/home/u" "/"
  = Some (outside_message "/tmp" "/" "rm -rf tmp") /\
  check_command root_link_fs "rm -rf link" "/" "/home/u" "/"
  = Some (outside_message "/etc" "/" "rm -rf link").
Proof.
  assert (Htmp : is_name "tmp") by literal_is_name.
  assert (Hlink : is_name "link") by literal_is_name.
  assert (Hopts : Forall (fun token => is_rm_option token = true) ["-rf"])
    by (repeat constructor).
  assert (Hpt : Forall plain_component ["tmp"]) by literal_is_plain.
  assert (Hpe : Forall plain_component ["etc"]) by literal_is_plain.
  assert (Hnt : ["tmp"] <> []) by discriminate.
  assert (Hnetc : ["etc"] <> []) by discriminate.
  split.
  - exact (proj2 (entries_of_the_root_are_blocked plain_fs "rm -rf tmp"
                    "rm" ["-rf"] "tmp" ["tmp"] "/home/u"
                    eq_refl eq_refl Hopts Htmp eq_refl Hpt) Hnt).
  - exact (proj2 (entries_of_the_root_are_blocked root_link_fs
                    "rm -rf link" "rm" ["-rf"] "link" ["etc"] "/home/u"
                    eq_refl eq_refl Hopts Hlink eq_refl Hpe) Hnetc).
Defined.

(** X23: an existing entry [NAME] of the working directory is judged by
    its real path against the real working directory: the line is
    allowed exactly when the real working directory contains the real
    path, and is blocked otherwise, the diagnostic naming the real
    path. *)
Theorem existing_entry_is_judged_by_real_path
        fs command head options name dir real_dir real home :
  parse_command_tokens command = Some [head :: options ++ [name]]%list ->
  is_deletion (PosixPath.basename head) = true ->
  Forall (fun token => is_rm_option token = true) options ->
  is_name name ->
  Forall plain_component dir ->
  Forall plain_component real_dir ->
  fs_exists fs (path_of (dir ++ [name])) = true ->
  fs_realpath fs (path_of (dir ++ [name])) = OsOk (path_of real) ->
  Forall plain_component real ->
  (check_command fs command (path_of dir) home (path_of real_dir) = None <->
   directory_contains real_dir real) /\
  (~ directory_contains real_dir real ->
   check_command fs command (path_of dir) home (path_of real_dir)
   = Some (outside_message (path_of real) (path_of real_dir) command)).
Proof.
  intros Hparse Hdel Hopts Hname Hpd Hprd Hex Hrp Hpr.
  destruct (name_is_operand name Hname) as (Hopt & Hdd & Hother & _ & _).
  apply (one_target_verdict fs command (path_of dir) home head options
           name real real_dir Hparse Hdel Hopts Hopt Hdd
           (name_is_free name Hname) Hother); try assumption.
  rewrite target_of_name by assumption.
  unfold real_if_exists. now rewrite Hex, Hrp.
Qed.

(** Where [/home/u/project/link] is a link to [/etc], [rm -rf link] is
    blocked with target [/etc]. *)
Lemma existing_entry_is_judged_by_real_path_witness :
  check_command symlink_fs "rm -rf link" "/home/u/project" "/home/u"
                "/home/u/project"
  = Some (outside_message "/etc" "/home/u/project" "rm -rf link").
Proof.
  assert (Hname : is_name "link") by literal_is_name.
  assert (Hpd : Forall plain_component ["home"; "u"; "project"])
    by literal_is_plain.
  assert (Hpr : Forall plain_component ["etc"]) by literal_is_plain.
  assert (Hopts : Forall (fun token => is_rm_option token = true) ["-rf"])
    by (repeat constructor).
  assert (Hout : ~ directory_contains ["home"; "u"; "project"] ["etc"])
    by (intros [[rest Hrest] _]; discriminate Hrest).
  exact (proj2 (existing_entry_is_judged_by_real_path symlink_fs
                  "rm -rf link" "rm" ["-rf"] "link"
                  ["home"; "u"; "project"] ["home"; "u"; "project"]
                  ["etc"] "/home/u"
                  eq_refl eq_refl Hopts Hname Hpd Hpd eq_refl eq_refl Hpr)
           Hout).
Defined.

(** ** The lexer on words and on quoted text *)

Lemma wordchar_facts c :
  Shlex.is_wordchar c = true ->
  Shlex.is_whitespace c = false /\ Shlex.is_commenter c = false /\
  Shlex.is_quote c = false /\ Shlex.is_escape c = false.
Proof.
  destruct c as [[] [] [] [] [] [] [] []]; intros H;
    try discriminate H; repeat split; reflexivity.
Qed.

Lemma feed_word word : forall token quoted,
  (forall c, contains_char c word = true -> Shlex.is_wordchar c = true) ->
  Shlex.feed (Shlex.Word token quoted) word
  = ([], Shlex.Word (token ++ word) quoted).
Proof.
  induction word as [|c word IH]; intros token quoted Hw.
  - cbn [Shlex.feed]. now rewrite append_empty_r.
  - assert (Hc : Shlex.is_wordchar c = true)
      by (apply Hw; cbn [contains_char]; now rewrite Ascii.eqb_refl).
    destruct (wordchar_facts _ Hc) as (Hs & Hm & Hq & He).
    cbn [Shlex.feed Shlex.step]. rewrite Hs, Hm, Hq, He, Hc.
    rewrite IH
      by (intros d Hd; apply Hw; cbn [contains_char]; rewrite Hd;
          apply orb_true_r).
    cbn [app]. unfold chr. rewrite append_assoc. reflexivity.
Qed.

Lemma feed_app a : forall st b,
  Shlex.feed st (a ++ b)
  = ((fst (Shlex.feed st a)
        ++ fst (Shlex.feed (snd (Shlex.feed st a)) b))%list,
     snd (Shlex.feed (snd (Shlex.feed st a)) b)).
Proof.
  induction a as [|c a IH]; intros st b.
  - cbn [append Shlex.feed fst snd app]. now destruct (Shlex.feed st b).
  - cbn [append Shlex.feed]. destruct (Shlex.step st c) as [out st'].
    rewrite IH. destruct (Shlex.feed st' a) as [out' st''].
    cbn [fst snd]. now rewrite app_assoc.
Qed.

Lemma feed_first_word word :
  is_word word -> Shlex.feed Shlex.Space word = ([], Shlex.Word word false).
Proof.
  intros [Hne Hw]. destruct word as [|c word]; [congruence|].
  assert (Hc : Shlex.is_wordchar c = true)
    by (apply Hw; cbn [contains_char]; now rewrite Ascii.eqb_refl).
  destruct (wordchar_facts _ Hc) as (Hs & Hm & Hq & He).
  cbn [Shlex.feed Shlex.step]. unfold Shlex.from_space.
  rewrite Hs, Hm, He, Hc.
  rewrite feed_word
    by (intros d Hd; apply Hw; cbn [contains_char]; rewrite Hd;
        apply orb_true_r).
  reflexivity.
Qed.

Lemma feed_word_and_space word :
  is_word word ->
  Shlex.feed Shlex.Space (word ++ " ") = ([word], Shlex.Space).
Proof.
  intros Hword. rewrite feed_app, feed_first_word by exact Hword.
  destruct Hword as [Hne _]. cbn [fst snd Shlex.feed Shlex.step app].
  change (Shlex.is_whitespace " ") with true. cbv iota.
  unfold Shlex.emit. destruct word; [congruence|reflexivity].
Qed.

Lemma join_two sep x y rest :
  Py.join sep (x :: y :: rest) = x ++ sep ++ Py.join sep (y :: rest).
Proof. reflexivity. Qed.

(** Words separated by single spaces and followed by a space. *)
Lemma feed_words words :
  Forall is_word words -> words <> [] ->
  Shlex.feed Shlex.Space (Py.join " " words ++ " ")
  = (words, Shlex.Space).
Proof.
  induction words as [|w words IH]; intros Hall Hne; [congruence|].
  inversion Hall as [|? ? Hw Hrest]; subst.
  destruct words as [|w2 words].
  - now apply feed_word_and_space.
  - rewrite join_two. rewrite !append_assoc.
    rewrite <- (append_assoc w " ").
    rewrite feed_app, feed_word_and_space by exact Hw.
    cbn [fst snd]. rewrite IH by (exact Hrest || discriminate).
    reflexivity.
Qed.

Lemma run_after_feed prefix st out st' rest :
  Shlex.feed st prefix = (out, st') ->
  Shlex.run st (prefix ++ rest)
  = match Shlex.run st' rest with
    | inl e => inl e
    | inr toks => inr (out ++ toks)%list
    end.
Proof. intros H. now rewrite run_feed, H. Qed.

Lemma run_words words :
  Forall is_word words ->
  Shlex.run Shlex.Space (Py.join " " words) = inr words.
Proof.
  induction words as [|w words IH]; intros Hall; [reflexivity|].
  inversion Hall as [|? ? Hw Hrest]; subst.
  destruct words as [|w2 words].
  - change (Py.join " " [w]) with w.
    pose proof (run_after_feed w _ _ _ EmptyString
                  (feed_first_word w Hw)) as Hrun.
    rewrite append_empty_r in Hrun. rewrite Hrun.
    cbn [Shlex.run Shlex.finish app]. unfold Shlex.emit.
    destruct Hw as [Hne _]. destruct w; [congruence|reflexivity].
  - rewrite join_two, <- (append_assoc w " ").
    rewrite (run_after_feed _ _ _ _ _ (feed_word_and_space w Hw)).
    now rewrite (IH Hrest).
Qed.

Lemma word_is_no_operator word : is_word word -> is_operator word = false.
Proof.
  intros [_ Hw].
  assert (H : forall op bad,
             In op [";"; "|"; "||"; "&&"; "&"; chr nl;
                    ">"; ">>"; "<"; "2>"; "2>>"; "&>"; "&>>"] ->
             contains_char bad op = true ->
             Shlex.is_wordchar bad = false ->
             word <> op).
  { intros op bad _ Hbad Hnot ->. rewrite (Hw _ Hbad) in Hnot.
    discriminate. }
  unfold is_operator. apply orb_false_iff.
  split; apply not_true_is_false; intros Hm; apply mem_In in Hm; simpl in Hm;
    repeat (destruct Hm as [Hm|Hm];
            [ symmetry in Hm; revert Hm;
              first [ apply (H _ ";"%char); [simpl; tauto|reflexivity..]
                    | apply (H _ "|"%char); [simpl; tauto|reflexivity..]
                    | apply (H _ "&"%char); [simpl; tauto|reflexivity..]
                    | apply (H _ nl); [simpl; tauto|reflexivity..]
                    | apply (H _ ">"%char); [simpl; tauto|reflexivity..]
                    | apply (H _ "<"%char); [simpl; tauto|reflexivity..] ]
            | ]);
    destruct Hm.
Qed.

Lemma words_are_operator_free words :
  Forall is_word words -> operator_free words.
Proof.
  intros H. eapply Forall_impl; [|exact H].
  intros w. apply word_is_no_operator.
Qed.

(** Text between single quotes is read as it stands. *)
Lemma feed_single_quoted text : forall token,
  contains_char squote text = false ->
  Shlex.feed (Shlex.Quote squote token) text
  = ([], Shlex.Quote squote (token ++ text)).
Proof.
  induction text as [|c text IH]; intros token Hq.
  - cbn [Shlex.feed]. now rewrite append_empty_r.
  - cbn [contains_char] in Hq. apply orb_false_iff in Hq.
    destruct Hq as [Hc Hq]. rewrite Ascii.eqb_sym in Hc.
    cbn [Shlex.feed Shlex.step]. rewrite Hc.
    change (Shlex.is_escapedquote squote) with false.
    rewrite andb_false_r. rewrite IH by exact Hq.
    cbn [app]. unfold chr. rewrite append_assoc. reflexivity.
Qed.

Lemma feed_quoted_token text :
  contains_char squote text = false ->
  Shlex.feed Shlex.Space (chr squote ++ text ++ chr squote)
  = ([], Shlex.Word text true).
Proof.
  intros Hq. unfold chr at 1. cbn [append Shlex.feed].
  change (Shlex.step Shlex.Space squote)
    with (@nil string, Shlex.Quote squote EmptyString).
  cbv beta iota.
  rewrite feed_app, feed_single_quoted by exact Hq.
  cbn [fst snd app append]. unfold chr. cbn [Shlex.feed Shlex.step].
  now rewrite Ascii.eqb_refl.
Qed.

(** X24: a line of words separated by single spaces, each made of
    word characters of the lexer (letters, digits, the underscore and
    [~-./*?=]), is read as one simple command made of exactly these
    words. *)
Theorem plain_words_are_one_command words :
  words <> [] ->
  Forall is_word words ->
  parse_command_tokens (Py.join " " words) = Some [words].
Proof.
  intros Hne Hall. unfold parse_command_tokens, Shlex.tokens.
  rewrite run_words by exact Hall.
  rewrite <- (app_nil_r words) at 1.
  rewrite split_operator_free_prefix
    by now apply words_are_operator_free.
  cbn [split_commands app]. now rewrite flush_not_empty.
Qed.

Lemma plain_words_are_one_command_witness :
  parse_command_tokens "rm -rf a/b.txt ~/x"
  = Some [["rm"; "-rf"; "a/b.txt"; "~/x"]].
Proof.
  assert (Hall : Forall is_word ["rm"; "-rf"; "a/b.txt"; "~/x"])
    by literal_are_words.
  assert (Hne : ["rm"; "-rf"; "a/b.txt"; "~/x"] <> []) by discriminate.
  exact (plain_words_are_one_command ["rm"; "-rf"; "a/b.txt"; "~/x"]
           Hne Hall).
Defined.

(** X25: text between single quotes that holds no single quote becomes
    one token with exactly that text, whatever it contains; the empty
    text gives the empty token. *)
Theorem single_quoted_text_is_literal text :
  contains_char squote text = false ->
  Shlex.tokens (chr squote ++ text ++ chr squote) = inr [text].
Proof.
  intros Hq. unfold Shlex.tokens.
  pose proof (run_after_feed _ _ _ _ EmptyString
                (feed_quoted_token text Hq)) as Hrun.
  rewrite append_empty_r in Hrun. rewrite Hrun.
  cbn [Shlex.run Shlex.finish]. unfold Shlex.emit.
  now rewrite orb_true_r.
Qed.

Lemma single_quoted_text_is_literal_witness :
  Shlex.tokens (chr squote ++ "a b; $HOME" ++ chr squote)
  = inr ["a b; $HOME"].
Proof. exact (single_quoted_text_is_literal "a b; $HOME" eq_refl). Defined.

(** X26: the grouping loop sees tokens, not quoting: a separator written
    between single quotes still ends the simple command, and the words
    after it start a new one. *)
Theorem quoted_separator_still_separates before separator after :
  before <> [] -> after <> [] ->
  Forall is_word before -> Forall is_word after ->
  is_separator separator = true ->
  parse_command_tokens
    (Py.join " " before ++ " " ++ chr squote ++ separator ++ chr squote
       ++ " " ++ Py.join " " after)
  = Some [before; after].
Proof.
  intros Hb Ha Hwb Hwa Hsep.
  assert (Hq : contains_char squote separator = false).
  { apply mem_In in Hsep. simpl in Hsep.
    repeat (destruct Hsep as [<-|Hsep]; [reflexivity|]). destruct Hsep. }
  assert (Hfeed : Shlex.feed Shlex.Space
                    ((chr squote ++ separator ++ chr squote) ++ " ")
                  = ([separator], Shlex.Space)).
  { rewrite feed_app, feed_quoted_token by exact Hq.
    cbn [fst snd Shlex.feed Shlex.step app].
    change (Shlex.is_whitespace " ") with true. cbv iota.
    unfold Shlex.emit. now rewrite orb_true_r. }
  unfold parse_command_tokens, Shlex.tokens.
  rewrite <- (append_assoc (Py.join " " before) " ").
  rewrite (run_after_feed _ _ _ _ _ (feed_words before Hwb Hb)).
  assert (Hshape :
    chr squote ++ separator ++ chr squote ++ " " ++ Py.join " " after
    = ((chr squote ++ separator ++ chr squote) ++ " ")
        ++ Py.join " " after)
    by now rewrite !append_assoc.
  rewrite Hshape, (run_after_feed _ _ _ _ _ Hfeed).
  rewrite run_words by exact Hwa.
  change (before ++ [separator] ++ after)%list
    with (chain before [(separator, after)]).
  rewrite split_chain_from;
    [reflexivity|now apply words_are_operator_free|exact Hb|].
  repeat constructor; [exact Hsep|exact Ha|].
  now apply words_are_operator_free.
Qed.

Lemma quoted_separator_still_separates_witness :
  let command := "rm -rf " ++ chr squote ++ "|" ++ chr squote ++ " /etc" in
  parse_command_tokens command = Some [["rm"; "-rf"]; ["/etc"]] /\
  check_command plain_fs command "/home/u/project" "/home/u"
                "/home/u/project" = None.
Proof.
  assert (Hb : Forall is_word ["rm"; "-rf"])
    by literal_are_words.
  assert (Ha : Forall is_word ["/etc"])
    by literal_are_words.
  assert (Hnb : ["rm"; "-rf"] <> []) by discriminate.
  assert (Hna : ["/etc"] <> []) by discriminate.
  split.
  - exact (quoted_separator_still_separates ["rm"; "-rf"] "|" ["/etc"]
             Hnb Hna Hb Ha eq_refl).
  - reflexivity.
Defined.

(** * Malformed commands *)

(** ** The lexer and the quoting rules *)

(** One step of the lexer moves the quoting state as the quoting rules
    say, as long as no comment starts. *)
Lemma step_quoting st c :
  outside_comment st ->
  (quoting_of st = Unquoted -> Ascii.eqb c "#" = false) ->
  outside_comment (snd (Shlex.step st c)) /\
  quoting_of (snd (Shlex.step st c)) = quoting_step (quoting_of st) c.
Proof.
  intros Hwf Hhash.
  destruct (Ascii.eqb c squote) eqn:Hs;
    [apply Ascii.eqb_eq in Hs; subst c|].
  { destruct st as [| token quoted | token | q token
                    | [|q] token quoted |];
      try (split; reflexivity); try contradiction.
    - cbn in Hwf. apply orb_true_iff in Hwf.
      destruct Hwf as [Hq|Hq]; apply Ascii.eqb_eq in Hq; subst q;
        split; reflexivity.
    - cbn in Hwf. subst q. split; reflexivity. }
  destruct (Ascii.eqb c dquote) eqn:Hd;
    [apply Ascii.eqb_eq in Hd; subst c|].
  { destruct st as [| token quoted | token | q token
                    | [|q] token quoted |];
      try (split; reflexivity); try contradiction.
    - cbn in Hwf. apply orb_true_iff in Hwf.
      destruct Hwf as [Hq|Hq]; apply Ascii.eqb_eq in Hq; subst q;
        split; reflexivity.
    - cbn in Hwf. subst q. split; reflexivity. }
  destruct (Ascii.eqb c backslash) eqn:Hb;
    [apply Ascii.eqb_eq in Hb; subst c|].
  { destruct st as [| token quoted | token | q token
                    | [|q] token quoted |];
      try (split; reflexivity); try contradiction.
    - cbn in Hwf. apply orb_true_iff in Hwf.
      destruct Hwf as [Hq|Hq]; apply Ascii.eqb_eq in Hq; subst q;
        split; reflexivity.
    - cbn in Hwf. subst q. split; reflexivity. }
  assert (Hquote : Shlex.is_quote c = false)
    by (unfold Shlex.is_quote; now rewrite Hs, Hd).
  assert (Hescape : Shlex.is_escape c = false) by exact Hb.
  destruct st as [| token quoted | token | q token
                  | [|q] token quoted |]; try contradiction.
  - assert (Hc : Shlex.is_commenter c = false) by now apply Hhash.
    cbn [Shlex.step quoting_of quoting_step]. unfold Shlex.from_space.
    rewrite Hs, Hd, Hb, Hc, Hescape, Hquote.
    destruct (Shlex.is_whitespace c), (Shlex.is_wordchar c),
      (Shlex.is_punctuation c); split; reflexivity.
  - assert (Hc : Shlex.is_commenter c = false) by now apply Hhash.
    cbn [Shlex.step quoting_of quoting_step]. unfold Shlex.from_space.
    rewrite Hs, Hd, Hb, Hc, Hescape, Hquote.
    destruct (Shlex.is_whitespace c), (Shlex.is_wordchar c),
      (Shlex.is_punctuation c); split; reflexivity.
  - assert (Hc : Shlex.is_commenter c = false) by now apply Hhash.
    cbn [Shlex.step quoting_of quoting_step]. unfold Shlex.from_space.
    rewrite Hs, Hd, Hb, Hc, Hescape, Hquote.
    destruct (Shlex.is_whitespace c), (Shlex.is_wordchar c),
      (Shlex.is_punctuation c); split; reflexivity.
  - cbn in Hwf. apply orb_true_iff in Hwf.
    destruct Hwf as [Hq|Hq]; apply Ascii.eqb_eq in Hq; subst q;
      unfold Shlex.step; rewrite ?Hs, ?Hd, ?Hescape;
      split; try reflexivity;
      unfold quoting_of, quoting_step; cbn [snd];
      rewrite ?Ascii.eqb_refl, ?Hs, ?Hd, ?Hb; reflexivity.
  - split; reflexivity.
  - cbn in Hwf. subst q. split; reflexivity.
Qed.

(** Without a comment, the lexer ends as the quoting rules say: with
    tokens when the text ends outside quotes, with [No closing quotation]
    inside quotes, with [No escaped character] after a backslash. *)
Lemma run_quoting text : forall st,
  outside_comment st ->
  unquoted_hash (quoting_of st) text = false ->
  match quoting_after (quoting_of st) text with
  | Unquoted => exists tokens, Shlex.run st text = inr tokens
  | InSingle | InDouble =>
      Shlex.run st text = inl Shlex.NoClosingQuotation
  | Escaped | EscapedInDouble =>
      Shlex.run st text = inl Shlex.NoEscapedCharacter
  end.
Proof.
  induction text as [|c text IH]; intros st Hwf Hhash.
  - cbn [quoting_after Shlex.run].
    destruct st as [| token quoted | token | q token
                    | [|q] token quoted |];
      cbn [quoting_of Shlex.finish]; try contradiction; eauto.
    destruct (Ascii.eqb q squote); reflexivity.
  - cbn [unquoted_hash] in Hhash. apply orb_false_iff in Hhash.
    destruct Hhash as [Hc Hrest].
    assert (Hno : quoting_of st = Unquoted -> Ascii.eqb c "#" = false)
      by (intros Hq; now rewrite Hq in Hc).
    destruct (step_quoting st c Hwf Hno) as [Hwf' Hq'].
    cbn [quoting_after Shlex.run].
    destruct (Shlex.step st c) as [out st'] eqn:Hstep.
    cbn [snd] in Hwf', Hq'. rewrite <- Hq' in Hrest |- *.
    specialize (IH st' Hwf' Hrest).
    destruct (quoting_after (quoting_of st') text);
      try (rewrite IH; reflexivity).
    destruct IH as [tokens ->]. eauto.
Qed.

(** A command without a comment is malformed for the tokenizer exactly
    when it ends inside quotes or after a backslash. *)
Lemma malformed_iff_open command :
  unquoted_hash Unquoted command = false ->
  (parse_command_tokens command = None <->
   quoting_after Unquoted command <> Unquoted).
Proof.
  intros Hhash. unfold parse_command_tokens, Shlex.tokens.
  pose proof (run_quoting command Shlex.Space I Hhash) as H.
  cbn [quoting_of] in H.
  destruct (quoting_after Unquoted command);
    try (rewrite H; split; [discriminate|reflexivity]).
  destruct H as [tokens ->]. split; [discriminate|congruence].
Qed.

Lemma unterminated_is_malformed command :
  unterminated_quoting command ->
  unquoted_hash Unquoted command = false ->
  parse_command_tokens command = None.
Proof.
  intros Hq Hhash. apply malformed_iff_open; [exact Hhash|].
  unfold unterminated_quoting in Hq. intros He. now rewrite He in Hq.
Qed.

Lemma unterminated_is_not_empty command :
  unterminated_quoting command -> is_empty command = false.
Proof. destruct command; [intros []|reflexivity]. Qed.

(** C4 as amended: the command of a Bash request ends inside single or
    double quotes, read under the quoting rules of the shell, and no [#]
    stands outside quotes.  Then tokenization fails with the malformed
    signal.  When the raw command holds a tracked name between word
    boundaries the process exits with status 2, and with the
    malformed-command diagnostic when the working directory is valid;
    when it holds none and the working directory is valid, the quick
    check exits with status 0 and the command is not tokenized. *)
Theorem C4_malformed_blocks fs home request :
  tool_name request = "Bash" ->
  unterminated_quoting (command request) ->
  unquoted_hash Unquoted (command request) = false ->
  parse_command_tokens (command request) = None /\
  (has_dangerous (command request) = true ->
   exists message, main fs home request = Exited 2 message) /\
  (forall abs_cwd,
      valid_cwd fs request abs_cwd ->
      main fs home request
      = if has_dangerous (command request)
        then block (malformed_message (command request))
        else allow).
Proof.
  intros Ht Hq Hhash.
  pose proof (unterminated_is_malformed _ Hq Hhash) as Hp.
  pose proof (unterminated_is_not_empty _ Hq) as Hne.
  split; [exact Hp|]. split.
  - intros Hd. unfold main, check_command. rewrite Ht, Hne, Hd, Hp. simpl.
    destruct (is_empty (cwd request) || negb (fs_isdir fs (cwd request)));
      [unfold block; eauto|].
    destruct (fs_realpath fs (cwd request)); unfold block; eauto.
  - intros abs_cwd (Hcwd & Hdir & Hreal).
    assert (He : is_empty (cwd request) = false)
      by (destruct (cwd request); [congruence|reflexivity]).
    unfold main, check_command. rewrite Ht, Hne, He, Hdir, Hreal, Hp.
    simpl. now destruct (has_dangerous (command request)).
Qed.

(** [rm] followed by an opening double quote that is never closed, the
    text ending in a backslash: the lexer fails for want of an escaped
    character, and the request is blocked. *)
Lemma C4_malformed_blocks_witness :
  let request := bash_request ("rm " ++ chr dquote ++ "hi\") in
  tool_name request = "Bash" /\
  unterminated_quoting (command request) /\
  unquoted_hash Unquoted (command request) = false /\
  has_dangerous (command request) = true /\
  Shlex.tokens (command request) = inl Shlex.NoEscapedCharacter /\
  main plain_fs "/home/u" request
  = block (malformed_message (command request)).
Proof.
  cbv zeta.
  assert (Hq : unterminated_quoting
                 (command (bash_request ("rm " ++ chr dquote ++ "hi\"))))
    by exact I.
  assert (Hv : valid_cwd plain_fs
                 (bash_request ("rm " ++ chr dquote ++ "hi\"))
                 "/home/u/project")
    by (repeat split; discriminate).
  split; [reflexivity|]. split; [exact Hq|]. split; [reflexivity|].
  split; [reflexivity|]. split; [reflexivity|].
  exact (proj2 (proj2 (C4_malformed_blocks plain_fs "/home/u"
                         (bash_request ("rm " ++ chr dquote ++ "hi\"))
                         eq_refl Hq eq_refl))
           "/home/u/project" Hv).
Defined.

(** C4 as stated fails, twice.  [echo] followed by a double-quoted
    string that is never closed holds no tracked name, and the quick
    check allows it before any tokenization.  In [rm a#b 'c] the [#]
    starts a comment for the lexer: the open quote after it is never
    read, the tokens are [rm] and [a], and the request is allowed. *)
Lemma C4_counterexample :
  let quick := bash_request ("echo " ++ chr dquote ++ "hi") in
  let comment := bash_request ("rm a#b " ++ chr squote ++ "c") in
  (tool_name quick = "Bash" /\
   command quick <> "" /\
   unterminated_quoting (command quick) /\
   main plain_fs "/home/u" quick = allow) /\
  (tool_name comment = "Bash" /\
   command comment <> "" /\
   unterminated_quoting (command comment) /\
   has_dangerous (command comment) = true /\
   parse_command_tokens (command comment) = Some [["rm"; "a"]] /\
   main plain_fs "/home/u" comment = allow).
Proof.
  cbv zeta. split.
  - split; [reflexivity|]. split; [discriminate|]. split; [exact I|].
    reflexivity.
  - split; [reflexivity|]. split; [discriminate|]. split; [exact I|].
    split; [reflexivity|]. split; reflexivity.
Qed.

(** * The path resolver, step by step *)

Lemma split_slash_parts text :
  Forall (fun comp => contains_char "/" comp = false) (split_slash text).
Proof.
  induction text as [|c text IH]; [repeat constructor|].
  cbn [split_slash]. destruct (Ascii.eqb c "/") eqn:Hc.
  - constructor; [reflexivity|exact IH].
  - destruct (split_slash text) as [|h t].
    + constructor; [|constructor]. unfold chr. cbn [contains_char].
      rewrite (Ascii.eqb_sym "/" c), Hc. reflexivity.
    + inversion IH as [|? ? Hh Ht]; subst. constructor; [|exact Ht].
      cbn [contains_char]. now rewrite (Ascii.eqb_sym "/" c), Hc, Hh.
Qed.

(** Below a normalized directory, the loop of [normpath] is the lexical
    walk. *)
Lemma normpath_steps_are_lexical comps : forall dir,
  Forall plain_component dir ->
  Forall (fun comp => contains_char "/" comp = false) comps ->
  fold_left (PosixPath.normpath_step 1) comps dir = lexical_walk dir comps.
Proof.
  unfold lexical_walk.
  induction comps as [|comp comps IH]; intros dir Hdir Hcomps;
    [reflexivity|].
  inversion Hcomps as [|? ? Hcomp Hrest]; subst.
  cbn [fold_left].
  assert (Hstep : PosixPath.normpath_step 1 dir comp = lexical_step dir comp
                  /\ Forall plain_component (lexical_step dir comp)).
  { unfold PosixPath.normpath_step, lexical_step.
    destruct ((comp =? "") || (comp =? ".")) eqn:Hskip;
      [split; [reflexivity|exact Hdir]|].
    apply orb_false_iff in Hskip. destruct Hskip as [He Hd].
    destruct (comp =? "..") eqn:Hdd.
    - cbn [negb orb Nat.eqb andb]. split.
      + destruct dir as [|d dir]; [reflexivity|].
        rewrite (last_plain_not_dotdot (d :: dir) Hdir)
          by discriminate.
        reflexivity.
      + now apply plain_removelast.
    - cbn [negb orb]. split; [reflexivity|].
      apply Forall_app. split; [exact Hdir|].
      constructor; [|constructor].
      apply String.eqb_neq in He, Hd, Hdd. now repeat split. }
  destruct Hstep as [-> Hplain]. now apply IH.
Qed.

Lemma substring_all text :
  String.substring 0 (String.length text) text = text.
Proof.
  induction text as [|c text IH]; [reflexivity|].
  cbn [String.length String.substring]. now rewrite IH.
Qed.

Lemma no_tilde_no_home path :
  startswith path "~" = false ->
  (path =? "~") || startswith path "~/" = false.
Proof.
  destruct path as [|c rest]; [reflexivity|].
  cbn [startswith String.eqb]. rewrite andb_true_r. intros H.
  rewrite H, (Ascii.eqb_sym c "~"), H. reflexivity.
Qed.

(** C8 as amended, for a token that no unresolvable pattern matches.
    A token that begins with a tilde and is neither [~] nor begins with
    [~/] does not resolve, whoever the user it names.  Every other token
    resolves: a leading [~] or [~/] is replaced by the home directory, a
    relative result is joined onto the working directory, the path is
    normalized, and the real path replaces it only when the normalized
    path exists and the probe succeeds; a path that does not exist
    resolves to its normalized form.  On normalized directories the
    normalized path is the lexical walk from the working directory for a
    relative token, from the root for an absolute one, and from the home
    directory after [~/]. *)
Theorem C8_resolve_path fs path cwd home :
  free_of_patterns path ->
  (other_user_home path = true -> resolve_path fs path cwd home = None) /\
  (other_user_home path = false ->
   let normalized :=
     PosixPath.normpath (absolute_from cwd (expand_home home path)) in
   resolve_path fs path cwd home = Some (real_if_exists fs normalized) /\
   (fs_exists fs normalized = false ->
    resolve_path fs path cwd home = Some normalized) /\
   (forall real,
       fs_exists fs normalized = true ->
       fs_realpath fs normalized = OsOk real ->
       resolve_path fs path cwd home = Some real) /\
   (forall text,
       fs_exists fs normalized = true ->
       fs_realpath fs normalized = OSError text ->
       resolve_path fs path cwd home = Some normalized)) /\
  (forall dir,
      cwd = path_of dir -> Forall plain_component dir ->
      startswith path "/" = false -> startswith path "~" = false ->
      PosixPath.normpath (absolute_from cwd (expand_home home path))
      = path_of (lexical_walk dir (split_slash path))) /\
  (forall rest,
      path = "/" ++ rest -> startswith rest "/" = false ->
      PosixPath.normpath (absolute_from cwd (expand_home home path))
      = path_of (lexical_walk [] (split_slash rest))) /\
  (forall base rest,
      home = path_of base -> Forall plain_component base -> base <> [] ->
      path = "~/" ++ rest ->
      PosixPath.normpath (absolute_from cwd (expand_home home path))
      = path_of (lexical_walk base (split_slash rest))) /\
  (forall base,
      home = path_of base -> Forall plain_component base ->
      path = "~" ->
      PosixPath.normpath (absolute_from cwd (expand_home home path))
      = path_of base).
Proof.
  intros Hfree.
  split; [|split; [|split; [|split; [|split]]]].
  - intros Huser. unfold resolve_path.
    rewrite (free_of_patterns_existsb _ Hfree).
    unfold other_user_home in Huser. apply andb_true_iff in Huser.
    destruct Huser as [Ht Hn]. apply negb_true_iff in Hn.
    now rewrite Ht, Hn.
  - intros Huser normalized.
    assert (Hres : resolve_path fs path cwd home
                   = Some (real_if_exists fs normalized)).
    { unfold resolve_path. rewrite (free_of_patterns_existsb _ Hfree).
      subst normalized. unfold other_user_home in Huser.
      unfold expand_home, absolute_from.
      destruct (startswith path "~") eqn:Ht.
      - cbn [andb] in Huser. apply negb_false_iff in Huser. rewrite Huser.
        now destruct (PosixPath.isabs _).
      - rewrite (no_tilde_no_home path Ht).
        now destruct (PosixPath.isabs path). }
    rewrite Hres. unfold real_if_exists.
    repeat split.
    + intros ->. reflexivity.
    + intros real -> ->. reflexivity.
    + intros text -> ->. reflexivity.
  - intros dir -> Hdir Hrel Htilde.
    unfold expand_home, absolute_from, PosixPath.isabs, PosixPath.sep.
    rewrite (no_tilde_no_home path Htilde), Hrel.
    rewrite <- (normpath_steps_are_lexical (split_slash path) dir Hdir
                  (split_slash_parts path)).
    destruct dir as [|d dir].
    + now apply normpath_below_root.
    + apply normpath_below; [exact Hdir|discriminate|exact Hrel].
  - intros rest -> Hrest.
    change (expand_home home ("/" ++ rest)) with ("/" ++ rest).
    change (absolute_from cwd ("/" ++ rest)) with ("/" ++ rest).
    rewrite <- (normpath_steps_are_lexical (split_slash rest) []
                  (Forall_nil _) (split_slash_parts rest)).
    now apply normpath_absolute.
  - intros base rest -> Hbase Hne ->.
    assert (Hexp : expand_home (path_of base) ("~/" ++ rest)
                   = path_of base ++ "/" ++ rest).
    { unfold expand_home.
      change ((("~/" ++ rest) =? "~") || startswith ("~/" ++ rest) "~/")
        with true.
      cbv iota. apply f_equal.
      change (String.substring 1 (String.length ("~/" ++ rest) - 1)
                               ("~/" ++ rest))
        with (String "/" (String.substring 0 (String.length rest) rest)).
      now rewrite substring_all. }
    rewrite Hexp.
    change (absolute_from cwd (path_of base ++ "/" ++ rest))
      with (path_of base ++ "/" ++ rest).
    rewrite <- (normpath_steps_are_lexical (split_slash rest) base Hbase
                  (split_slash_parts rest)).
    now apply normpath_under.
  - intros base -> Hbase ->.
    assert (Hexp : expand_home (path_of base) "~" = path_of base)
      by (unfold expand_home; cbn; now rewrite append_empty_r).
    rewrite Hexp.
    change (absolute_from cwd (path_of base)) with (path_of base).
    now apply normpath_path_of.
Qed.

(** [../notes/./x.txt] from [/home/u/project]: the path does not exist
    and resolves to [/home/u/notes/x.txt]; [~/notes/../x] with home
    [/home/u] resolves to [/home/u/x]. *)
Lemma C8_resolve_path_witness :
  free_of_patterns "../notes/./x.txt" /\
  other_user_home "../notes/./x.txt" = false /\
  resolve_path plain_fs "../notes/./x.txt" "/home/u/project" "/home/u"
  = Some "/home/u/notes/x.txt".
Proof.
  assert (Hf : free_of_patterns "../notes/./x.txt")
    by (repeat constructor).
  assert (Hd : Forall plain_component ["home"; "u"; "project"])
    by literal_is_plain.
  split; [exact Hf|]. split; [reflexivity|].
  pose proof (C8_resolve_path plain_fs "../notes/./x.txt"
                "/home/u/project" "/home/u" Hf)
    as (_ & Hsteps & Hwalk & _).
  destruct (Hsteps eq_refl) as (Hresolved & _).
  rewrite Hresolved.
  rewrite (Hwalk ["home"; "u"; "project"] eq_refl Hd eq_refl eq_refl).
  reflexivity.
Defined.

(** C8 as stated fails: [~u/x] matches no unresolvable pattern, and with
    [/home/u] as home directory it names the caller, yet it does not
    resolve. *)
Lemma C8_counterexample :
  free_of_patterns "~u/x" /\
  other_user_home "~u/x" = true /\
  resolve_path plain_fs "~u/x" "/home/u/project" "/home/u" = None.
Proof.
  split; [repeat constructor|]. split; reflexivity.
Qed.
